(** * CranesTracker: the geodesy core of [tracker_script.js]

    A shallow embedding of the classes [Dms] and [LatLonSpherical] of
    [src/tracker_script.js], and the properties of the wrap functions, the
    degree/minute/second formatter, the point constructor and setters, the
    great-circle intersection and the polygon area.

    Conventions of the embedding.
    - A JavaScript Number is a [number]: NaN, the two infinities, or a finite
      value carried as an exact rational.  The arithmetic operators are the
      IEEE ones on the special values and exact on finite values: rounding,
      overflow and the sign of zero are not modelled.  Where a function
      multiplies a value that its caller chooses, so that the product can
      leave the range of a double, what is proved of it is proved on the
      values for which the product stays in that range, [Dms.no_overflow];
      [Binary64] gives the wrap functions as binary64 computes them, and
      is where the code is evaluated beyond that range.
    - A JavaScript String is a [string] holding the UTF-8 bytes of the text.
    - A call that can throw returns a [result]; a method that assigns to its
      object or array returns the object or array after the call as well.
    - The trigonometric functions of [Math] are a parameter, [Math.Lib],
      constrained by what ECMAScript fixes of them, [Math.Conforms];
      [RefMath] is one instance, used where a statement is evaluated. *)

From Stdlib Require Import ZArith QArith Qround Qabs Qpower Lqa Lia.
From Stdlib Require Import List String Ascii Bool DecimalString DecimalPos.
From Stdlib Require PrimFloat FloatOps SpecFloat.
Import ListNotations.

Set Implicit Arguments.

(* ================================================================== *)
(** * JavaScript numbers *)
(* ================================================================== *)

Module JS.

Inductive number : Type :=
| NaN
| PInf                (* +Infinity *)
| NInf                (* -Infinity *)
| Fin (q : Q).

Declare Scope js_scope.
Delimit Scope js_scope with js.
Bind Scope js_scope with number.

(** Integer and decimal literals of the source. *)
Definition int (z : Z) : number := Fin (inject_Z z).
Definition dec (q : Q) : number := Fin (Qred q).

Definition Qsign (q : Q) : Z := Z.sgn (Qnum q).

(** The sign of a number that is not NaN: 1, 0 or -1. *)
Definition sign (x : number) : Z :=
  match x with
  | NaN => 0
  | PInf => 1
  | NInf => (-1)
  | Fin q => Qsign q
  end.

Definition inf_of_sign (s : Z) : number :=
  match s with
  | Zpos _ => PInf
  | Zneg _ => NInf
  | Z0 => NaN
  end.

Definition neg (x : number) : number :=
  match x with
  | NaN => NaN
  | PInf => NInf
  | NInf => PInf
  | Fin q => Fin (Qred (- q))
  end.

Definition add (x y : number) : number :=
  match x, y with
  | NaN, _ | _, NaN => NaN
  | PInf, NInf | NInf, PInf => NaN
  | PInf, _ | _, PInf => PInf
  | NInf, _ | _, NInf => NInf
  | Fin a, Fin b => Fin (Qred (a + b))
  end.

Definition sub (x y : number) : number :=
  match x, y with
  | NaN, _ | _, NaN => NaN
  | PInf, PInf | NInf, NInf => NaN
  | PInf, _ | _, NInf => PInf
  | NInf, _ | _, PInf => NInf
  | Fin a, Fin b => Fin (Qred (a - b))
  end.

Definition mul (x y : number) : number :=
  match x, y with
  | NaN, _ | _, NaN => NaN
  | Fin a, Fin b => Fin (Qred (a * b))
  | _, _ => inf_of_sign (sign x * sign y)
  end.

(** [x / y]: a finite, non-zero dividend over zero is an infinity, [0 / 0]
    is NaN.  The zero divisor counts as [+0]. *)
Definition div (x y : number) : number :=
  match x, y with
  | NaN, _ | _, NaN => NaN
  | Fin a, Fin b =>
      if Qeq_bool b 0 then inf_of_sign (Qsign a) else Fin (Qred (a / b))
  | Fin _, _ => Fin 0
  | _, Fin b => if Qeq_bool b 0 then x else inf_of_sign (sign x * Qsign b)
  | _, _ => NaN
  end.

(** Truncation towards zero. *)
Definition Qtrunc (q : Q) : Z := Z.quot (Qnum q) (Zpos (Qden q)).

(** The remainder [a % b] of finite values, with the sign of the dividend. *)
Definition Qrem (a b : Q) : Q := a - b * inject_Z (Qtrunc (a / b)).

Definition rem (x y : number) : number :=
  match x, y with
  | NaN, _ | _, NaN => NaN
  | PInf, _ | NInf, _ => NaN
  | Fin a, Fin b => if Qeq_bool b 0 then NaN else Fin (Qred (Qrem a b))
  | Fin a, _ => x
  end.

(** [x ** y].  Exact for a finite base and an integral exponent, the case
    of [2**(precision-1)] in the code below, and on the special values.  A
    positive base to a fractional exponent has no rational value in general
    and is given as NaN, as is a negative one. *)
Definition pow (x y : number) : number :=
  match y with
  | NaN => NaN
  | Fin b =>
      if Qeq_bool b 0 then Fin 1
      else match x with
           | NaN => NaN
           | PInf => if Qle_bool 0 b then PInf else Fin 0
           | NInf =>
               if Qle_bool 0 b then
                 if Qeq_bool b (inject_Z (Qfloor b)) && Z.odd (Qfloor b)
                 then NInf else PInf
               else Fin 0
           | Fin a =>
               if Qeq_bool a 0 then (if Qle_bool 0 b then Fin 0 else PInf)
               else if Qeq_bool b (inject_Z (Qfloor b))
                    then Fin (Qred (Qpower a (Qfloor b)))
                    else NaN
           end
  | PInf | NInf =>
      match x with
      | NaN => NaN
      | PInf | NInf => match y with PInf => PInf | _ => Fin 0 end
      | Fin a =>
          if Qeq_bool (Qabs a) 1 then NaN
          else if Qle_bool 1 (Qabs a)
               then match y with PInf => PInf | _ => Fin 0 end
               else match y with PInf => Fin 0 | _ => PInf end
      end
  end.

(** Comparisons: every comparison with NaN is false. *)
Definition lt (x y : number) : bool :=
  match x, y with
  | NaN, _ | _, NaN => false
  | _, NInf | PInf, _ => false
  | NInf, _ | _, PInf => true
  | Fin a, Fin b => negb (Qle_bool b a)
  end.

Definition le (x y : number) : bool :=
  match x, y with
  | NaN, _ | _, NaN => false
  | NInf, _ | _, PInf => true
  | _, NInf | PInf, _ => false
  | Fin a, Fin b => Qle_bool a b
  end.

Definition gt (x y : number) : bool := lt y x.

(** [x == y] on numbers. *)
Definition eqb (x y : number) : bool :=
  match x, y with
  | PInf, PInf | NInf, NInf => true
  | Fin a, Fin b => Qeq_bool a b
  | _, _ => false
  end.

(** The integer a number denotes, if any (used to print literals). *)
Definition to_int (x : number) : option Z :=
  match x with
  | Fin q => if Qeq_bool q (inject_Z (Qfloor q)) then Some (Qfloor q) else None
  | _ => None
  end.

Definition is_nan (x : number) : bool :=
  match x with NaN => true | _ => false end.

Definition is_finite (x : number) : bool :=
  match x with Fin _ => true | _ => false end.

(** A result of a computation on finite values: NaN or finite. *)
Definition defined (x : number) : Prop := x = NaN \/ is_finite x = true.

End JS.

Import JS.

Notation "x + y" := (JS.add x y) : js_scope.
Notation "x - y" := (JS.sub x y) : js_scope.
Notation "x * y" := (JS.mul x y) : js_scope.
Notation "x / y" := (JS.div x y) : js_scope.
Notation "x %% y" := (JS.rem x y) (at level 40, left associativity) : js_scope.
Notation "x ** y" := (JS.pow x y) (at level 30, right associativity) : js_scope.
Notation "- x" := (JS.neg x) : js_scope.
Notation "x <= y" := (JS.le x y) : js_scope.
Notation "x < y" := (JS.lt x y) : js_scope.
Notation "x > y" := (JS.gt x y) : js_scope.
Notation "x == y" := (JS.eqb x y) (at level 70, no associativity) : js_scope.
Number Notation JS.number JS.int JS.to_int : js_scope.

(** The functions of the [Math] object that are exact on rationals. *)
Module Math.

Definition abs (x : number) : number :=
  match x with
  | NaN => NaN
  | PInf | NInf => PInf
  | Fin q => Fin (Qred (Qabs q))
  end.

Definition floor (x : number) : number :=
  match x with
  | Fin q => Fin (inject_Z (Qfloor q))
  | _ => x
  end.

(** [Math.round]: the nearest integer, a tie going up. *)
Definition round (x : number) : number :=
  match x with
  | Fin q => Fin (inject_Z (Qfloor (q + (1#2))))
  | _ => x
  end.

(** [Math.max] and [Math.min] of two arguments: NaN if either is NaN. *)
Definition max (x y : number) : number :=
  match x, y with
  | NaN, _ | _, NaN => NaN
  | _, _ => if JS.lt x y then y else x
  end.

Definition min (x y : number) : number :=
  match x, y with
  | NaN, _ | _, NaN => NaN
  | _, _ => if JS.lt y x then y else x
  end.

(** [Math.sign] *)
Definition sign (x : number) : number :=
  match x with
  | NaN => NaN
  | _ => JS.int (JS.sign x)
  end.

(** The functions of [Math] that have no rational value: ECMAScript leaves
    them to the host as implementation-approximated, so they are a
    parameter of the embedding. *)
Record Lib : Type := {
  sin : number -> number;
  cos : number -> number;
  tan : number -> number;
  asin : number -> number;
  acos : number -> number;
  sqrt : number -> number;
  atan2 : number -> number -> number
}.

(** What the properties below use of the ECMAScript definition of these
    functions: the sine and cosine of NaN and of an infinity are NaN, the
    inverse sine of NaN and the arc tangent of a quotient of NaN are NaN,
    and an inverse function gives NaN or an angle, never an infinity. *)
Record Conforms (M : Lib) : Prop := {
  sin_NaN : sin M NaN = NaN;
  sin_PInf : sin M PInf = NaN;
  sin_NInf : sin M NInf = NaN;
  cos_NaN : cos M NaN = NaN;
  cos_PInf : cos M PInf = NaN;
  cos_NInf : cos M NInf = NaN;
  asin_NaN : asin M NaN = NaN;
  atan2_NaN_l : forall x, atan2 M NaN x = NaN;
  asin_range : forall x, JS.defined (asin M x);
  atan2_range : forall y x, JS.defined (atan2 M y x)
}.

End Math.

(* ================================================================== *)
(** * JavaScript strings *)
(* ================================================================== *)

Module Str.

Local Open Scope string_scope.
Local Open Scope nat_scope.

Definition codes (s : string) : list nat :=
  List.map nat_of_ascii (list_ascii_of_string s).

Definition of_codes (l : list nat) : string :=
  string_of_list_ascii (List.map ascii_of_nat l).

Definition rev (s : string) : string :=
  string_of_list_ascii (List.rev (list_ascii_of_string s)).

Fixpoint drop (n : nat) (s : string) : string :=
  match n, s with
  | S n', String _ r => drop n' r
  | _, _ => s
  end.

Fixpoint last (s : string) : option ascii :=
  match s with
  | EmptyString => None
  | String c EmptyString => Some c
  | String _ r => last r
  end.

Fixpoint drop_last (s : string) : string :=
  match s with
  | EmptyString => EmptyString
  | String c EmptyString => EmptyString
  | String c r => String c (drop_last r)
  end.

(** [s.slice(start)]: a negative [start] counts from the end. *)
Definition slice (start : Z) (s : string) : string :=
  let len := Z.of_nat (String.length s) in
  let from := if (start <? 0)%Z then Z.max (len + start) 0 else Z.min start len in
  drop (Z.to_nat from) s.

(** [s.replace(pat, rep)] with a string pattern: the first occurrence only. *)
Fixpoint replace (pat rep s : string) : string :=
  if String.prefix pat s then rep ++ drop (String.length pat) s
  else match s with
       | EmptyString => EmptyString
       | String c r => String c (replace pat rep r)
       end.

(** White space and line terminators of ECMAScript, as UTF-8 byte
    sequences of one, two and three bytes. *)
Definition ws1 (a : nat) : bool :=
  (a =? 9) || (a =? 10) || (a =? 11) || (a =? 12) || (a =? 13) || (a =? 32).

Definition ws2 (a b : nat) : bool := (a =? 194) && (b =? 160).

Definition ws3 (a b c : nat) : bool :=
  ((a =? 225) && (b =? 154) && (c =? 128))
  || ((a =? 226) && (b =? 128)
      && (((128 <=? c) && (c <=? 138)) || (c =? 168) || (c =? 169) || (c =? 175)))
  || ((a =? 226) && (b =? 129) && (c =? 159))
  || ((a =? 227) && (b =? 128) && (c =? 128))
  || ((a =? 239) && (b =? 187) && (c =? 191)).

(** Strip the white space at the head of a byte list; [back] reads the
    sequences backwards, for a reversed string. *)
Fixpoint strip (back : bool) (fuel : nat) (l : list nat) : list nat :=
  match fuel with
  | O => l
  | S fuel' =>
      match l with
      | a :: r =>
          if ws1 a then strip back fuel' r
          else match r with
               | b :: r2 =>
                   if (if back then ws2 b a else ws2 a b) then strip back fuel' r2
                   else match r2 with
                        | c :: r3 =>
                            if (if back then ws3 c b a else ws3 a b c)
                            then strip back fuel' r3 else l
                        | [] => l
                        end
               | [] => l
               end
      | [] => []
      end
  end.

Definition trimStart (s : string) : string :=
  of_codes (strip false (String.length s) (codes s)).

Definition trimEnd (s : string) : string :=
  of_codes (List.rev (strip true (String.length s) (List.rev (codes s)))).

Definition trim (s : string) : string := trimEnd (trimStart s).

Definition is_digit (c : ascii) : bool :=
  let n := nat_of_ascii c in (48 <=? n) && (n <=? 57).

Definition digit_val (c : ascii) : Z := Z.of_nat (nat_of_ascii c - 48).

(** The value of a hexadecimal digit. *)
Definition hex_val (c : ascii) : option Z :=
  let n := nat_of_ascii c in
  if (48 <=? n) && (n <=? 57) then Some (Z.of_nat (n - 48))
  else if (65 <=? n) && (n <=? 70) then Some (Z.of_nat (n - 55))
  else if (97 <=? n) && (n <=? 102) then Some (Z.of_nat (n - 87))
  else None.

(** The longest run of decimal digits at the head of [s]: its value so far,
    the number of digits read, and the rest. *)
Fixpoint take_digits (s : string) (acc : Z) (n : nat) : Z * nat * string :=
  match s with
  | String c r =>
      if is_digit c then take_digits r (10 * acc + digit_val c)%Z (S n)
      else (acc, n, s)
  | EmptyString => (acc, n, s)
  end.

(** Digits in a radix of 2, 8 or 16, to the end of the string. *)
Fixpoint radix_digits (radix : Z) (s : string) (acc : Z) : option Z :=
  match s with
  | EmptyString => Some acc
  | String c r =>
      match hex_val c with
      | Some d => if (d <? radix)%Z then radix_digits radix r (radix * acc + d)%Z
                  else None
      | None => None
      end
  end.

Definition of_Z (z : Z) : string := NilZero.string_of_int (Z.to_int z).

Fixpoint zeros (n : nat) : string :=
  match n with
  | O => EmptyString
  | S n' => String "0" (zeros n')
  end.

(** [s.split(c)] for a separator [c] of one character; [cur] is the piece
    being read. *)
Fixpoint split_on (c : ascii) (s cur : string) : list string :=
  match s with
  | EmptyString => [cur]
  | String x r =>
      if Ascii.eqb x c then cur :: split_on c r EmptyString
      else split_on c r (cur ++ String x EmptyString)
  end.

(** Every character of [s] satisfies [p]. *)
Fixpoint all (p : ascii -> bool) (s : string) : bool :=
  match s with
  | EmptyString => true
  | String c r => p c && all p r
  end.

(** The number that a string of decimal digits denotes. *)
Definition digits_value (s : string) : Z := fst (fst (take_digits s 0 0)).

End Str.

(* ================================================================== *)
(** * JavaScript values, conversions and exceptions *)
(* ================================================================== *)

Module Val.

Local Open Scope string_scope.

(** The values the code is called with: [undefined], [null], booleans,
    numbers and strings.  BigInt and Symbol values, objects and arrays are
    outside the embedding. *)
Inductive value : Type :=
| VUndefined
| VNull
| VBool (b : bool)
| VNum (n : number)
| VStr (s : string).

Inductive error : Type := TypeError | RangeError.

Inductive result (A : Type) : Type :=
| Return (a : A)
| Throw (e : error).

Arguments Return {A} a.
Arguments Throw {A} e.

Definition bind {A B : Type} (r : result A) (k : A -> result B) : result B :=
  match r with
  | Return a => k a
  | Throw e => Throw e
  end.

(** Every exception of a computation is a TypeError, or a RangeError. *)
Definition only_TypeError {A : Type} (r : result A) : Prop :=
  forall e, r = Throw e -> e = TypeError.

Definition only_RangeError {A : Type} (r : result A) : Prop :=
  forall e, r = Throw e -> e = RangeError.

(** An exponent part at the head of [s], if there is one, applied to the
    mantissa [m]; and the text left over. *)
Definition exponent_part (m : Q) (s : string) : Q * string :=
  match s with
  | String c r =>
      if (Ascii.eqb c "e" || Ascii.eqb c "E")%char then
        let '(neg, r1) :=
          match r with
          | String "-" r' => (true, r')
          | String "+" r' => (false, r')
          | _ => (false, r)
          end in
        let '(e, ne, r2) := Str.take_digits r1 0 0 in
        match ne with
        | O => (m, s)
        | S _ => (m * Qpower 10 (if neg then - e else e), r2)
        end
      else (m, s)
  | EmptyString => (m, s)
  end.

(** [StrUnsignedDecimalLiteral] at the head of [s]: [Infinity], or digits
    with an optional fraction and an optional exponent.  Gives the value
    and the text left over. *)
Definition unsigned_decimal (s : string) : option (number * string) :=
  if String.prefix "Infinity" s then Some (PInf, Str.drop 8 s)
  else
    let '(i, ni, r1) := Str.take_digits s 0 0 in
    match r1 with
    | String "." r1' =>
        let '(f, nf, r2) := Str.take_digits r1' 0 0 in
        match ni, nf with
        | O, O => None
        | _, _ =>
            let m := inject_Z i + inject_Z f / Qpower 10 (Z.of_nat nf) in
            let '(v, r3) := exponent_part m r2 in
            Some (Fin (Qred v), r3)
        end
    | _ =>
        match ni with
        | O => None
        | S _ =>
            let '(v, r3) := exponent_part (inject_Z i) r1 in
            Some (Fin (Qred v), r3)
        end
    end.

(** [StrDecimalLiteral]: the same after an optional sign. *)
Definition decimal_literal (s : string) : option (number * string) :=
  match s with
  | String "-" r =>
      match unsigned_decimal r with
      | Some (v, rest) => Some (JS.neg v, rest)
      | None => None
      end
  | String "+" r => unsigned_decimal r
  | _ => unsigned_decimal s
  end.

(** A binary, octal or hexadecimal integer literal, the whole of [s]. *)
Definition radix_literal (s : string) : option number :=
  match s with
  | String "0" (String c (String d r)) =>
      let digits := String d r in
      let radix :=
        if (Ascii.eqb c "x" || Ascii.eqb c "X")%char then Some 16%Z
        else if (Ascii.eqb c "o" || Ascii.eqb c "O")%char then Some 8%Z
        else if (Ascii.eqb c "b" || Ascii.eqb c "B")%char then Some 2%Z
        else None in
      match radix with
      | Some k =>
          match Str.radix_digits k digits 0 with
          | Some z => Some (JS.int z)
          | None => Some NaN
          end
      | None => None
      end
  | _ => None
  end.

(** [StringToNumber]: white space is trimmed, the empty text is 0, and the
    whole of what is left must be one numeric literal.  The value of the
    literal is exact, as every finite number is: a literal beyond the range
    of a double is not an infinity here. *)
Definition StringToNumber (s : string) : number :=
  let t := Str.trim s in
  if String.eqb t "" then 0%js
  else match radix_literal t with
       | Some v => v
       | None =>
           match decimal_literal t with
           | Some (v, EmptyString) => v
           | _ => NaN
           end
       end.

(** [ToNumber] and the conversion function [Number(v)]. *)
Definition ToNumber (v : value) : number :=
  match v with
  | VUndefined => NaN
  | VNull => 0%js
  | VBool true => 1%js
  | VBool false => 0%js
  | VNum n => n
  | VStr s => StringToNumber s
  end.

Definition Number (v : value) : number := ToNumber v.

(** The global functions [isNaN] and [isFinite]. *)
Definition isNaN (v : value) : bool := JS.is_nan (ToNumber v).
Definition isFinite (v : value) : bool := JS.is_finite (ToNumber v).

(** ** Numbers to text *)

(** Strip the zeros at the end of a digit string. *)
Definition strip_zeros (d : string) : string :=
  Str.rev ((fix go (s : string) : string :=
              match s with
              | String "0" r => go r
              | _ => s
              end) (Str.rev d)).

(** The least [j] from [j0] on with [q * 10^j >= 1], searched with fuel. *)
Fixpoint first_digit_shift (fuel : nat) (q : Q) (j : Z) : Z :=
  match fuel with
  | O => j
  | S fuel' =>
      if Qle_bool 1 (q * Qpower 10 j) then j
      else first_digit_shift fuel' q (j + 1)
  end.

(** The decimal exponent [n] of a positive [q]: [10^(n-1) <= q < 10^n]. *)
Definition decimal_exponent (q : Q) : Z :=
  if Qle_bool 1 q then Z.of_nat (String.length (Str.of_Z (Qfloor q)))
  else
    let fuel := S (String.length (Str.of_Z (Zpos (Qden q)))) in
    (1 - first_digit_shift fuel q 1)%Z.

(** [Number::toString] of a positive finite value.  The digits are those of
    the value rounded to 17 significant digits, which are the exact digits
    of every integer and decimal fraction that has no more than 17; the
    layout (plain, fraction or exponent) is the one of ECMAScript. *)
Definition positive_toString (q : Q) : string :=
  let n0 := decimal_exponent q in
  let s0 := Qfloor (q * Qpower 10 (17 - n0) + (1#2)) in
  let '(n, digits) :=
    if (s0 =? 10 ^ 17)%Z then ((n0 + 1)%Z, "1")
    else (n0, strip_zeros (Str.of_Z s0)) in
  let k := Z.of_nat (String.length digits) in
  if (k <=? n)%Z && (n <=? 21)%Z then
    digits ++ Str.zeros (Z.to_nat (n - k))
  else if (0 <? n)%Z && (n <=? 21)%Z then
    substring 0 (Z.to_nat n) digits ++ "." ++ Str.drop (Z.to_nat n) digits
  else if (-6 <? n)%Z && (n <=? 0)%Z then
    "0." ++ Str.zeros (Z.to_nat (- n)) ++ digits
  else
    let e := (n - 1)%Z in
    let exponent := (if (e <? 0)%Z then "-" else "+") ++ Str.of_Z (Z.abs e) in
    if (k =? 1)%Z then digits ++ "e" ++ exponent
    else substring 0 1 digits ++ "." ++ Str.drop 1 digits ++ "e" ++ exponent.

Definition Number_toString (x : number) : string :=
  match x with
  | NaN => "NaN"
  | PInf => "Infinity"
  | NInf => "-Infinity"
  | Fin q =>
      if Qeq_bool q 0 then "0"
      else if Qle_bool q 0 then "-" ++ positive_toString (- q)
      else positive_toString q
  end.

(** [ToString] and the conversion function [String(v)]. *)
Definition ToString (v : value) : string :=
  match v with
  | VUndefined => "undefined"
  | VNull => "null"
  | VBool true => "true"
  | VBool false => "false"
  | VNum n => Number_toString n
  | VStr s => s
  end.

(** The operator [a + b] on primitive values: the texts joined when an
    operand is a string, the sum of the numbers otherwise. *)
Definition plus (a b : value) : value :=
  match a, b with
  | VStr _, _ | _, VStr _ => VStr (ToString a ++ ToString b)
  | _, _ => VNum (JS.add (ToNumber a) (ToNumber b))
  end.

(** [Number.prototype.toFixed(fractionDigits)]. *)
Definition toFixed (x : number) (fractionDigits : value) : result string :=
  let f :=
    match ToNumber fractionDigits with
    | NaN => Some 0%Z
    | Fin q => Some (JS.Qtrunc q)
    | _ => None
    end in
  match f with
  | None => Throw RangeError
  | Some f =>
      if (f <? 0)%Z || (100 <? f)%Z then Throw RangeError
      else match x with
           | Fin q =>
               if Qle_bool (Qpower 10 21) (Qabs q) then Return (Number_toString x)
               else
                 let n := Qfloor (Qabs q * Qpower 10 f + (1#2)) in
                 let m := Str.of_Z n in
                 let k := String.length m in
                 let fd := Z.to_nat f in
                 let m :=
                   match fd with
                   | O => m
                   | S _ =>
                       let m := if (k <=? fd)%nat then Str.zeros (S fd - k) ++ m else m in
                       let k := String.length m in
                       substring 0 (k - fd) m ++ "." ++ Str.drop (k - fd) m
                   end in
                 Return ((if Qle_bool 0 q then "" else "-") ++ m)
           | _ => Return (Number_toString x)
           end
  end.

(** The [fractionDigits] that [toFixed] accepts: an integer part from 0 to
    100, [undefined] counting as 0. *)
Definition dp_ok (dp : value) : bool :=
  match ToNumber dp with
  | NaN => true
  | Fin q => (0 <=? JS.Qtrunc q)%Z && (JS.Qtrunc q <=? 100)%Z
  | _ => false
  end.

(** The text of a decimal number as [toFixed] prints it: a sign, integer
    digits, and fraction digits after a point when there are any. *)
Definition number_text (negative : bool) (ip fp : string) : string :=
  (if negative then "-" else "") ++ ip
  ++ match fp with EmptyString => "" | _ => "." ++ fp end.

(** A printable ASCII character other than the space. *)
Definition solid (c : ascii) : bool :=
  let n := nat_of_ascii c in (33 <=? n)%nat && (n <=? 126)%nat.

(** The text after a numeric literal: it does not go on as a number. *)
Definition stops (r : string) : bool :=
  match r with
  | EmptyString => true
  | String c _ =>
      negb (Str.is_digit c || Ascii.eqb c "." || Ascii.eqb c "e" || Ascii.eqb c "E")
  end.

(** The global function [parseFloat]: the longest decimal literal at the
    head of the trimmed text.  A number argument is first printed and read
    back, which gives the number itself. *)
Definition parseFloat (v : value) : number :=
  match v with
  | VNum n => n
  | _ =>
      match decimal_literal (Str.trimStart (ToString v)) with
      | Some (n, _) => n
      | None => NaN
      end
  end.

(** [v == n] for a number [n]: [null] and [undefined] equal no number. *)
Definition loose_eq (v : value) (n : number) : bool :=
  match v with
  | VUndefined | VNull => false
  | _ => JS.eqb (ToNumber v) n
  end.

(** [array[i]]: [undefined] unless [i] is an index of the array. *)
Definition array_get {A : Type} (l : list A) (i : number) : option A :=
  match i with
  | Fin q =>
      if Qeq_bool q (inject_Z (Qfloor q)) && Qle_bool 0 q
      then nth_error l (Z.to_nat (Qfloor q)) else None
  | _ => None
  end.

(** [Number.EPSILON] is 2^-52 and [Math.PI] the double nearest to pi. *)
Definition EPSILON : number := Fin (1 # 4503599627370496).
Definition PI : number := Fin (884279719003555 # 281474976710656).

(** [Number.MAX_VALUE], the largest double: 2^1024 - 2^971. *)
Definition MAX_VALUE : number := Fin (inject_Z (2 ^ 1024 - 2 ^ 971)).

End Val.

Import Val.

(* ================================================================== *)
(** * class Dms: the wrap functions *)
(* ================================================================== *)

Module Dms.

Local Open Scope js_scope.

(** [static wrap90(degrees)]: constrain degrees to range -90..+90. *)
Definition wrap90 (degrees : number) : number :=
  if ((-90) <= degrees) && (degrees <= 90) then degrees
  else
    let x := degrees in let a := 90 in let p := 360 in
    4*a/p * Math.abs ((((x - p/4) %% p) + p) %% p - p/2) - a.

(** [static wrap180(degrees)]: constrain degrees to range -180..+180. *)
Definition wrap180 (degrees : number) : number :=
  if ((-180) <= degrees) && (degrees <= 180) then degrees
  else
    let x := degrees in let a := 180 in let p := 360 in
    (((2*a*x/p - p/2) %% p) + p) %% p - a.

(** [static wrap360(degrees)]: constrain degrees to range 0..360. *)
Definition wrap360 (degrees : number) : number :=
  if (0 <= degrees) && (degrees < 360) then degrees
  else
    let x := degrees in let a := 180 in let p := 360 in
    (((2*a*x/p) %% p) + p) %% p.

(** The values on which the product [2*a*x] of [wrap180] and of [wrap360]
    is a double: those of magnitude at most [Number.MAX_VALUE / 360].
    Beyond them the product is an infinity in binary64 and the two
    functions return NaN, which the exact arithmetic of this embedding does
    not show; [wrap90] has no such product. *)
Definition no_overflow (x : number) : bool := Math.abs x * 360 <= MAX_VALUE.

(** [static parse(dms)]: degrees/minutes/seconds text to numeric degrees. *)

Definition is_numeric_char (c : ascii) : bool :=
  (Str.is_digit c || Ascii.eqb c "." || Ascii.eqb c ",")%char.

(** [s.split(/[^0-9.,]+/)] *)
Fixpoint split_non_numeric (s cur : string) (in_sep : bool) : list string :=
  match s with
  | EmptyString => [cur]
  | String c r =>
      if is_numeric_char c
      then split_non_numeric r (cur ++ String c EmptyString)%string false
      else if in_sep then split_non_numeric r EmptyString true
           else cur :: split_non_numeric r EmptyString true
  end.

(** [s.replace(/^-/, '')] *)
Definition strip_leading_minus (s : string) : string :=
  match s with
  | String "-" r => r
  | _ => s
  end.

Definition is_compass (set : string) (c : ascii) : bool :=
  existsb (Ascii.eqb c) (list_ascii_of_string set).

(** [s.replace(/[NSEW]$/i, '')] *)
Definition strip_compass (s : string) : string :=
  match Str.last s with
  | Some c => if is_compass "NSEWnsew" c then Str.drop_last s else s
  | None => s
  end.

(** [/^-|[WS]$/i.test(s)] *)
Definition is_negative_text (s : string) : bool :=
  String.prefix "-" s
  || match Str.last s with
     | Some c => is_compass "WSws" c
     | None => false
     end.

(** [if (parts[parts.length-1]=='') parts.splice(parts.length-1)] *)
Definition drop_empty_last (parts : list string) : list string :=
  match List.rev parts with
  | EmptyString :: r => List.rev r
  | _ => parts
  end.

Definition parse (dms : value) : result number :=
  (* check for signed decimal degrees without NSEW, if so return it directly *)
  if negb (is_nan (parseFloat dms)) && isFinite dms then Return (Number dms)
  else
    (* strip off any sign or compass dir'n & split out separate d/m/s *)
    let dmsParts :=
      split_non_numeric
        (strip_compass (strip_leading_minus (Str.trim (ToString dms))))
        EmptyString false in
    let dmsParts := drop_empty_last dmsParts in
    if String.eqb (String.concat "," dmsParts) "" then Return NaN
    else
      let part i := StringToNumber (nth i dmsParts EmptyString) in
      let deg :=
        match dmsParts with
        | [_; _; _] => Some (part 0%nat / 1 + part 1%nat / 60 + part 2%nat / 3600)
        | [_; _] => Some (part 0%nat / 1 + part 1%nat / 60)
        | [_] => Some (part 0%nat)
        | _ => None
        end in
      match deg with
      | None => Return NaN
      | Some deg =>
          (* [dms.trim()] is a method of strings only *)
          match dms with
          | VStr text =>
              Return (if is_negative_text (Str.trim text) then - deg else deg)
          | _ => Throw TypeError
          end
      end.

Section Formatting.

(** [Dms.separator], the process-wide setting read when formatting. *)
Variable separator : string.

Inductive style : Type := style_d | style_dm | style_dms.

(** The second [switch (format)] of [toDms]. *)
Definition style_of (format : string) : style :=
  if String.eqb format "dm" || String.eqb format "deg+min" then style_dm
  else if String.eqb format "dms" || String.eqb format "deg+min+sec" then style_dms
  else style_d.

(** The first [switch (format)] of [toDms], taken when [dp === undefined]. *)
Definition defaults (format : string) : string * value :=
  if String.eqb format "d" || String.eqb format "deg" then (format, VNum 4)
  else if String.eqb format "dm" || String.eqb format "deg+min" then (format, VNum 2)
  else if String.eqb format "dms" || String.eqb format "deg+min+sec" then (format, VNum 0)
  else ("d"%string, VNum 4).

(** [if (s < k) s = '0' + s] on a string [s] of digits. *)
Definition pad_below (k : number) (s : string) : string :=
  if StringToNumber s < k then ("0" ++ s)%string else s.

(** [static toDms(deg, format='d', dp=undefined)]; [null] is [None]. *)
Definition toDms (deg : value) (format : option string) (dp : value)
  : result (option string) :=
  let format := match format with Some f => f | None => "d"%string end in
  if isNaN deg then Return None
  else if match deg with VStr s => String.eqb (Str.trim s) "" | _ => false end
  then Return None
  else if match deg with VBool _ => true | _ => false end then Return None
  else if loose_eq deg PInf then Return None
  else if match deg with VNull | VUndefined => true | _ => false end
  then Return None
  else
    let '(format, dp) :=
      match dp with
      | VUndefined => defaults format
      | _ => (format, dp)
      end in
    let deg := Math.abs (ToNumber deg) in
    match style_of format with
    | style_d =>
        bind (toFixed deg dp) (fun d =>
        let d := pad_below 100 d in
        let d := pad_below 10 d in
        Return (Some (d ++ "°")%string))
    | style_dm =>
        let d := Math.floor deg in
        bind (toFixed ((deg * 60) %% 60) dp) (fun m =>
        bind (if StringToNumber m == 60
              then bind (toFixed 0 dp) (fun z => Return (z, d + 1))
              else Return (m, d)) (fun '(m, d) =>
        let d := Str.slice (-3) ("000" ++ Number_toString d) in
        let m := pad_below 10 m in
        Return (Some (d ++ "°" ++ separator ++ m ++ "′")%string)))
    | style_dms =>
        let d := Math.floor deg in
        let m := Math.floor ((deg * 3600) / 60) %% 60 in
        bind (toFixed (deg * 3600 %% 60) dp) (fun s =>
        bind (if StringToNumber s == 60
              then bind (toFixed 0 dp) (fun z => Return (z, m + 1))
              else Return (s, m)) (fun '(s, m) =>
        let '(m, d) := if m == 60 then (0, d + 1) else (m, d) in
        let d := Str.slice (-3) ("000" ++ Number_toString d) in
        let m := Str.slice (-2) ("00" ++ Number_toString m) in
        let s := pad_below 10 s in
        Return (Some (d ++ "°" ++ separator ++ m ++ "′" ++ separator ++ s ++ "″")%string)))
    end.

(** The format and the decimals of [toDms] once the defaults are filled
    in. *)
Definition filled (format : string) (dp : value) : string * value :=
  match dp with
  | VUndefined => defaults format
  | _ => (format, dp)
  end.

(** [toDms] past its guards, on the number [deg] that the input denotes. *)
Definition format_number (deg : number) (fd : string * value)
  : result (option string) :=
  let '(format, dp) := fd in
  let deg := Math.abs deg in
  match style_of format with
  | style_d =>
      bind (toFixed deg dp) (fun d =>
      let d := pad_below 100 d in
      let d := pad_below 10 d in
      Return (Some (d ++ "°")%string))
  | style_dm =>
      let d := Math.floor deg in
      bind (toFixed ((deg * 60) %% 60) dp) (fun m =>
      bind (if StringToNumber m == 60
            then bind (toFixed 0 dp) (fun z => Return (z, d + 1))
            else Return (m, d)) (fun '(m, d) =>
      let d := Str.slice (-3) ("000" ++ Number_toString d) in
      let m := pad_below 10 m in
      Return (Some (d ++ "°" ++ separator ++ m ++ "′")%string)))
  | style_dms =>
      let d := Math.floor deg in
      let m := Math.floor ((deg * 3600) / 60) %% 60 in
      bind (toFixed (deg * 3600 %% 60) dp) (fun s =>
      bind (if StringToNumber s == 60
            then bind (toFixed 0 dp) (fun z => Return (z, m + 1))
            else Return (s, m)) (fun '(s, m) =>
      let '(m, d) := if m == 60 then (0, d + 1) else (m, d) in
      let d := Str.slice (-3) ("000" ++ Number_toString d) in
      let m := Str.slice (-2) ("00" ++ Number_toString m) in
      let s := pad_below 10 s in
      Return (Some (d ++ "°" ++ separator ++ m ++ "′" ++ separator ++ s ++ "″")%string)))
  end.

(** [static toLat(deg, format, dp)] *)
Definition toLat (deg : number) (format : option string) (dp : value)
  : result string :=
  bind (toDms (VNum (wrap90 deg)) format dp) (fun lat =>
  Return match lat with
         | None => "–"%string
         | Some lat =>
             (Str.slice 1 lat ++ separator ++ (if deg < 0 then "S" else "N"))%string
         end).

(** [static toLon(deg, format, dp)] *)
Definition toLon (deg : number) (format : option string) (dp : value)
  : result string :=
  bind (toDms (VNum (wrap180 deg)) format dp) (fun lon =>
  Return match lon with
         | None => "–"%string
         | Some lon =>
             (lon ++ separator ++ (if deg < 0 then "W" else "E"))%string
         end).

(** [static toBrng(deg, format, dp)] *)
Definition toBrng (deg : number) (format : option string) (dp : value)
  : result string :=
  bind (toDms (VNum (wrap360 deg)) format dp) (fun brng =>
  Return match brng with
         | None => "–"%string
         | Some brng => Str.replace "360" "0" brng
         end).

End Formatting.

(** The default of [Dms.separator]: U+202F, narrow no-break space. *)
Definition dmsSeparator : string := Str.of_codes [226; 128; 175]%nat.

(** The inputs for which [toDms] gives up before formatting. *)
Inductive sentinel_input : value -> Prop :=
| sentinel_NaN v : isNaN v = true -> sentinel_input v
| sentinel_blank s : Str.trim s = EmptyString -> sentinel_input (VStr s)
| sentinel_boolean b : sentinel_input (VBool b)
| sentinel_Infinity : sentinel_input (VNum PInf)
| sentinel_null : sentinel_input VNull.

(** The style names [toDms] knows, aliases included. *)
Definition known_style (format : string) : bool :=
  existsb (String.eqb format)
    ["d"; "deg"; "dm"; "deg+min"; "dms"; "deg+min+sec"]%string.

Definition cardinals : list string :=
  [ "N"; "NNE"; "NE"; "ENE";
    "E"; "ESE"; "SE"; "SSE";
    "S"; "SSW"; "SW"; "WSW";
    "W"; "WNW"; "NW"; "NNW" ]%string.

(** The index [Math.round(bearing*n/360)%n * 16/n] into [cardinals]. *)
Definition compassIndex (bearing n : number) : number :=
  Math.round (bearing * n / 360) %% n * 16 / n.

(** [static compassPoint(bearing, precision=3)]; [undefined] is [None]. *)
Definition compassPoint (bearing : number) (precision : value)
  : result (option string) :=
  let precision := match precision with VUndefined => VNum 3 | _ => precision end in
  if negb (existsb (JS.eqb (Number precision)) [1; 2; 3])
  then Throw RangeError
  else
    let bearing := wrap360 bearing in
    let n := 4 * 2 ** (ToNumber precision - 1) in
    let cardinal := array_get cardinals (compassIndex bearing n) in
    Return cardinal.

(** A separator that [parse] can split on: none of its characters is a
    digit, a point or a comma. *)
Definition separates (sep : string) : bool :=
  Str.all (fun c => negb (is_numeric_char c)) sep.

(** The four compass letters that the formatters append. *)
Definition compass_letter (c : ascii) : bool :=
  (Ascii.eqb c "N" || Ascii.eqb c "S" || Ascii.eqb c "E" || Ascii.eqb c "W")%char.

(** A bearing as the code returns it: NaN, or a number in [0, 360). *)
Definition is_bearing (b : number) : bool :=
  JS.is_nan b || ((0 <= b) && (b < 360)).

(** A longitude as the code returns it: NaN, or a number in [-180, 180]. *)
Definition is_longitude (l : number) : bool :=
  JS.is_nan l || (((-180) <= l) && (l <= 180)).


End Dms.

(* ================================================================== *)
(** * The wrap functions in binary64 *)
(* ================================================================== *)

(** The three wrap functions on the doubles of the kernel, whose
    operations are those of IEEE 754 binary64, rounding and overflow
    included.  They evaluate the code on the values that the exact
    arithmetic above does not reach. *)
Module Binary64.

Import PrimFloat SpecFloat.
Local Open Scope float_scope.

(** [x % y]: the remainder of the division truncated towards zero, which
    is a double, with the sign of [x]. *)
Definition rem (x y : float) : float :=
  match FloatOps.Prim2SF x, FloatOps.Prim2SF y with
  | S754_finite sx mx ex, S754_finite _ my ey =>
      let e := Z.min ex ey in
      let a := (Zpos mx * 2 ^ (ex - e))%Z in
      let b := (Zpos my * 2 ^ (ey - e))%Z in
      match (a mod b)%Z with
      | Zpos m => FloatOps.SF2Prim (S754_finite sx m e)
      | _ => FloatOps.SF2Prim (S754_zero sx)
      end
  | S754_zero _, S754_finite _ _ _ => x
  | S754_zero _, S754_infinity _ => x
  | S754_finite _ _ _, S754_infinity _ => x
  | _, _ => nan
  end.

(** [static wrap90(degrees)] *)
Definition wrap90 (degrees : float) : float :=
  if (- (90) <=? degrees) && (degrees <=? 90) then degrees
  else
    let x := degrees in let a := 90 in let p := 360 in
    4 * a / p * abs (rem (rem (x - p / 4) p + p) p - p / 2) - a.

(** [static wrap180(degrees)] *)
Definition wrap180 (degrees : float) : float :=
  if (- (180) <=? degrees) && (degrees <=? 180) then degrees
  else
    let x := degrees in let a := 180 in let p := 360 in
    rem (rem (2 * a * x / p - p / 2) p + p) p - a.

(** [static wrap360(degrees)] *)
Definition wrap360 (degrees : float) : float :=
  if (0 <=? degrees) && (degrees <? 360) then degrees
  else
    let x := degrees in let a := 180 in let p := 360 in
    rem (rem (2 * a * x / p) p + p) p.

(** The double that the literal [1e308] denotes. *)
Definition huge : float := 0x1.1ccf385ebc8ap+1023.

(** The number of the embedding that a double is. *)
Definition to_number (x : float) : JS.number :=
  match FloatOps.Prim2SF x with
  | S754_nan => JS.NaN
  | S754_infinity false => JS.PInf
  | S754_infinity true => JS.NInf
  | S754_zero _ => JS.Fin 0
  | S754_finite s m e =>
      JS.Fin (Qred ((if s then - inject_Z (Zpos m) else inject_Z (Zpos m))
                    * Qpower 2 e))
  end.

End Binary64.

(* ================================================================== *)
(** * class LatLonSpherical *)
(* ================================================================== *)

Module LatLonSpherical.

Local Open Scope js_scope.

Record t : Type := mk { _lat : number; _lon : number }.

(** [Number.prototype.toRadians] and [Number.prototype.toDegrees] *)
Definition toRadians (this : number) : number := this * PI / 180.
Definition toDegrees (this : number) : number := this * 180 / PI.

(** Modelled from the spec: the constant [π], which the geodesy code reads
    but [src/] never declares; the spec's [|S|−2π] makes it the number pi,
    that is [Math.PI]. *)
Definition π : number := PI.

(** [constructor(lat, lon)] *)
Definition new (lat lon : value) : result t :=
  if isNaN lat then Throw TypeError
  else if isNaN lon then Throw TypeError
  else Return {| _lat := Dms.wrap90 (Number lat);
                 _lon := Dms.wrap180 (Number lon) |}.

(** [set lat(lat)] (and its alias [set latitude]): the point after the
    call and the outcome.  The field is assigned before the check. *)
Definition set_lat (this : t) (lat : value) : t * result unit :=
  match (if isNaN lat
         then bind (Dms.parse lat) (fun d => Return (Dms.wrap90 d))
         else Return (Dms.wrap90 (Number lat))) with
  | Throw e => (this, Throw e)
  | Return v =>
      let this := {| _lat := v; _lon := _lon this |} in
      (this, if is_nan (_lat this) then Throw TypeError else Return tt)
  end.

(** [set lon(lon)] (and its aliases [set lng], [set longitude]). *)
Definition set_lon (this : t) (lon : value) : t * result unit :=
  match (if isNaN lon
         then bind (Dms.parse lon) (fun d => Return (Dms.wrap180 d))
         else Return (Dms.wrap180 (Number lon))) with
  | Throw e => (this, Throw e)
  | Return v =>
      let this := {| _lat := _lat this; _lon := v |} in
      (this, if is_nan (_lon this) then Throw TypeError else Return tt)
  end.

(** The invariant of a point: a latitude in [-90, 90] and a longitude in
    [-180, 180], neither of them NaN. *)
Definition valid (p : t) : bool :=
  (-90 <= _lat p) && (_lat p <= 90) && (-180 <= _lon p) && (_lon p <= 180).

(** A computation of a point gives a point that satisfies the invariant,
    or throws a TypeError. *)
Definition valid_or_TypeError (r : result t) : Prop :=
  (forall p, r = Return p -> valid p = true) /\ only_TypeError r.




(** [equals(point)] on a point that is an instance of the class. *)
Definition equals (this point : t) : bool :=
  if Math.abs (_lat this - _lat point) > EPSILON then false
  else if Math.abs (_lon this - _lon point) > EPSILON then false
  else true.

(** An argument [point] read from an array: [undefined] is [None].  What is
    not an instance goes through [LatLonSpherical.parse], which throws a
    TypeError on [undefined]. *)
Definition instance (point : option t) : result t :=
  match point with
  | Some p => Return p
  | None => Throw TypeError
  end.

(** An object literal given as a point: the properties [parse] reads, an
    absent one being [undefined]; [coordinates] is [Some] when it is an
    array. *)
Record object : Type := {
  prop_type : value;
  prop_coordinates : option (list value);
  prop_latitude : value;
  prop_lat : value;
  prop_longitude : value;
  prop_lng : value;
  prop_lon : value
}.

(** The arguments of [parse]: primitive values, or one object literal. *)
Inductive arguments : Type :=
| Args (args : list value)
| Literal (ll : object).

(** [v != undefined] *)
Definition is_given (v : value) : bool :=
  match v with
  | VUndefined | VNull => false
  | _ => true
  end.

(** [lat = Dms.wrap90(Dms.parse(lat)); lon = Dms.wrap180(Dms.parse(lon))] *)
Definition parse_pair (lat lon : value) : result (value * value) :=
  bind (Dms.parse lat) (fun a =>
  bind (Dms.parse lon) (fun b =>
  Return (VNum (Dms.wrap90 a), VNum (Dms.wrap180 b)))).

(** [if (isNaN(lat) || isNaN(lon)) throw new TypeError(...)] *)
Definition check_pair (ll : value * value) : result (value * value) :=
  if isNaN (fst ll) || isNaN (snd ll) then Throw TypeError else Return ll.

(** [ll.type == 'Point' && Array.isArray(ll.coordinates)] *)
Definition is_GeoJSON (ll : object) : bool :=
  match prop_type ll with
  | VStr type => String.eqb type "Point"
  | _ => false
  end
  && match prop_coordinates ll with Some _ => true | None => false end.

(** No character of the text is a comma: [split(',')] leaves it whole. *)
Definition no_comma (s : string) : bool :=
  Str.all (fun c => negb (Ascii.eqb c ",")) s.

(** [static parse(...args)] *)
Definition parse (args : arguments) : result t :=
  match args with
  | Args [] => Throw TypeError (* invalid (empty) point *)
  | Args (a0 :: rest) =>
      if match a0 with VNull => true | _ => false end
         || match rest with VNull :: _ => true | _ => false end
      then Throw TypeError (* invalid (null) point *)
      else
        bind
          match rest with
          | [a1] => (* regular (lat, lon) arguments *)
              bind (parse_pair a0 a1) check_pair
          | [] =>
              match a0 with
              | VStr text => (* single comma-separated lat,lon string *)
                  let pieces := Str.split_on "," text EmptyString in
                  let piece i :=
                    match nth_error pieces i with
                    | Some s => VStr s
                    | None => VUndefined
                    end in
                  bind (parse_pair (piece 0%nat) (piece 1%nat)) check_pair
              | _ => Return (VUndefined, VUndefined)
              end
          | _ => Return (VUndefined, VUndefined)
          end
          (fun ll => bind (check_pair ll) (fun '(lat, lon) => new lat lon))
  | Literal ll => (* single { lat, lon } object *)
      bind
        (if is_GeoJSON ll
         then (* GeoJSON *)
           let coordinates :=
             match prop_coordinates ll with Some c => c | None => [] end in
           let lon := nth 0 coordinates VUndefined in
           let lat := nth 1 coordinates VUndefined in
           check_pair (lat, lon)
         else (* regular { lat, lon } object *)
           let lat := VUndefined in
           let lon := VUndefined in
           let lat := if is_given (prop_latitude ll) then prop_latitude ll else lat in
           let lat := if is_given (prop_lat ll) then prop_lat ll else lat in
           let lon := if is_given (prop_longitude ll) then prop_longitude ll else lon in
           let lon := if is_given (prop_lng ll) then prop_lng ll else lon in
           let lon := if is_given (prop_lon ll) then prop_lon ll else lon in
           bind (parse_pair lat lon) check_pair)
        (fun ll => bind (check_pair ll) (fun '(lat, lon) => new lat lon))
  end.

(** A GeoJSON point whose latitude is [Infinity]. *)
Definition infinite_GeoJSON : object :=
  {| prop_type := VStr "Point";
     prop_coordinates := Some [VNum 0; VNum PInf];
     prop_latitude := VUndefined; prop_lat := VUndefined;
     prop_longitude := VUndefined; prop_lng := VUndefined;
     prop_lon := VUndefined |}.

(** A point argument of a method: an instance of the class, or a literal
    form that goes through [parse]. *)
Inductive pointlike : Type :=
| IsInstance (p : t)
| IsValue (v : value)
| IsLiteral (ll : object).

(** [if (!(point instanceof LatLonSpherical)) point = LatLonSpherical.parse(point)] *)
Definition to_instance (point : pointlike) : result t :=
  match point with
  | IsInstance p => Return p
  | IsValue v => parse (Args [v])
  | IsLiteral ll => parse (Literal ll)
  end.

(** [toGeoJSON()] *)
Definition toGeoJSON (this : t) : object :=
  {| prop_type := VStr "Point";
     prop_coordinates := Some [VNum (_lon this); VNum (_lat this)];
     prop_latitude := VUndefined; prop_lat := VUndefined;
     prop_longitude := VUndefined; prop_lng := VUndefined;
     prop_lon := VUndefined |}.

(** [toString(format='d', dp=undefined)], with the separator of [Dms]. *)
Definition toString (separator : string) (this : t) (format : option string)
  (dp : value) : result string :=
  let format := match format with Some f => f | None => "d"%string end in
  if negb (existsb (String.eqb format) ["d"; "dm"; "dms"; "n"]%string)
  then Throw RangeError
  else if String.eqb format "n" then (* signed numeric degrees *)
    let dp := if is_given dp then dp else VNum 4 in
    bind (toFixed (_lat this) dp) (fun lat =>
    bind (toFixed (_lon this) dp) (fun lon =>
    Return (lat ++ "," ++ lon)%string))
  else
    bind (Dms.toLat separator (_lat this) (Some format) dp) (fun lat =>
    bind (Dms.toLon separator (_lon this) (Some format) dp) (fun lon =>
    Return (lat ++ ", " ++ lon)%string)).

(** The styles [toString] accepts. *)
Definition toString_style (format : option string) : bool :=
  existsb (String.eqb (match format with Some f => f | None => "d"%string end))
    ["d"; "dm"; "dms"; "n"]%string.

(** [for (let v=v0; v<v0+count; v++) body] over a state [s]. *)
Fixpoint for_range {S : Type} (v count : nat) (body : nat -> S -> result S)
  (s : S) : result S :=
  match count with
  | O => Return s
  | Datatypes.S count' => bind (body v s) (for_range (Datatypes.S v) count' body)
  end.

Section Geodesy.

Variable M : Math.Lib.

Local Abbreviation sin := (Math.sin M).
Local Abbreviation cos := (Math.cos M).
Local Abbreviation tan := (Math.tan M).
Local Abbreviation asin := (Math.asin M).
Local Abbreviation acos := (Math.acos M).
Local Abbreviation sqrt := (Math.sqrt M).
Local Abbreviation atan2 := (Math.atan2 M).

(** [initialBearingTo(point)] *)
Definition initialBearingTo (this : t) (point : option t) : result number :=
  bind (instance point) (fun point =>
  if equals this point then Return NaN (* coincident points *)
  else
    let φ1 := toRadians (_lat this) in
    let φ2 := toRadians (_lat point) in
    let Δλ := toRadians (_lon point - _lon this) in
    let x := cos φ1 * sin φ2 - sin φ1 * cos φ2 * cos Δλ in
    let y := sin Δλ * cos φ2 in
    let θ := atan2 y x in
    let bearing := toDegrees θ in
    Return (Dms.wrap360 bearing)).

(** [finalBearingTo(point)] *)
Definition finalBearingTo (this : t) (point : option t) : result number :=
  bind (instance point) (fun point =>
  bind (initialBearingTo point (Some this)) (fun b =>
  let bearing := b + 180 in
  Return (Dms.wrap360 bearing))).

(** The angular distance [δ12] of [intersection]. *)
Definition δ12 (p1 p2 : t) : number :=
  let φ1 := toRadians (_lat p1) in let λ1 := toRadians (_lon p1) in
  let φ2 := toRadians (_lat p2) in let λ2 := toRadians (_lon p2) in
  let Δφ := φ2 - φ1 in let Δλ := λ2 - λ1 in
  2 * asin (sqrt (sin (Δφ/2) * sin (Δφ/2)
                  + cos φ1 * cos φ2 * sin (Δλ/2) * sin (Δλ/2))).

(** The angles [α1] (2-1-3) and [α2] (1-2-3) of [intersection]. *)
Definition α12 (p1 : t) (brng1 : value) (p2 : t) (brng2 : value)
  : number * number :=
  let φ1 := toRadians (_lat p1) in let λ1 := toRadians (_lon p1) in
  let φ2 := toRadians (_lat p2) in let λ2 := toRadians (_lon p2) in
  let θ13 := toRadians (Number brng1) in
  let θ23 := toRadians (Number brng2) in
  let δ12 := δ12 p1 p2 in
  (* initial/final bearings between points *)
  let cosθa := (sin φ2 - sin φ1 * cos δ12) / (sin δ12 * cos φ1) in
  let cosθb := (sin φ1 - sin φ2 * cos δ12) / (sin δ12 * cos φ2) in
  let θa := acos (Math.min (Math.max cosθa (-1)) 1) in
  let θb := acos (Math.min (Math.max cosθb (-1)) 1) in
  let θ12 := if sin (λ2 - λ1) > 0 then θa else 2 * π - θa in
  let θ21 := if sin (λ2 - λ1) > 0 then 2 * π - θb else θb in
  let α1 := θ13 - θ12 in
  let α2 := θ21 - θ23 in
  (α1, α2).

(** The latitude and longitude, in degrees, that [intersection] computes
    for the third point. *)
Definition intersection_lat_lon (p1 : t) (brng1 : value) (p2 : t)
  (brng2 : value) : number * number :=
  let φ1 := toRadians (_lat p1) in let λ1 := toRadians (_lon p1) in
  let θ13 := toRadians (Number brng1) in
  let δ12 := δ12 p1 p2 in
  let '(α1, α2) := α12 p1 brng1 p2 brng2 in
  let cosα3 := - cos α1 * cos α2 + sin α1 * sin α2 * cos δ12 in
  let δ13 := atan2 (sin δ12 * sin α1 * sin α2) (cos α2 + cos α1 * cosα3) in
  let φ3 := asin (Math.min (Math.max
               (sin φ1 * cos δ13 + cos φ1 * sin δ13 * cos θ13) (-1)) 1) in
  let Δλ13 := atan2 (sin θ13 * sin δ13 * cos φ1) (cos δ13 - sin φ1 * sin φ3) in
  let λ3 := λ1 + Δλ13 in
  let lat := toDegrees φ3 in
  let lon := toDegrees λ3 in
  (lat, lon).

(** [static intersection(p1, brng1, p2, brng2)] on two points that are
    instances of the class; [null] is [None]. *)
Definition intersection (p1 : t) (brng1 : value) (p2 : t) (brng2 : value)
  : result (option t) :=
  if isNaN brng1 then Throw TypeError
  else if isNaN brng2 then Throw TypeError
  else if Math.abs (δ12 p1 p2) < EPSILON
  then (* coincident points *)
    bind (new (VNum (_lat p1)) (VNum (_lon p1))) (fun p => Return (Some p))
  else
    let '(α1, α2) := α12 p1 brng1 p2 brng2 in
    if (sin α1 == 0) && (sin α2 == 0) then Return None (* infinite intersections *)
    else if sin α1 * sin α2 < 0 then Return None (* ambiguous intersection *)
    else
      let '(lat, lon) := intersection_lat_lon p1 brng1 p2 brng2 in
      bind (new (VNum lat) (VNum lon)) (fun p => Return (Some p)).

(** What [intersection] does on the points [p1], [p2] and bearings
    [brng1], [brng2]: a copy of [p1] for coincident points, [null] in the
    two cases of the sines, and otherwise the point built from the computed
    latitude and longitude, or the TypeError of its construction. *)
Definition intersection_spec (p1 : t) (brng1 : value) (p2 : t) (brng2 : value)
  : Prop :=
  let coincident := Math.abs (δ12 p1 p2) < EPSILON in
  let sinα1 := sin (fst (α12 p1 brng1 p2 brng2)) in
  let sinα2 := sin (snd (α12 p1 brng1 p2 brng2)) in
  let lat := fst (intersection_lat_lon p1 brng1 p2 brng2) in
  let lon := snd (intersection_lat_lon p1 brng1 p2 brng2) in
  let outcome := intersection p1 brng1 p2 brng2 in
  (coincident = true -> outcome = Return (Some p1))
  /\ (coincident = false -> ((sinα1 == 0) && (sinα2 == 0)) = true ->
      outcome = Return None)
  /\ (coincident = false -> (sinα1 * sinα2 < 0) = true -> outcome = Return None)
  /\ (forall p, outcome = Return (Some p) -> valid p = true)
  /\ (forall e, outcome = Throw e ->
      e = TypeError /\ coincident = false
      /\ (JS.is_nan lat || JS.is_nan lon) = true)
  /\ (coincident = false -> JS.is_finite (Number brng1) = false ->
      outcome = Throw TypeError)
  /\ (coincident = false -> ((sinα1 == 0) && (sinα2 == 0)) = false ->
      (sinα1 * sinα2 < 0) = false ->
      outcome = if JS.is_nan lat || JS.is_nan lon then Throw TypeError
                else Return (Some (mk (Dms.wrap90 lat) (Dms.wrap180 lon)))).

(** [polygon[v]] followed by a property read, a TypeError on [undefined]. *)
Definition vertex (polygon : list t) (v : nat) : result t :=
  instance (nth_error polygon v).

(** The spherical excess [E] of the edge from vertex [v] to vertex [v+1],
    added to [S]: the body of the loop of [areaOf]. *)
Definition add_excess (polygon : list t) (v : nat) (S : number) : result number :=
  bind (vertex polygon v) (fun pv =>
  bind (vertex polygon (v + 1)) (fun pv1 =>
  let φ1 := toRadians (_lat pv) in
  let φ2 := toRadians (_lat pv1) in
  let Δλ := toRadians (_lon pv1 - _lon pv) in
  let E := 2 * atan2 (tan (Δλ/2) * (tan (φ1/2) + tan (φ2/2)))
                     (1 + tan (φ1/2) * tan (φ2/2)) in
  Return (S + E))).

(** The course delta [(b - a + 540) % 360 - 180]. *)
Definition course_delta (b a : number) : number := (b - a + 540) %% 360 - 180.

(** [function isPoleEnclosedBy(p)], local to [areaOf]. *)
Definition isPoleEnclosedBy (p : list t) : result bool :=
  bind (vertex p 0) (fun p0 =>
  bind (initialBearingTo p0 (nth_error p 1)) (fun prevBrng =>
  bind (for_range 0 (List.length p - 1)
          (fun v '(ΣΔ, prevBrng) =>
             bind (vertex p v) (fun pv =>
             bind (initialBearingTo pv (nth_error p (v + 1))) (fun initBrng =>
             bind (finalBearingTo pv (nth_error p (v + 1))) (fun finalBrng =>
             let ΣΔ := ΣΔ + course_delta initBrng prevBrng in
             let ΣΔ := ΣΔ + course_delta finalBrng initBrng in
             Return (ΣΔ, finalBrng)))))
          (0, prevBrng)) (fun '(ΣΔ, prevBrng) =>
  bind (initialBearingTo p0 (nth_error p 1)) (fun initBrng =>
  let ΣΔ := ΣΔ + course_delta initBrng prevBrng in
  let enclosed := Math.abs ΣΔ < 90 in (* 0°-ish *)
  Return enclosed)))).

(** [polygon[0].equals(polygon[polygon.length-1])] *)
Definition is_closed (polygon : list t) : result bool :=
  bind (vertex polygon 0) (fun first =>
  bind (vertex polygon (List.length polygon - 1)) (fun last =>
  Return (equals first last))).

(** The area computed on the closed polygon: the excess of each of its
    [polygon.length - 1] edges, corrected when a pole is enclosed. *)
Definition area_closed (polygon : list t) (R : number) : result number :=
  let nVertices := (List.length polygon - 1)%nat in
  bind (for_range 0 nVertices (add_excess polygon) 0) (fun S =>
  bind (isPoleEnclosedBy polygon) (fun enclosed =>
  let S := if enclosed then Math.abs S - 2 * π else S in
  let A := Math.abs (S * R * R) in
  Return A)).

(** [if (!closed) polygon.push(polygon[0])] *)
Definition close_polygon (closed : bool) (polygon : list t) : list t :=
  if negb closed then polygon ++ firstn 1 polygon else polygon.

(** [if (!closed) polygon.pop()] *)
Definition restore_polygon (closed : bool) (polygon : list t) : list t :=
  if negb closed then removelast polygon else polygon.

(** [static areaOf(polygon, radius=6371e3)]: the caller's array after the
    call, and the outcome.  [push] and [pop] act on the caller's array; an
    exception leaves the array as it is at that moment.  No point is
    assigned to, so the array is the list of the values of its points. *)
Definition areaOf (polygon : list t) (radius : option number)
  : list t * result number :=
  let R := match radius with Some r => r | None => 6371000 end in
  (* close polygon so that last point equals first point *)
  match is_closed polygon with
  | Throw e => (polygon, Throw e)
  | Return closed =>
      let polygon := close_polygon closed polygon in
      match area_closed polygon R with
      | Throw e => (polygon, Throw e)
      | Return A =>
          (* restore polygon to pristine condition *)
          let polygon := restore_polygon closed polygon in
          (polygon, Return A)
      end
  end.

(** [midpointTo(point)] *)
Definition midpointTo (this : t) (point : pointlike) : result t :=
  bind (to_instance point) (fun point =>
  let φ1 := toRadians (_lat this) in
  let λ1 := toRadians (_lon this) in
  let φ2 := toRadians (_lat point) in
  let Δλ := toRadians (_lon point - _lon this) in
  (* get cartesian coordinates for the two points *)
  let Ax := cos φ1 in let Ay := 0 in let Az := sin φ1 in
  let Bx := cos φ2 * cos Δλ in let By := cos φ2 * sin Δλ in let Bz := sin φ2 in
  (* vector to midpoint is sum of vectors to two points *)
  let Cx := Ax + Bx in let Cy := Ay + By in let Cz := Az + Bz in
  let φm := atan2 Cz (sqrt (Cx * Cx + Cy * Cy)) in
  let λm := λ1 + atan2 Cy Cx in
  let lat := toDegrees φm in
  let lon := toDegrees λm in
  new (VNum lat) (VNum lon)).

(** [intermediatePointTo(point, fraction)] *)
Definition intermediatePointTo (this : t) (point : pointlike) (fraction : value)
  : result t :=
  bind (to_instance point) (fun point =>
  if equals this point
  then new (VNum (_lat this)) (VNum (_lon this)) (* coincident points *)
  else
    let fraction := ToNumber fraction in
    let φ1 := toRadians (_lat this) in let λ1 := toRadians (_lon this) in
    let φ2 := toRadians (_lat point) in let λ2 := toRadians (_lon point) in
    (* distance between points *)
    let Δφ := φ2 - φ1 in
    let Δλ := λ2 - λ1 in
    let a := sin (Δφ/2) * sin (Δφ/2)
             + cos φ1 * cos φ2 * sin (Δλ/2) * sin (Δλ/2) in
    let δ := 2 * atan2 (sqrt a) (sqrt (1 - a)) in
    let A := sin ((1 - fraction) * δ) / sin δ in
    let B := sin (fraction * δ) / sin δ in
    let x := A * cos φ1 * cos λ1 + B * cos φ2 * cos λ2 in
    let y := A * cos φ1 * sin λ1 + B * cos φ2 * sin λ2 in
    let z := A * sin φ1 + B * sin φ2 in
    let φ3 := atan2 z (sqrt (x * x + y * y)) in
    let λ3 := atan2 y x in
    let lat := toDegrees φ3 in
    let lon := toDegrees λ3 in
    new (VNum lat) (VNum lon)).

(** [destinationPoint(distance, bearing, radius=6371e3)] *)
Definition destinationPoint (this : t) (distance bearing radius : value)
  : result t :=
  let radius := match radius with VUndefined => VNum 6371000 | _ => radius end in
  let δ := ToNumber distance / ToNumber radius in (* angular distance in radians *)
  let θ := toRadians (Number bearing) in
  let φ1 := toRadians (_lat this) in let λ1 := toRadians (_lon this) in
  let sinφ2 := sin φ1 * cos δ + cos φ1 * sin δ * cos θ in
  let φ2 := asin sinφ2 in
  let y := sin θ * sin δ * cos φ1 in
  let x := cos δ - sin φ1 * sinφ2 in
  let λ2 := λ1 + atan2 y x in
  let lat := toDegrees φ2 in
  let lon := toDegrees λ2 in
  new (VNum lat) (VNum lon).

(** [distanceTo(point, radius=6371e3)] *)
Definition distanceTo (this : t) (point : pointlike) (radius : value)
  : result number :=
  let radius := match radius with VUndefined => VNum 6371000 | _ => radius end in
  bind (to_instance point) (fun point =>
  if isNaN radius then Throw TypeError (* invalid radius *)
  else
    let R := ToNumber radius in
    let φ1 := toRadians (_lat this) in let λ1 := toRadians (_lon this) in
    let φ2 := toRadians (_lat point) in let λ2 := toRadians (_lon point) in
    let Δφ := φ2 - φ1 in
    let Δλ := λ2 - λ1 in
    let a := sin (Δφ / 2) * sin (Δφ / 2)
             + cos φ1 * cos φ2 * sin (Δλ / 2) * sin (Δλ / 2) in
    let c := 2 * atan2 (sqrt a) (sqrt (1 - a)) in
    let d := R * c in
    Return d).

(** [crossTrackDistanceTo(pathStart, pathEnd, radius=6371e3)] *)
Definition crossTrackDistanceTo (this : t) (pathStart pathEnd : pointlike)
  (radius : value) : result number :=
  let radius := match radius with VUndefined => VNum 6371000 | _ => radius end in
  bind (to_instance pathStart) (fun pathStart =>
  bind (to_instance pathEnd) (fun pathEnd =>
  let R := radius in
  if equals this pathStart then Return 0
  else
    bind (distanceTo pathStart (IsInstance this) R) (fun d13 =>
    let δ13 := d13 / ToNumber R in
    bind (initialBearingTo pathStart (Some this)) (fun b13 =>
    let θ13 := toRadians b13 in
    bind (initialBearingTo pathStart (Some pathEnd)) (fun b12 =>
    let θ12 := toRadians b12 in
    let δxt := asin (sin δ13 * sin (θ13 - θ12)) in
    Return (δxt * ToNumber R)))))).

(** [alongTrackDistanceTo(pathStart, pathEnd, radius=6371e3)] *)
Definition alongTrackDistanceTo (this : t) (pathStart pathEnd : pointlike)
  (radius : value) : result number :=
  let radius := match radius with VUndefined => VNum 6371000 | _ => radius end in
  bind (to_instance pathStart) (fun pathStart =>
  bind (to_instance pathEnd) (fun pathEnd =>
  let R := radius in
  if equals this pathStart then Return 0
  else
    bind (distanceTo pathStart (IsInstance this) R) (fun d13 =>
    let δ13 := d13 / ToNumber R in
    bind (initialBearingTo pathStart (Some this)) (fun b13 =>
    let θ13 := toRadians b13 in
    bind (initialBearingTo pathStart (Some pathEnd)) (fun b12 =>
    let θ12 := toRadians b12 in
    let δxt := asin (sin δ13 * sin (θ13 - θ12)) in
    let δat := acos (cos δ13 / Math.abs (cos δxt)) in
    Return (δat * Math.sign (cos (θ12 - θ13)) * ToNumber R)))))).

(** [static crossingParallels(point1, point2, latitude)] on two instances
    of the class: [null] is [None], and [{ lon1, lon2 }] a pair. *)
Definition crossingParallels (point1 point2 : t) (latitude : value)
  : option (number * number) :=
  if equals point1 point2 then None (* coincident points *)
  else
    let φ := toRadians (Number latitude) in
    let φ1 := toRadians (_lat point1) in
    let λ1 := toRadians (_lon point1) in
    let φ2 := toRadians (_lat point2) in
    let λ2 := toRadians (_lon point2) in
    let Δλ := λ2 - λ1 in
    let x := sin φ1 * cos φ2 * cos φ * sin Δλ in
    let y := sin φ1 * cos φ2 * cos φ * cos Δλ - cos φ1 * sin φ2 * cos φ in
    let z := cos φ1 * cos φ2 * sin φ * sin Δλ in
    if z * z > x * x + y * y then None (* great circle doesn't reach latitude *)
    else
      let λm := atan2 (- y) x in (* longitude at max latitude *)
      let Δλi := acos (z / sqrt (x * x + y * y)) in
      let λi1 := λ1 + λm - Δλi in
      let λi2 := λ1 + λm + Δλi in
      let lon1 := toDegrees λi1 in
      let lon2 := toDegrees λi2 in
      Some (Dms.wrap180 lon1, Dms.wrap180 lon2).

(** [rhumbBearingTo(point)]; [log] is [Math.log]. *)
Definition rhumbBearingTo (log : number -> number) (this : t)
  (point : pointlike) : result number :=
  bind (to_instance point) (fun point =>
  if equals this point then Return NaN (* coincident points *)
  else
    let φ1 := toRadians (_lat this) in
    let φ2 := toRadians (_lat point) in
    let Δλ := toRadians (_lon point - _lon this) in
    (* if dLon over 180° take shorter rhumb line across the anti-meridian *)
    let Δλ := if Math.abs Δλ > π
              then (if Δλ > 0 then - (2 * π - Δλ) else 2 * π + Δλ)
              else Δλ in
    let Δψ := log (tan (φ2 / 2 + π / 4) / tan (φ1 / 2 + π / 4)) in
    let θ := atan2 Δλ Δψ in
    let bearing := toDegrees θ in
    Return (Dms.wrap360 bearing)).

(** [rhumbDestinationPoint(distance, bearing, radius=6371e3)] *)
Definition rhumbDestinationPoint (log : number -> number) (this : t)
  (distance bearing radius : value) : result t :=
  let radius := match radius with VUndefined => VNum 6371000 | _ => radius end in
  let φ1 := toRadians (_lat this) in let λ1 := toRadians (_lon this) in
  let θ := toRadians (Number bearing) in
  let δ := ToNumber distance / ToNumber radius in (* angular distance in radians *)
  let Δφ := δ * cos θ in
  let φ2 := φ1 + Δφ in
  (* check for going past the pole, normalise latitude if so *)
  let φ2 := if Math.abs φ2 > π / 2
            then (if φ2 > 0 then π - φ2 else - π - φ2)
            else φ2 in
  let Δψ := log (tan (φ2 / 2 + π / 4) / tan (φ1 / 2 + π / 4)) in
  let q := if Math.abs Δψ > JS.dec 10e-12 then Δφ / Δψ else cos φ1 in
  let Δλ := δ * sin θ / q in
  let λ2 := λ1 + Δλ in
  let lat := toDegrees φ2 in
  let lon := toDegrees λ2 in
  new (VNum lat) (VNum lon).

(** [rhumbMidpointTo(point)]; [log] is [Math.log], which the host
    approximates like the functions of [M]. *)
Definition rhumbMidpointTo (log : number -> number) (this : t)
  (point : pointlike) : result t :=
  bind (to_instance point) (fun point =>
  let φ1 := toRadians (_lat this) in let λ1 := toRadians (_lon this) in
  let φ2 := toRadians (_lat point) in let λ2 := toRadians (_lon point) in
  (* crossing anti-meridian *)
  let λ1 := if Math.abs (λ2 - λ1) > π then λ1 + 2 * π else λ1 in
  let φ3 := (φ1 + φ2) / 2 in
  let f1 := tan (π / 4 + φ1 / 2) in
  let f2 := tan (π / 4 + φ2 / 2) in
  let f3 := tan (π / 4 + φ3 / 2) in
  let λ3 := ((λ2 - λ1) * log f3 + λ1 * log f2 - λ2 * log f1) / log (f2 / f1) in
  (* parallel of latitude *)
  let λ3 := if negb (JS.is_finite λ3) then (λ1 + λ2) / 2 else λ3 in
  let lat := toDegrees φ3 in
  let lon := toDegrees λ3 in
  new (VNum lat) (VNum lon)).

(** [function getDestination(disance, trueBearing)], with the globals
    [latStr] and [lonStr] it reads as arguments. *)
Definition getDestination (latStr lonStr : value) (disance trueBearing : value)
  : result t :=
  bind (Dms.parse latStr) (fun lat1 =>
  bind (Dms.parse lonStr) (fun lon1 =>
  let dist := disance in
  bind (Dms.parse trueBearing) (fun brng =>
  (* calculate destination point, final bearing *)
  bind (new (VNum lat1) (VNum lon1)) (fun p1 =>
  bind (destinationPoint p1 dist (VNum brng) VUndefined) (fun p2 =>
  bind (finalBearingTo p1 (Some p2)) (fun brngFinal =>
  Return p2)))))).

End Geodesy.

(** [degTrue = (degMag + MagDec + 360)%360] of [searchCranes]: [degMag] is
    a number, and [MagDec] what [$("#magDec").val()] gave. *)
Definition degTrue (degMag : number) (MagDec : value) : number :=
  ToNumber (plus (plus (VNum degMag) MagDec) (VNum 360)) %% 360.

End LatLonSpherical.

(* ================================================================== *)
(** * A reference implementation of the host's [Math] functions *)
(* ================================================================== *)

(** Fixed-point approximations, 64 binary digits after the point, of the
    functions ECMAScript leaves to the host.  They instantiate [Math.Lib]
    where a statement is evaluated on concrete points. *)
Module RefMath.

Local Open Scope Q_scope.

Definition ulp : Q := 1 # (2 ^ 64).
Definition pi : Q := 884279719003555 # 281474976710656.

(** Round to the nearest multiple of [ulp]. *)
Definition rnd (q : Q) : Q := Qred (inject_Z (Qfloor (q / ulp + (1#2))) * ulp).

(** [1 - x2/(d(d+1)) (1 - x2/((d+2)(d+3)) (1 - ...))], [n] factors deep. *)
Fixpoint alternating (n : nat) (d : Z) (x2 : Q) : Q :=
  match n with
  | O => 1
  | S n' =>
      rnd (1 - x2 / inject_Z (d * (d + 1)) * alternating n' (d + 2) x2)
  end.

(** Bring an angle into [-pi, pi], then into [-pi/2, pi/2] by reflection. *)
Definition reduce (x : Q) : Q :=
  let r := x - 2 * pi * inject_Z (Qfloor (x / (2 * pi) + (1#2))) in
  if Qle_bool (pi / 2) r then pi - r
  else if Qle_bool r (- pi / 2) then - pi - r
  else r.

Definition sinQ (x : Q) : Q :=
  let r := reduce x in rnd (r * alternating 14 2 (r * r)).

Definition cosQ (x : Q) : Q := sinQ (x + pi / 2).

Definition sqrtQ (x : Q) : Q :=
  Qred (inject_Z (Z.sqrt (Qfloor (x / (ulp * ulp)))) * ulp).

(** [x - x^3/3 + x^5/5 - ...], summed from the term of degree [2k+1]. *)
Fixpoint arctan_series (n : nat) (k : Z) (power x2 : Q) : Q :=
  match n with
  | O => 0
  | S n' =>
      rnd (power / inject_Z (2 * k + 1)
           - arctan_series n' (k + 1) (rnd (power * x2)) x2)
  end.

(** [atan(x) = 2 atan(x / (1 + sqrt(1 + x^2)))], three times over. *)
Definition halve (x : Q) : Q := rnd (x / (1 + sqrtQ (1 + x * x))).

Definition atan_small (x : Q) : Q :=
  let y := halve (halve (halve x)) in
  rnd (8 * arctan_series 12 0 y (y * y)).

Definition atanQ (x : Q) : Q :=
  if Qle_bool (Qabs x) 1 then atan_small x
  else if Qle_bool 0 x then pi / 2 - atan_small (/ x)
  else - pi / 2 - atan_small (/ x).

Definition atan2Q (y x : Q) : Q :=
  if Qeq_bool x 0 then
    if Qeq_bool y 0 then 0 else if Qle_bool 0 y then pi / 2 else - pi / 2
  else if Qle_bool 0 x then atanQ (y / x)
  else if Qle_bool 0 y then atanQ (y / x) + pi
  else atanQ (y / x) - pi.

Definition lift (f : Q -> Q) (x : number) : number :=
  match x with
  | Fin q => Fin (Qred (f q))
  | _ => NaN
  end.

Definition sin : number -> number := lift sinQ.
Definition cos : number -> number := lift cosQ.

Definition tan (x : number) : number := JS.div (sin x) (cos x).

Definition sqrt (x : number) : number :=
  match x with
  | Fin q => if Qle_bool 0 q then Fin (sqrtQ q) else NaN
  | PInf => PInf
  | _ => NaN
  end.

Definition atan2 (y x : number) : number :=
  match y, x with
  | Fin a, Fin b => Fin (Qred (atan2Q a b))
  | Fin a, PInf => Fin 0
  | Fin a, NInf => Fin (if Qle_bool 0 a then pi else Qred (- pi))
  | PInf, Fin _ => Fin (Qred (pi / 2))
  | NInf, Fin _ => Fin (Qred (- pi / 2))
  | PInf, PInf => Fin (Qred (pi / 4))
  | PInf, NInf => Fin (Qred (3 * pi / 4))
  | NInf, PInf => Fin (Qred (- pi / 4))
  | NInf, NInf => Fin (Qred (- (3) * pi / 4))
  | _, _ => NaN
  end.

Definition asin (x : number) : number :=
  match x with
  | Fin q =>
      if Qle_bool (Qabs q) 1 then Fin (Qred (atan2Q q (sqrtQ (1 - q * q))))
      else NaN
  | _ => NaN
  end.

Definition acos (x : number) : number :=
  match x with
  | Fin q =>
      if Qle_bool (Qabs q) 1
      then Fin (Qred (pi / 2 - atan2Q q (sqrtQ (1 - q * q))))
      else NaN
  | _ => NaN
  end.

Definition lib : Math.Lib :=
  {| Math.sin := sin; Math.cos := cos; Math.tan := tan;
     Math.asin := asin; Math.acos := acos; Math.sqrt := sqrt;
     Math.atan2 := atan2 |}.

End RefMath.


(* ================================================================== *)
(** * Properties *)
(* ================================================================== *)

Module NumFacts.

Local Open Scope Q_scope.

(** [x] is finite and denotes the rational [q]. *)
Definition Is (x : number) (q : Q) : Prop := exists q', x = Fin q' /\ q' == q.

(** The rational that [Math.PI] denotes. *)
Definition pi : Q := 884279719003555 # 281474976710656.

Lemma Is_Fin q : Is (Fin q) q.
Proof. exists q; split; [reflexivity | apply Qeq_refl]. Qed.

Lemma Is_add x y a b : Is x a -> Is y b -> Is (x + y)%js (a + b).
Proof.
  intros (p & -> & Hp) (q & -> & Hq). eexists; split; [reflexivity|].
  now rewrite Qred_correct, Hp, Hq.
Qed.

Lemma Is_sub x y a b : Is x a -> Is y b -> Is (x - y)%js (a - b).
Proof.
  intros (p & -> & Hp) (q & -> & Hq). eexists; split; [reflexivity|].
  now rewrite Qred_correct, Hp, Hq.
Qed.

Lemma Is_mul x y a b : Is x a -> Is y b -> Is (x * y)%js (a * b).
Proof.
  intros (p & -> & Hp) (q & -> & Hq). eexists; split; [reflexivity|].
  now rewrite Qred_correct, Hp, Hq.
Qed.

Lemma Is_div x y a b : Is x a -> Is y b -> ~ b == 0 -> Is (x / y)%js (a / b).
Proof.
  intros (p & -> & Hp) (q & -> & Hq) Hb. unfold JS.div.
  destruct (Qeq_bool q 0) eqn:E.
  - apply Qeq_bool_eq in E. rewrite Hq in E. contradiction.
  - eexists; split; [reflexivity|]. now rewrite Qred_correct, Hp, Hq.
Qed.

Lemma Is_abs x a : Is x a -> Is (Math.abs x) (Qabs a).
Proof.
  intros (p & -> & Hp). eexists; split; [reflexivity|].
  now rewrite Qred_correct, Hp.
Qed.

Lemma Is_le x y a b : Is x a -> Is y b -> (x <= y)%js = Qle_bool a b.
Proof. intros (p & -> & Hp) (q & -> & Hq). simpl. now rewrite Hp, Hq. Qed.

Lemma Is_lt x y a b : Is x a -> Is y b -> (x < y)%js = negb (Qle_bool b a).
Proof. intros (p & -> & Hp) (q & -> & Hq). simpl. now rewrite Hp, Hq. Qed.

Lemma Qle_bool_false a b : Qle_bool a b = false <-> b < a.
Proof.
  split; intros H.
  - apply Qnot_le_lt. intros L. apply Qle_bool_iff in L. congruence.
  - destruct (Qle_bool a b) eqn:E; [|reflexivity].
    apply Qle_bool_iff in E. exfalso. apply (Qlt_not_le _ _ H E).
Qed.

(** Truncation is within one of its argument, on the side of zero. *)
Lemma Qtrunc_nonneg q : 0 <= q ->
  inject_Z (Qtrunc q) <= q /\ q < inject_Z (Qtrunc q) + 1.
Proof.
  destruct q as [n d]. unfold Qtrunc, Qle, Qlt, Qplus, inject_Z; simpl.
  intros Hn. rewrite Z.mul_1_r in Hn.
  pose proof (Z.quot_rem' n (Zpos d)) as E.
  pose proof (Z.rem_bound_pos n (Zpos d) Hn (Pos2Z.is_pos d)) as B.
  nia.
Qed.

Lemma Qtrunc_nonpos q : q <= 0 ->
  q <= inject_Z (Qtrunc q) /\ inject_Z (Qtrunc q) - 1 < q.
Proof.
  destruct q as [n d]. unfold Qtrunc, Qle, Qlt, Qminus, Qplus, Qopp, inject_Z; simpl.
  intros Hn. rewrite Z.mul_1_r in Hn.
  pose proof (Z.quot_rem' n (Zpos d)) as E.
  pose proof (Z.rem_bound_pos_neg n (Zpos d) (Pos2Z.is_pos d) Hn) as B.
  nia.
Qed.

(** The remainder by a positive divisor lies strictly within the divisor
    and has the sign of the dividend. *)
Lemma Qrem_nonneg a b : 0 < b -> 0 <= a -> 0 <= Qrem a b /\ Qrem a b < b.
Proof.
  intros Hb Ha. unfold Qrem.
  assert (Hq : 0 <= a / b) by (apply Qle_shift_div_l; [assumption | lra]).
  destruct (Qtrunc_nonneg Hq) as [L U].
  set (t := inject_Z (Qtrunc (a / b))) in *.
  assert (Ea : a == (a / b) * b) by (field; lra).
  split.
  - assert (b * t <= (a / b) * b) by nra. lra.
  - assert ((a / b) * b < b * (t + 1)) by nra. lra.
Qed.

Lemma Qrem_nonpos a b : 0 < b -> a <= 0 -> - b < Qrem a b /\ Qrem a b <= 0.
Proof.
  intros Hb Ha. unfold Qrem.
  assert (Hq : a / b <= 0).
  { apply Qle_shift_div_r; [assumption | lra]. }
  destruct (Qtrunc_nonpos Hq) as [L U].
  set (t := inject_Z (Qtrunc (a / b))) in *.
  assert (Ea : a == (a / b) * b) by (field; lra).
  split.
  - assert (b * (t - 1) < (a / b) * b) by nra. lra.
  - assert ((a / b) * b <= b * t) by nra. lra.
Qed.

Lemma Qrem_bound a b : 0 < b -> - b < Qrem a b /\ Qrem a b < b.
Proof.
  intros Hb. destruct (Qlt_le_dec a 0) as [H|H].
  - destruct (@Qrem_nonpos a b Hb) as [L U]; [lra|]. split; lra.
  - destruct (@Qrem_nonneg a b Hb H) as [L U]. split; lra.
Qed.

Lemma rem_Fin a b : ~ b == 0 -> (Fin a %% Fin b)%js = Fin (Qred (Qrem a b)).
Proof.
  intros Hb. unfold JS.rem. destruct (Qeq_bool b 0) eqn:E; [|reflexivity].
  apply Qeq_bool_eq in E. contradiction.
Qed.

(** The true modulo [((x % p) + p) % p] of the wrap functions. *)
Lemma modulo_range x p b : Is p b -> 0 < b -> JS.is_finite x = true ->
  exists r, Is (((x %% p) + p) %% p)%js r /\ 0 <= r /\ r < b.
Proof.
  intros (p' & -> & Hp) Hb Hx. destruct x as [| | |a]; try discriminate.
  assert (Hp' : 0 < p') by (rewrite Hp; exact Hb).
  assert (Hn : ~ p' == 0) by lra.
  rewrite (rem_Fin a Hn). simpl JS.add. rewrite rem_Fin by exact Hn.
  destruct (Qrem_bound a Hp') as [L U].
  assert (H0 : 0 <= Qred (Qred (Qrem a p') + p')).
  { rewrite !Qred_correct. lra. }
  destruct (Qrem_nonneg Hp' H0) as [L2 U2].
  exists (Qrem (Qred (Qred (Qrem a p') + p')) p'). split.
  - eexists; split; [reflexivity | apply Qred_correct].
  - split; lra.
Qed.

End NumFacts.

Module WrapFacts.

Import NumFacts.
Local Open Scope Q_scope.

Ltac is_arith :=
  repeat first
    [ eassumption
    | apply Is_Fin
    | eapply Is_add
    | eapply Is_sub
    | eapply Is_mul
    | apply Is_abs
    | eapply Is_div ].

(** Inside its identity range a wrap function returns its argument. *)
Lemma wrap90_id x r : Is x r -> -90 <= r -> r <= 90 -> Dms.wrap90 x = x.
Proof.
  intros H L U. unfold Dms.wrap90.
  rewrite (Is_le (Is_Fin (-90)) H), (Is_le H (Is_Fin 90)).
  apply Qle_bool_iff in L, U. now rewrite L, U.
Qed.

Lemma wrap180_id x r : Is x r -> -180 <= r -> r <= 180 -> Dms.wrap180 x = x.
Proof.
  intros H L U. unfold Dms.wrap180.
  rewrite (Is_le (Is_Fin (-180)) H), (Is_le H (Is_Fin 180)).
  apply Qle_bool_iff in L, U. now rewrite L, U.
Qed.

Lemma wrap360_id x r : Is x r -> 0 <= r -> r < 360 -> Dms.wrap360 x = x.
Proof.
  intros H L U. unfold Dms.wrap360.
  rewrite (Is_le (Is_Fin 0) H), (Is_lt H (Is_Fin 360)).
  apply Qle_bool_iff in L. apply Qle_bool_false in U. now rewrite L, U.
Qed.

(** Every finite value is wrapped into the identity range. *)
Lemma wrap90_range x : JS.is_finite x = true ->
  exists r, Is (Dms.wrap90 x) r /\ -90 <= r /\ r <= 90.
Proof.
  intros Hx. destruct x as [| | |q]; try discriminate. unfold Dms.wrap90.
  destruct (_ && _) eqn:G.
  - exists q. split; [apply Is_Fin|].
    apply andb_true_iff in G as [G1 G2]. simpl in G1, G2.
    apply Qle_bool_iff in G1, G2. lra.
  - cbv zeta.
    destruct (@modulo_range (Fin q - 360 / 4)%js 360%js 360)
      as (r & Hr & L & U); [apply Is_Fin | lra | reflexivity |].
    exists (4 * 90 / 360 * Qabs (r - 360 / 2) - 90). split.
    + is_arith; lra.
    + assert (E1 : 360 / 2 == 180) by reflexivity.
      assert (E2 : 4 * 90 / 360 == 1) by reflexivity.
      rewrite E1, E2.
      assert (B : Qabs (r - 180) <= 180).
      { apply Qabs_Qle_condition. split; lra. }
      pose proof (Qabs_nonneg (r - 180)) as N.
      split; lra.
Qed.

Lemma wrap180_range x : JS.is_finite x = true ->
  exists r, Is (Dms.wrap180 x) r /\ -180 <= r /\ r <= 180.
Proof.
  intros Hx. destruct x as [| | |q]; try discriminate. unfold Dms.wrap180.
  destruct (_ && _) eqn:G.
  - exists q. split; [apply Is_Fin|].
    apply andb_true_iff in G as [G1 G2]. simpl in G1, G2.
    apply Qle_bool_iff in G1, G2. lra.
  - cbv zeta.
    destruct (@modulo_range (2 * 180 * Fin q / 360 - 360 / 2)%js 360%js 360)
      as (r & Hr & L & U); [apply Is_Fin | lra | reflexivity |].
    exists (r - 180). split.
    + is_arith.
    + lra.
Qed.

Lemma wrap360_range x : JS.is_finite x = true ->
  exists r, Is (Dms.wrap360 x) r /\ 0 <= r /\ r < 360.
Proof.
  intros Hx. destruct x as [| | |q]; try discriminate. unfold Dms.wrap360.
  destruct (_ && _) eqn:G.
  - exists q. split; [apply Is_Fin|].
    apply andb_true_iff in G as [G1 G2]. simpl in G1, G2.
    apply Qle_bool_iff in G1. apply negb_true_iff, Qle_bool_false in G2. lra.
  - cbv zeta.
    destruct (@modulo_range (2 * 180 * Fin q / 360)%js 360%js 360)
      as (r & Hr & L & U); [apply Is_Fin | lra | reflexivity |].
    exists r. split; [exact Hr | lra].
Qed.

End WrapFacts.

Import NumFacts WrapFacts.
Local Open Scope Q_scope.

(** ** The examples of the source's documentation *)

Section DocumentedExamples.

Local Open Scope string_scope.

(** [Dms.parse('51° 28′ 40.37″ N')] is 51.4779 to four decimals, and
    '3 37 12W' is -3.62. *)
Example parse_examples :
  bind (Dms.parse (VStr "51° 28′ 40.37″ N")) (fun d => toFixed d (VNum 4))
  = Return "51.4779"
  /\ Dms.parse (VStr "3 37 12W") = Return (JS.dec (-3.62)).
Proof. split; vm_compute; reflexivity. Qed.

(** [Dms.toBrng(-3.62, 'dms')] is 356°22′48″ with the empty separator. *)
Example toBrng_example :
  Dms.toBrng "" (JS.dec (-3.62)) (Some "dms") VUndefined = Return "356°22′48″".
Proof. vm_compute. reflexivity. Qed.

(** [Dms.compassPoint(24)] is 'NNE' and [Dms.compassPoint(24, 1)] is 'N'. *)
Example compassPoint_examples :
  Dms.compassPoint 24 VUndefined = Return (Some "NNE")
  /\ Dms.compassPoint 24 (VNum 1) = Return (Some "N").
Proof. split; vm_compute; reflexivity. Qed.

(** With the reference [Math]: the initial bearing from (52.205, 0.119) to
    (48.857, 2.351) is 156.2; the paths from (51.8853, 0.2545) on 108.547
    and from (49.0034, 2.5735) on 32.435 meet at (50.9078, 4.5084); the
    triangle (0,0), (1,0), (0,1) has an area of 6.18e9. *)
Example geodesy_examples :
  let p a b := LatLonSpherical.mk (JS.dec a) (JS.dec b) in
  bind (LatLonSpherical.initialBearingTo RefMath.lib
          (p 52.205 0.119) (Some (p 48.857 2.351)))
       (fun b => toFixed b (VNum 1))
  = Return "156.2"
  /\ bind (LatLonSpherical.intersection RefMath.lib
             (p 51.8853 0.2545) (VNum (JS.dec 108.547))
             (p 49.0034 2.5735) (VNum (JS.dec 32.435)))
          (fun r =>
             match r with
             | Some q =>
                 bind (toFixed (LatLonSpherical._lat q) (VNum 4)) (fun lat =>
                 bind (toFixed (LatLonSpherical._lon q) (VNum 4)) (fun lon =>
                 Return (lat, lon)))
             | None => Return ("null", "null")
             end)
     = Return ("50.9078", "4.5084")
  /\ bind (snd (LatLonSpherical.areaOf RefMath.lib [p 0 0; p 1 0; p 0 1] None))
          (fun A => toFixed (A / 10000000)%js (VNum 0))
     = Return "618".
Proof. repeat split; vm_compute; reflexivity. Qed.

End DocumentedExamples.

(** ** The wrap functions *)

(** C4.  The wrap functions take the boundary values of the specification:
    [wrap90] sends 91 to 89, -91 to -89 and 270 to -90; [wrap180] sends 181
    to -179 and -181 to 179; [wrap360] sends -1 to 359 and 361 to 1. *)
Theorem wrap_boundaries :
  Dms.wrap90 91 = 89%js /\ Dms.wrap90 (-91) = (-89)%js /\
  Dms.wrap90 270 = (-90)%js /\
  Dms.wrap180 181 = (-179)%js /\ Dms.wrap180 (-181) = 179%js /\
  Dms.wrap360 (-1) = 359%js /\ Dms.wrap360 361 = 1%js.
Proof. repeat split; vm_compute; reflexivity. Qed.

Lemma wrap90_in_range x : JS.is_finite x = true ->
  (-90 <= Dms.wrap90 x)%js && (Dms.wrap90 x <= 90)%js = true.
Proof.
  intros Hx. destruct (wrap90_range x Hx) as (a & Ha & La & Ua).
  rewrite (Is_le (Is_Fin (-90)) Ha), (Is_le Ha (Is_Fin 90)).
  apply Qle_bool_iff in La, Ua. now rewrite La, Ua.
Qed.

Lemma wrap180_in_range x : JS.is_finite x = true ->
  (-180 <= Dms.wrap180 x)%js && (Dms.wrap180 x <= 180)%js = true.
Proof.
  intros Hx. destruct (wrap180_range x Hx) as (a & Ha & La & Ua).
  rewrite (Is_le (Is_Fin (-180)) Ha), (Is_le Ha (Is_Fin 180)).
  apply Qle_bool_iff in La, Ua. now rewrite La, Ua.
Qed.

Lemma wrap360_in_range x : JS.is_finite x = true ->
  (0 <= Dms.wrap360 x)%js && (Dms.wrap360 x < 360)%js = true.
Proof.
  intros Hx. destruct (wrap360_range x Hx) as (a & Ha & La & Ua).
  rewrite (Is_le (Is_Fin 0) Ha), (Is_lt Ha (Is_Fin 360)).
  apply Qle_bool_iff in La. apply Qle_bool_false in Ua. now rewrite La, Ua.
Qed.

(** In the exact arithmetic of the embedding each wrap function is
    idempotent on a finite value, its result lying in the range on which
    the function is the identity; for [wrap180] and [wrap360] this is what
    the code does on the values whose product with 360 is a double. *)
Lemma wrap_idempotent_without_overflow (q : Q) :
  Dms.no_overflow (Fin q) = true ->
  let x := Fin q in
  (Dms.wrap90 (Dms.wrap90 x) = Dms.wrap90 x
   /\ Dms.wrap180 (Dms.wrap180 x) = Dms.wrap180 x
   /\ Dms.wrap360 (Dms.wrap360 x) = Dms.wrap360 x)
  /\ ((-90 <= Dms.wrap90 x)%js && (Dms.wrap90 x <= 90)%js = true
      /\ (-180 <= Dms.wrap180 x)%js && (Dms.wrap180 x <= 180)%js = true
      /\ (0 <= Dms.wrap360 x)%js && (Dms.wrap360 x < 360)%js = true).
Proof.
  intros _ x.
  destruct (@wrap90_range x eq_refl) as (a & Ha & La & Ua).
  destruct (@wrap180_range x eq_refl) as (b & Hb & Lb & Ub).
  destruct (@wrap360_range x eq_refl) as (c & Hc & Lc & Uc).
  split; [split; [|split] | split; [|split]].
  - exact (wrap90_id Ha La Ua).
  - exact (wrap180_id Hb Lb Ub).
  - exact (wrap360_id Hc Lc Uc).
  - exact (wrap90_in_range x eq_refl).
  - exact (wrap180_in_range x eq_refl).
  - exact (wrap360_in_range x eq_refl).
Qed.

Section Overflow.

Import PrimFloat.
Local Open Scope float_scope.

(** C5 does not hold of the code.  In binary64 the product [2*a*x] of
    [wrap180] and [wrap360] is an infinity for [x = 1e308], whose remainder
    is NaN: both functions return NaN, which lies in no range and is not
    equal to itself, so wrapping again does not give an equal value.
    [wrap90], which subtracts where they multiply, returns a latitude for
    the same value, and returns it again when it is wrapped again. *)
Theorem wrap180_wrap360_overflow :
  let x := Binary64.huge in
  PrimFloat.is_nan (Binary64.wrap180 x) = true
  /\ PrimFloat.is_nan (Binary64.wrap360 x) = true
  /\ (Binary64.wrap180 x <=? 180) = false
  /\ (Binary64.wrap360 x <? 360) = false
  /\ (Binary64.wrap180 (Binary64.wrap180 x) =? Binary64.wrap180 x) = false
  /\ (Binary64.wrap360 (Binary64.wrap360 x) =? Binary64.wrap360 x) = false
  /\ (- (90) <=? Binary64.wrap90 x) = true
  /\ (Binary64.wrap90 x <=? 90) = true
  /\ (Binary64.wrap90 (Binary64.wrap90 x) =? Binary64.wrap90 x) = true.
Proof. cbv zeta. repeat split; vm_compute; reflexivity. Qed.

End Overflow.

(** ** The invariant of a point *)



Import Dms LatLonSpherical.




Lemma valid_mk a b :
  valid (mk a b) = ((-90 <= a)%js && (a <= 90)%js && ((-180 <= b)%js && (b <= 180)%js)).
Proof. unfold valid; cbn. now rewrite <- !andb_assoc. Qed.

Lemma valid_parts p : valid p = true ->
  (-90 <= _lat p)%js && (_lat p <= 90)%js = true
  /\ (-180 <= _lon p)%js && (_lon p <= 180)%js = true.
Proof.
  destruct p as [a b]. rewrite valid_mk. cbn. intros H.
  apply andb_true_iff in H. exact H.
Qed.

Lemma no_overflow_finite x : Dms.no_overflow x = true -> JS.is_finite x = true.
Proof. destruct x; try discriminate. reflexivity. Qed.


Lemma wrap180_is_longitude x : Dms.is_longitude (Dms.wrap180 x) = true.
Proof.
  destruct x as [| | |q]; try reflexivity. unfold Dms.is_longitude.
  rewrite (wrap180_in_range (Fin q) eq_refl). apply orb_true_r.
Qed.






(** ** The compass point *)

(** C10 does not hold of the code.  [compassPoint] wraps the bearing with
    [wrap360], which in binary64 returns NaN for the bearing 1e308; the
    index computed from NaN is NaN, whatever the precision, and the entry
    of [cardinals] at NaN is [undefined]: no compass point is returned. *)
Theorem compassPoint_undefined_on_overflow :
  let bearing := Binary64.to_number (Binary64.wrap360 Binary64.huge) in
  bearing = NaN
  /\ (forall n, Dms.compassIndex bearing n = NaN)
  /\ (forall n, array_get Dms.cardinals (Dms.compassIndex bearing n) = None)
  /\ Dms.wrap360 bearing = NaN
  /\ (forall precision, In precision [1; 2; 3]%js ->
      Dms.compassPoint bearing (VNum precision) = Return None).
Proof.
  cbv zeta.
  assert (E : Binary64.to_number (Binary64.wrap360 Binary64.huge) = NaN)
    by (vm_compute; reflexivity).
  rewrite E. split; [reflexivity|].
  assert (I : forall n, Dms.compassIndex NaN n = NaN).
  { intros n. unfold Dms.compassIndex. destruct n; reflexivity. }
  split; [exact I|]. split; [intros n; now rewrite I|].
  split; [reflexivity|].
  intros precision [ <- | [ <- | [ <- | [] ] ] ]; reflexivity.
Qed.

(** ** The formatter and the constructor *)

Section FormatProperties.

Local Open Scope string_scope.

Lemma toDms_sentinel sep deg format dp :
  sentinel_input deg -> Dms.toDms sep deg format dp = Return None.
Proof.
  intros H. unfold Dms.toDms. destruct H as [v H|s H|b| |].
  - now rewrite H.
  - destruct (isNaN (VStr s)); [reflexivity|]. now rewrite H.
  - destruct b; reflexivity.
  - reflexivity.
  - reflexivity.
Qed.

Lemma known_style_false f : known_style f = false ->
  Dms.defaults f = ("d", VNum 4) /\ Dms.style_of f = Dms.style_d.
Proof.
  unfold known_style, Dms.defaults, Dms.style_of. cbn [existsb].
  intros H. repeat (apply orb_false_iff in H as [? H]).
  repeat match goal with E : String.eqb _ _ = false |- _ => rewrite E; clear E end.
  split; reflexivity.
Qed.

Lemma toDms_unknown_style sep v f dp : known_style f = false ->
  Dms.toDms sep v (Some f) dp = Dms.toDms sep v (Some "d") dp.
Proof.
  intros H. destruct (@known_style_false f H) as [D S].
  unfold Dms.toDms. destruct dp; try rewrite D; try rewrite S; reflexivity.
Qed.

Lemma toFixed_4 x : exists s, toFixed x (VNum 4) = Return s.
Proof.
  unfold toFixed. cbn [ToNumber].
  change (JS.Qtrunc 4) with 4%Z. cbn [Z.ltb Z.compare orb Pos.compare Pos.compare_cont].
  destruct x as [| | |q]; try (eexists; reflexivity).
  destruct (Qle_bool _ _); eexists; reflexivity.
Qed.

Lemma toDms_d_4 sep v : exists r, Dms.toDms sep v (Some "d") (VNum 4) = Return r.
Proof.
  unfold Dms.toDms.
  repeat match goal with
         | |- exists r, (if ?c then _ else _) = _ => destruct c; [eexists; reflexivity|]
         end.
  change (Dms.style_of "d") with Dms.style_d. cbv iota beta.
  destruct (toFixed_4 (Math.abs (ToNumber v))) as (s & ->).
  eexists; reflexivity.
Qed.

(** C3, as amended.  [toDms] returns [null], and does not throw, for an
    input that converts to NaN, a string that is empty once trimmed, a
    boolean, +Infinity or [null].  A style outside d/deg, dm/deg+min and
    dms/deg+min+sec is formatted exactly as the style d, with the given
    number of decimals, and with 4 decimals and no error when none is
    given. *)
Theorem toDms_sentinel_and_fallback (sep : string) (deg v : value)
  (format : option string) (dp : value) (f : string) :
  sentinel_input deg -> known_style f = false ->
  Dms.toDms sep deg format dp = Return None
  /\ Dms.toDms sep v (Some f) dp = Dms.toDms sep v (Some "d") dp
  /\ Dms.toDms sep v (Some f) VUndefined = Dms.toDms sep v (Some "d") (VNum 4)
  /\ exists r, Dms.toDms sep v (Some f) VUndefined = Return r.
Proof.
  intros Hs Hf.
  assert (E : Dms.toDms sep v (Some f) VUndefined
              = Dms.toDms sep v (Some "d") (VNum 4)).
  { rewrite (@toDms_unknown_style sep v f VUndefined Hf). reflexivity. }
  repeat split.
  - exact (@toDms_sentinel sep deg format dp Hs).
  - exact (@toDms_unknown_style sep v f dp Hf).
  - exact E.
  - rewrite E. apply toDms_d_4.
Qed.

(** A blank string, and the style xyz on 1.5. *)
Lemma toDms_sentinel_and_fallback_witness :
  Dms.toDms dmsSeparator (VStr "  ") None (VNum 2) = Return None
  /\ Dms.toDms dmsSeparator (VNum (dec 1.5)) (Some "xyz") (VNum 2)
     = Dms.toDms dmsSeparator (VNum (dec 1.5)) (Some "d") (VNum 2)
  /\ Dms.toDms dmsSeparator (VNum (dec 1.5)) (Some "xyz") VUndefined
     = Dms.toDms dmsSeparator (VNum (dec 1.5)) (Some "d") (VNum 4)
  /\ exists r, Dms.toDms dmsSeparator (VNum (dec 1.5)) (Some "xyz") VUndefined = Return r.
Proof.
  apply toDms_sentinel_and_fallback.
  - apply sentinel_blank. reflexivity.
  - reflexivity.
Defined.

(** C3 fails as stated: -Infinity is formatted as "Infinity°", not [null];
    the style deg+min, which is none of d, dm, dms, formats 1.5 in the dm
    style with 2 decimals, not as "001.5000°"; and an unknown style with 2
    decimals asked for gives 2 decimals, not 4. *)
Lemma toDms_negative_infinity_and_alias :
  Dms.toDms dmsSeparator (VNum NInf) None VUndefined = Return (Some "Infinity°")
  /\ Dms.toDms dmsSeparator (VNum (dec 1.5)) (Some "deg+min") VUndefined
     = Return (Some ("001°" ++ dmsSeparator ++ "30.00′"))
  /\ Dms.toDms dmsSeparator (VNum (dec 1.5)) (Some "d") (VNum 4)
     = Return (Some "001.5000°")
  /\ Dms.toDms dmsSeparator (VNum (dec 1.5)) (Some "xyz") (VNum 2)
     = Return (Some "001.50°").
Proof. repeat split; vm_compute; reflexivity. Qed.

(** C6 does not hold of the code: the hemisphere letter of [toLat] is
    taken from the sign of the raw argument.  200 wraps to -20, which is
    negative, yet [toLat(200)] ends in N. *)
Theorem toLat_hemisphere_of_raw_value (sep : string) :
  Dms.wrap90 200 = (-20)%js
  /\ ((-20)%js < 0)%js = true
  /\ Dms.toLat sep 200 None VUndefined = Return ("20.0000°" ++ sep ++ "N").
Proof. repeat split; vm_compute; reflexivity. Qed.

(** C7 does not hold of the code: [toBrng] replaces the first "360" found
    anywhere in the text.  1.36 formats as "001.3600°", which has not
    rounded up to 360 degrees, yet [toBrng(1.36)] is "001.00°". *)
Theorem toBrng_replaces_any_360 (sep : string) :
  Dms.toDms sep (VNum (Dms.wrap360 (dec 1.36))) None VUndefined
  = Return (Some "001.3600°")
  /\ Dms.toBrng sep (dec 1.36) None VUndefined = Return "001.00°".
Proof. repeat split; vm_compute; reflexivity. Qed.

(** C8, as amended.  The constructor throws a TypeError exactly when the
    numeric conversion of [lat] or of [lon] is NaN, and otherwise stores
    [wrap90(Number(lat))] and [wrap180(Number(lon))]: it never calls
    [Dms.parse].  Text that only [Dms.parse] can read is therefore refused
    by the constructor, while the [lat] and [lon] setters accept it and
    store [wrap90] and [wrap180] of the parsed value. *)
Theorem constructor_numeric_only (this : t) (lat lon : value) :
  (new lat lon = Throw TypeError <-> isNaN lat = true \/ isNaN lon = true)
  /\ (isNaN lat = false -> isNaN lon = false ->
      new lat lon = Return (mk (Dms.wrap90 (Number lat)) (Dms.wrap180 (Number lon))))
  /\ (forall d, isNaN lat = true -> Dms.parse lat = Return d ->
      JS.is_nan (Dms.wrap90 d) = false ->
      new lat lon = Throw TypeError
      /\ set_lat this lat = (mk (Dms.wrap90 d) (_lon this), Return tt))
  /\ (forall d, isNaN lon = true -> Dms.parse lon = Return d ->
      JS.is_nan (Dms.wrap180 d) = false ->
      new lat lon = Throw TypeError
      /\ set_lon this lon = (mk (_lat this) (Dms.wrap180 d), Return tt)).
Proof.
  unfold new, set_lat, set_lon. split; [split|split; [|split]].
  - destruct (isNaN lat); [auto|]. destruct (isNaN lon); [auto|discriminate].
  - intros [-> | ->]; [reflexivity|]. destruct (isNaN lat); reflexivity.
  - intros -> ->. reflexivity.
  - intros d N P W. rewrite N, P. cbn. rewrite W. auto.
  - intros d N P W. rewrite N, P. cbn. rewrite W.
    destruct (isNaN lat); auto.
Qed.

(** The text '3 37 12W': refused by the constructor, stored as -3.62 by
    the setter. *)
Lemma constructor_numeric_only_witness :
  new (VStr "3 37 12W") (VNum 0) = Throw TypeError
  /\ set_lat (mk 0 0) (VStr "3 37 12W") = (mk (dec (-3.62)) 0, Return tt).
Proof.
  apply (proj1 (proj2 (proj2
           (constructor_numeric_only (mk 0 0) (VStr "3 37 12W") (VNum 0))))
           (dec (-3.62))); vm_compute; reflexivity.
Defined.

(** C8 fails as stated: [Dms.parse] reads '3 37 12W' as -3.62, the setter
    stores it, and the constructor throws a TypeError on it. *)
Lemma constructor_rejects_dms_text :
  Dms.parse (VStr "3 37 12W") = Return (dec (-3.62))
  /\ new (VStr "3 37 12W") (VNum 0) = Throw TypeError
  /\ fst (set_lat (mk 0 0) (VStr "3 37 12W")) = mk (dec (-3.62)) 0.
Proof. repeat split; vm_compute; reflexivity. Qed.

End FormatProperties.

(** ** The polygon area *)

Section AreaFacts.

Variable M : Math.Lib.










End AreaFacts.


(** ** The intersection of two paths *)

Section IntersectionProperties.

Local Open Scope js_scope.

Lemma RefMath_conforms : Math.Conforms RefMath.lib.
Proof.
  constructor; try reflexivity.
  - intros [| | |x]; unfold JS.defined; cbn; auto. unfold RefMath.asin.
    destruct (Qle_bool _ _); auto.
  - intros [| | |y] [| | |x]; unfold JS.defined; cbn; auto.
Qed.

(** ** Propagation of NaN and of finiteness *)

Lemma defined_finite x : defined x -> JS.is_nan x = false -> JS.is_finite x = true.
Proof. intros [-> | H]; [discriminate | auto]. Qed.

Lemma toDegrees_defined x : defined x -> defined (toDegrees x).
Proof.
  intros [-> | H]; [left; reflexivity|]. destruct x; try discriminate.
  right. reflexivity.
Qed.

Lemma toRadians_finite x : JS.is_finite x = true -> JS.is_finite (toRadians x) = true.
Proof. destruct x; try discriminate. reflexivity. Qed.

Lemma toRadians_not_finite x :
  JS.is_finite x = false -> JS.is_finite (toRadians x) = false.
Proof. destruct x; try discriminate; reflexivity. Qed.

Lemma add_defined x y : JS.is_finite x = true -> defined y -> defined (x + y).
Proof.
  destruct x; try discriminate. intros _ [-> | H]; [left; reflexivity|].
  destruct y; try discriminate. right; reflexivity.
Qed.

Lemma sub_not_finite x y : JS.is_finite x = false -> JS.is_finite (x - y) = false.
Proof. destruct x, y; try discriminate; reflexivity. Qed.

Lemma mul_NaN_r x : x * NaN = NaN.
Proof. destruct x; reflexivity. Qed.

Lemma mul_NaN_l x : NaN * x = NaN.
Proof. reflexivity. Qed.

Lemma add_NaN_r x : x + NaN = NaN.
Proof. destruct x; reflexivity. Qed.

Lemma add_NaN_l x : NaN + x = NaN.
Proof. reflexivity. Qed.

Lemma neg_NaN : - NaN = NaN.
Proof. reflexivity. Qed.

Lemma valid_finite p : valid p = true ->
  JS.is_finite (_lat p) = true /\ JS.is_finite (_lon p) = true.
Proof.
  intros H. apply valid_parts in H as [H1 H2]. destruct p as [a b]. cbn in *.
  apply andb_true_iff in H1 as [L1 U1]. apply andb_true_iff in H2 as [L2 U2].
  destruct a, b; try discriminate; auto.
Qed.

Lemma new_VNum lat lon :
  new (VNum lat) (VNum lon)
  = if JS.is_nan lat then Throw TypeError
    else if JS.is_nan lon then Throw TypeError
    else Return (mk (Dms.wrap90 lat) (Dms.wrap180 lon)).
Proof. reflexivity. Qed.

Lemma new_copy p : valid p = true -> new (VNum (_lat p)) (VNum (_lon p)) = Return p.
Proof.
  intros H. destruct (valid_parts _ H) as [H1 H2]. destruct p as [a b]. cbn in *.
  apply andb_true_iff in H1 as [L1 U1]. apply andb_true_iff in H2 as [L2 U2].
  destruct a as [| | |a]; try discriminate. destruct b as [| | |b]; try discriminate.
  rewrite new_VNum. cbn [JS.is_nan].
  cbn in L1, U1, L2, U2. apply Qle_bool_iff in L1, U1, L2, U2.
  rewrite (wrap90_id (Is_Fin a) L1 U1), (wrap180_id (Is_Fin b) L2 U2). reflexivity.
Qed.

Lemma new_defined lat lon p : defined lat -> defined lon ->
  new (VNum lat) (VNum lon) = Return p -> valid p = true.
Proof.
  intros Dlat Dlon. rewrite new_VNum.
  destruct (JS.is_nan lat) eqn:Nlat; [discriminate|].
  destruct (JS.is_nan lon) eqn:Nlon; [discriminate|].
  intros [= <-]. rewrite valid_mk.
  rewrite (wrap90_in_range _ (@defined_finite lat Dlat Nlat)).
  rewrite (wrap180_in_range _ (@defined_finite lon Dlon Nlon)). reflexivity.
Qed.

Lemma new_Throw lat lon e : new (VNum lat) (VNum lon) = Throw e ->
  e = TypeError /\ (JS.is_nan lat || JS.is_nan lon) = true.
Proof.
  rewrite new_VNum. destruct (JS.is_nan lat); [intros [= <-]; auto|].
  destruct (JS.is_nan lon); [intros [= <-]; auto | discriminate].
Qed.

Section IntersectionFacts.

Variable M : Math.Lib.
Hypothesis C : Math.Conforms M.

Lemma sin_not_finite x : JS.is_finite x = false -> Math.sin M x = NaN.
Proof.
  destruct x; try discriminate; intros _;
    [apply (Math.sin_NaN C) | apply (Math.sin_PInf C) | apply (Math.sin_NInf C)].
Qed.

Lemma cos_not_finite x : JS.is_finite x = false -> Math.cos M x = NaN.
Proof.
  destruct x; try discriminate; intros _;
    [apply (Math.cos_NaN C) | apply (Math.cos_PInf C) | apply (Math.cos_NInf C)].
Qed.

(** The computed point is defined whenever the first point is a valid one. *)
Lemma intersection_lat_lon_defined p1 brng1 p2 brng2 : valid p1 = true ->
  defined (fst (intersection_lat_lon M p1 brng1 p2 brng2))
  /\ defined (snd (intersection_lat_lon M p1 brng1 p2 brng2)).
Proof.
  intros V. destruct (valid_finite _ V) as [_ Flon].
  unfold intersection_lat_lon. destruct (α12 M p1 brng1 p2 brng2) as [α1 α2].
  cbv zeta. cbn [fst snd]. split.
  - apply toDegrees_defined, (Math.asin_range C).
  - apply toDegrees_defined, add_defined.
    + apply toRadians_finite, Flon.
    + apply (Math.atan2_range C).
Qed.

(** With a first bearing that is not finite the computed latitude is NaN. *)
Lemma intersection_lat_not_finite p1 brng1 p2 brng2 :
  JS.is_finite (Number brng1) = false ->
  Math.sin M (fst (α12 M p1 brng1 p2 brng2)) = NaN
  /\ fst (intersection_lat_lon M p1 brng1 p2 brng2) = NaN.
Proof.
  intros H.
  assert (S1 : JS.is_finite (fst (α12 M p1 brng1 p2 brng2)) = false).
  { unfold α12. cbv zeta. cbn [fst]. apply sub_not_finite, toRadians_not_finite, H. }
  split; [apply sin_not_finite, S1|].
  unfold intersection_lat_lon. destruct (α12 M p1 brng1 p2 brng2) as [α1 α2].
  cbn [fst] in S1. cbv zeta. cbn [fst].
  rewrite (sin_not_finite _ S1), (cos_not_finite _ S1).
  repeat first
    [ rewrite mul_NaN_r | rewrite mul_NaN_l | rewrite add_NaN_r
    | rewrite add_NaN_l | rewrite neg_NaN
    | rewrite (Math.atan2_NaN_l C) | rewrite (Math.cos_NaN C)
    | rewrite (Math.sin_NaN C) ].
  cbn [Math.max Math.min]. rewrite (Math.asin_NaN C). reflexivity.
Qed.

(** With a first bearing that is infinite, and points that are not
    coincident, [intersection] throws. *)
Lemma intersection_not_finite_bearing p1 brng1 p2 brng2 :
  isNaN brng1 = false -> isNaN brng2 = false ->
  JS.is_finite (Number brng1) = false ->
  (Math.abs (δ12 M p1 p2) < EPSILON) = false ->
  intersection M p1 brng1 p2 brng2 = Throw TypeError.
Proof.
  intros N1 N2 F Co. unfold intersection. rewrite N1, N2, Co.
  destruct (@intersection_lat_not_finite p1 brng1 p2 brng2 F) as [S1 L].
  destruct (α12 M p1 brng1 p2 brng2) as [α1 α2].
  destruct (intersection_lat_lon M p1 brng1 p2 brng2) as [lat lon].
  cbn [fst] in S1, L. rewrite S1, L. reflexivity.
Qed.

(** C2, as amended.  For a valid first point and bearings that are not
    NaN: when the two points are coincident [intersection] returns a copy of
    the first; otherwise it returns [null] when both sines are zero and when
    the product of the sines is negative; otherwise it builds the point of
    the computed latitude and longitude, its result being that point, with
    the latitude and the longitude wrapped, or the TypeError of the
    constructor when one of them is NaN.  A point it returns is valid, so
    has no NaN coordinate; it throws, a TypeError, when a computed
    coordinate is NaN, and does so for every first bearing that is
    infinite. *)
Theorem intersection_outcomes (p1 : t) (brng1 : value) (p2 : t) (brng2 : value) :
  valid p1 = true -> isNaN brng1 = false -> isNaN brng2 = false ->
  intersection_spec M p1 brng1 p2 brng2.
Proof.
  intros V N1 N2. unfold intersection_spec, intersection. cbv zeta. rewrite N1, N2.
  destruct (@intersection_lat_lon_defined p1 brng1 p2 brng2 V) as [Dlat Dlon].
  pose proof (@intersection_lat_not_finite p1 brng1 p2 brng2) as Hinf.
  destruct (intersection_lat_lon M p1 brng1 p2 brng2) as [lat lon].
  destruct (α12 M p1 brng1 p2 brng2) as [α1 α2]. cbn [fst snd] in *.
  rewrite (@new_copy p1 V). cbn [bind].
  destruct (Math.abs (δ12 M p1 p2) < EPSILON) eqn:Co.
  - (* coincident points *)
    split; [|split; [|split; [|split; [|split; [|split]]]]]; try discriminate.
    + reflexivity.
    + intros p [= <-]. exact V.
  - destruct ((Math.sin M α1 == 0) && (Math.sin M α2 == 0)) eqn:Z.
    + (* infinite intersections *)
      split; [|split; [|split; [|split; [|split; [|split]]]]]; try discriminate.
      * reflexivity.
      * reflexivity.
      * intros _ F. destruct (Hinf F) as [S1 _]. rewrite S1 in Z. discriminate.
    + destruct (Math.sin M α1 * Math.sin M α2 < 0) eqn:Neg.
      * (* ambiguous intersection *)
        split; [|split; [|split; [|split; [|split; [|split]]]]]; try discriminate.
        -- reflexivity.
        -- intros _ F. destruct (Hinf F) as [S1 _]. rewrite S1 in Neg. discriminate.
      * (* the third point *)
        assert (Third : bind (new (VNum lat) (VNum lon)) (fun p => Return (Some p))
                        = if JS.is_nan lat || JS.is_nan lon then Throw TypeError
                          else Return (Some (mk (Dms.wrap90 lat) (Dms.wrap180 lon)))).
        { rewrite new_VNum. destruct (JS.is_nan lat); [reflexivity|].
          destruct (JS.is_nan lon); reflexivity. }
        destruct (new (VNum lat) (VNum lon)) as [q|e'] eqn:Hnew; cbn [bind] in *;
          (split; [|split; [|split; [|split; [|split; [|split]]]]]);
          try discriminate; try (intros _ _ _; exact Third).
        -- intros p [= <-]. exact (@new_defined lat lon _ Dlat Dlon Hnew).
        -- intros _ F. destruct (Hinf F) as [_ ->]. discriminate.
        -- intros e [= <-]. destruct (@new_Throw lat lon _ Hnew) as [-> Hn]. auto.
        -- intros _ F. destruct (@new_Throw lat lon _ Hnew) as [-> Hn]. reflexivity.
Qed.

End IntersectionFacts.

(** The example of the source: (51.8853, 0.2545) on 108.547 and
    (49.0034, 2.5735) on 32.435. *)
Lemma intersection_outcomes_witness :
  intersection_spec RefMath.lib (mk (dec 51.8853) (dec 0.2545)) (VNum (dec 108.547))
    (mk (dec 49.0034) (dec 2.5735)) (VNum (dec 32.435)).
Proof.
  apply intersection_outcomes; [exact RefMath_conforms | reflexivity..].
Defined.

(** C2 fails as stated: with the numeric bearing +Infinity from (0, 0),
    and (0, 1) as second point, [intersection] throws a TypeError, under
    every [Math] for which the two points are not coincident, the reference
    one among them. *)
Lemma intersection_infinite_bearing_throws :
  (forall M : Math.Lib, Math.Conforms M ->
   (Math.abs (δ12 M (mk 0 0) (mk 0 1)) < EPSILON) = false ->
   intersection M (mk 0 0) (VNum PInf) (mk 0 1) (VNum 0) = Throw TypeError)
  /\ (Math.abs (δ12 RefMath.lib (mk 0 0) (mk 0 1)) < EPSILON) = false
  /\ intersection RefMath.lib (mk 0 0) (VNum PInf) (mk 0 1) (VNum 0)
     = Throw TypeError.
Proof.
  split; [|split].
  - intros M C Co. now apply intersection_not_finite_bearing.
  - vm_compute. reflexivity.
  - vm_compute. reflexivity.
Qed.

End IntersectionProperties.

(* ================================================================== *)
(** * Further properties of the code *)
(* ================================================================== *)

(** ** [Dms.parse] and the exceptions of the parsers *)

Section ParseProperties.

Local Open Scope string_scope.

Lemma Dms_parse_total dms : exists d, Dms.parse dms = Return d.
Proof.
  destruct dms as [| |[|]|[| | |q]|s].
  1-7: exists NaN; vm_compute; reflexivity.
  - exists (Fin q). reflexivity.
  - unfold Dms.parse.
    destruct (negb _ && _); [eauto|].
    destruct (String.eqb _ ""); [eauto|].
    match goal with
    | |- exists d, match ?x with _ => _ end = _ => destruct x
    end; eauto.
Qed.

(** [Dms.parse] never throws on [undefined], [null], a boolean, a number
    or a string, the values of the embedding: its [dms.trim()], a method of
    strings only, is reached by strings alone.  It returns a finite number
    unchanged, and NaN for NaN, for an infinity, for [undefined], [null]
    and the booleans. *)
Theorem Dms_parse_never_throws :
  (forall dms, exists d, Dms.parse dms = Return d)
  /\ (forall q, Dms.parse (VNum (Fin q)) = Return (Fin q))
  /\ Dms.parse (VNum NaN) = Return NaN
  /\ Dms.parse (VNum PInf) = Return NaN
  /\ Dms.parse (VNum NInf) = Return NaN
  /\ Dms.parse VUndefined = Return NaN
  /\ Dms.parse VNull = Return NaN
  /\ (forall b, Dms.parse (VBool b) = Return NaN).
Proof.
  split; [|split; [|split; [|split; [|split; [|split; [|split]]]]]].
  - apply Dms_parse_total.
  - intros q. reflexivity.
  - vm_compute; reflexivity.
  - vm_compute; reflexivity.
  - vm_compute; reflexivity.
  - vm_compute; reflexivity.
  - vm_compute; reflexivity.
  - intros [|]; vm_compute; reflexivity.
Qed.

Lemma only_TypeError_Return (A : Type) (a : A) : only_TypeError (Return a).
Proof. intros e H. discriminate. Qed.

Lemma only_TypeError_Throw (A : Type) : only_TypeError (@Throw A TypeError).
Proof. intros e [= <-]. reflexivity. Qed.

Lemma only_TypeError_bind (A B : Type) (r : result A) (k : A -> result B) :
  only_TypeError r -> (forall a, only_TypeError (k a)) -> only_TypeError (bind r k).
Proof.
  intros Hr Hk e. destruct r as [a|e']; cbn.
  - apply Hk.
  - intros [= <-]. apply Hr. reflexivity.
Qed.

Lemma only_TypeError_new lat lon : only_TypeError (new lat lon).
Proof.
  unfold new. destruct (isNaN lat); [apply only_TypeError_Throw|].
  destruct (isNaN lon); [apply only_TypeError_Throw | apply only_TypeError_Return].
Qed.

Lemma only_TypeError_Dms_parse dms : only_TypeError (Dms.parse dms).
Proof.
  destruct (Dms_parse_total dms) as (d & ->). apply only_TypeError_Return.
Qed.

Lemma only_TypeError_parse_pair lat lon : only_TypeError (parse_pair lat lon).
Proof.
  unfold parse_pair.
  apply only_TypeError_bind; [apply only_TypeError_Dms_parse|intros a].
  apply only_TypeError_bind; [apply only_TypeError_Dms_parse|intros b].
  apply only_TypeError_Return.
Qed.

Lemma only_TypeError_check_pair ll : only_TypeError (check_pair ll).
Proof.
  unfold check_pair.
  destruct (_ || _); [apply only_TypeError_Throw | apply only_TypeError_Return].
Qed.

Lemma only_TypeError_checked_new ll :
  only_TypeError (bind (check_pair ll) (fun '(lat, lon) => new lat lon)).
Proof.
  apply only_TypeError_bind; [apply only_TypeError_check_pair|].
  intros [lat lon]. apply only_TypeError_new.
Qed.

Lemma only_TypeError_parse args : only_TypeError (LatLonSpherical.parse args).
Proof.
  unfold LatLonSpherical.parse. destruct args as [[|a0 rest]|ll].
  - apply only_TypeError_Throw.
  - destruct (_ || _); [apply only_TypeError_Throw|].
    apply only_TypeError_bind; [|intros ll; apply only_TypeError_checked_new].
    destruct rest as [|a1 [|a2 rest]].
    + destruct a0; try apply only_TypeError_Return.
      apply only_TypeError_bind;
        [apply only_TypeError_parse_pair | intros; apply only_TypeError_check_pair].
    + apply only_TypeError_bind;
        [apply only_TypeError_parse_pair | intros; apply only_TypeError_check_pair].
    + apply only_TypeError_Return.
  - apply only_TypeError_bind; [|intros x; apply only_TypeError_checked_new].
    destruct (is_GeoJSON ll); [apply only_TypeError_check_pair|].
    apply only_TypeError_bind;
      [apply only_TypeError_parse_pair | intros; apply only_TypeError_check_pair].
Qed.

Lemma only_TypeError_to_instance point : only_TypeError (to_instance point).
Proof.
  destruct point; unfold to_instance;
    [apply only_TypeError_Return | apply only_TypeError_parse..].
Qed.

End ParseProperties.

(** ** Points: equality, bearings and the points the methods build *)

Section PointProperties.

Local Open Scope js_scope.

Lemma gt_abs_sub_sym a b e :
  (Math.abs (a - b) > e) = (Math.abs (b - a) > e).
Proof.
  destruct a as [| | |x], b as [| | |y]; try reflexivity.
  destruct e as [| | |z]; try reflexivity. cbn.
  assert (E : (Qred (Qabs (Qred (x - y))) == Qred (Qabs (Qred (y - x))))%Q).
  { rewrite !Qred_correct. apply Qabs_case; intros;
      apply Qabs_case; intros; lra. }
  now rewrite E.
Qed.

Lemma gt_abs_sub_refl a e : (0 <= e) = true -> (Math.abs (a - a) > e) = false.
Proof.
  intros H. destruct e as [| | |z]; try discriminate;
    destruct a as [| | |x]; try reflexivity.
  cbn [JS.sub Math.abs JS.gt JS.lt JS.le JS.int] in *.
  apply Qle_bool_iff in H. apply negb_false_iff, Qle_bool_iff.
  rewrite !Qred_correct. change (inject_Z 0) with 0%Q in H.
  apply Qabs_case; intros; lra.
Qed.

Lemma equals_refl p : equals p p = true.
Proof. unfold equals. rewrite !gt_abs_sub_refl by reflexivity. reflexivity. Qed.

Lemma equals_sym p q : equals p q = equals q p.
Proof.
  unfold equals.
  rewrite (gt_abs_sub_sym (_lat p)), (gt_abs_sub_sym (_lon p)). reflexivity.
Qed.

(** [equals] is reflexive, also on a point that holds NaN, and symmetric;
    being equality within [Number.EPSILON] on each coordinate, it is not
    transitive. *)
Theorem equals_reflexive_symmetric :
  (forall p, equals p p = true)
  /\ (forall p q, equals p q = equals q p)
  /\ (exists p q r,
        equals p q = true /\ equals q r = true /\ equals p r = false).
Proof.
  split; [exact equals_refl|]. split; [exact equals_sym|].
  exists (mk 0 0), (mk 0 EPSILON), (mk 0 (2 * EPSILON)).
  split; [|split]; vm_compute; reflexivity.
Qed.

Lemma wrap360_is_bearing x : JS.defined x -> is_bearing (Dms.wrap360 x) = true.
Proof.
  intros [-> | F]; [reflexivity|]. unfold is_bearing.
  rewrite (wrap360_in_range _ F). apply orb_true_r.
Qed.

Lemma toRadians_defined x : JS.defined x -> JS.defined (toRadians x).
Proof.
  intros [-> | F]; [left; reflexivity|]. right. now apply toRadians_finite.
Qed.

Lemma add_defined2 x y : JS.defined x -> JS.defined y -> JS.defined (x + y).
Proof.
  intros [-> | F]; [left; reflexivity|]. now apply add_defined.
Qed.

Lemma valid_defined p : valid p = true ->
  JS.defined (_lat p) /\ JS.defined (_lon p).
Proof. intros V. destruct (valid_finite _ V). split; right; assumption. Qed.

Lemma valid_inv p : valid p = true ->
  exists a b, p = mk (Fin a) (Fin b)
              /\ (-90 <= a /\ a <= 90 /\ -180 <= b /\ b <= 180)%Q.
Proof.
  intros H. destruct (valid_parts _ H) as [H1 H2]. destruct p as [a b]. cbn in *.
  apply andb_true_iff in H1 as [L1 U1]. apply andb_true_iff in H2 as [L2 U2].
  destruct a as [| | |a]; try discriminate. destruct b as [| | |b]; try discriminate.
  cbn in L1, U1, L2, U2. apply Qle_bool_iff in L1, U1, L2, U2.
  exists a, b. auto.
Qed.

Lemma Is_eqb x y a b : Is x a -> Is y b -> (a == b)%Q -> (x == y) = true.
Proof.
  intros (p & -> & Hp) (q & -> & Hq) E. cbn. apply Qeq_bool_iff.
  now rewrite Hp, Hq.
Qed.

Lemma Is_finite x a : Is x a -> JS.is_finite x = true.
Proof. intros (p & -> & _). reflexivity. Qed.

Lemma finite_Is x : JS.is_finite x = true -> exists a, Is x a.
Proof. destruct x as [| | |q]; try discriminate. intros _. exists q. apply Is_Fin. Qed.

Lemma Is_PI : Is PI pi.
Proof. apply Is_Fin. Qed.

Lemma pi_nonzero : ~ (pi == 0)%Q.
Proof. intros H. discriminate H. Qed.

Lemma Is_toRadians x a : Is x a -> Is (toRadians x) (a * pi / 180).
Proof.
  intros H. unfold toRadians.
  eapply Is_div; [eapply Is_mul; [exact H | apply Is_PI] | apply (Is_Fin 180) |].
  intros E; discriminate E.
Qed.

Lemma Is_toDegrees x a : Is x a -> Is (toDegrees x) (a * 180 / pi).
Proof.
  intros H. unfold toDegrees.
  eapply Is_div; [eapply Is_mul; [exact H | apply (Is_Fin 180)]
                 | apply Is_PI | apply pi_nonzero].
Qed.

Lemma wrap90_out_defined x : JS.defined (Dms.wrap90 x).
Proof.
  destruct x as [| | |q]; try (left; reflexivity). right.
  destruct (@wrap90_range (Fin q) eq_refl) as (r & Hr & _). exact (Is_finite Hr).
Qed.

Lemma wrap180_out_defined x : JS.defined (Dms.wrap180 x).
Proof.
  destruct x as [| | |q]; try (left; reflexivity). right.
  destruct (@wrap180_range (Fin q) eq_refl) as (r & Hr & _). exact (Is_finite Hr).
Qed.

Lemma wrap90_wrap90 x : Dms.wrap90 (Dms.wrap90 x) = Dms.wrap90 x.
Proof.
  destruct x as [| | |q]; try reflexivity.
  destruct (@wrap90_range (Fin q) eq_refl) as (r & Hr & L & U).
  exact (wrap90_id Hr L U).
Qed.

Lemma wrap180_wrap180 x : Dms.wrap180 (Dms.wrap180 x) = Dms.wrap180 x.
Proof.
  destruct x as [| | |q]; try reflexivity.
  destruct (@wrap180_range (Fin q) eq_refl) as (r & Hr & L & U).
  exact (wrap180_id Hr L U).
Qed.

(** A point built from coordinates that are NaN or finite is valid. *)
Lemma new_valid lat lon :
  JS.defined lat -> JS.defined lon ->
  valid_or_TypeError (new (VNum lat) (VNum lon)).
Proof.
  intros Dlat Dlon. split.
  - intros p H. exact (@new_defined lat lon p Dlat Dlon H).
  - apply only_TypeError_new.
Qed.

Lemma new_lon_defined lat lon p :
  new (VNum lat) (VNum lon) = Return p -> JS.defined (_lon p).
Proof.
  rewrite new_VNum. destruct (JS.is_nan lat); [discriminate|].
  destruct (JS.is_nan lon); [discriminate|]. intros [= <-].
  apply wrap180_out_defined.
Qed.

Lemma valid_or_TypeError_bind (A : Type) (r : result A) (k : A -> result t) :
  only_TypeError r -> (forall a, valid_or_TypeError (k a)) ->
  valid_or_TypeError (bind r k).
Proof.
  intros Hr Hk. split.
  - destruct r as [a|e]; cbn; [apply (Hk a) | discriminate].
  - apply only_TypeError_bind; [assumption | intros a; apply (Hk a)].
Qed.

Section GeodesyProperties.

Variable M : Math.Lib.
Hypothesis C : Math.Conforms M.

Lemma initialBearingTo_is_bearing this point :
  exists b, initialBearingTo M this (Some point) = Return b
            /\ is_bearing b = true
            /\ (equals this point = true -> b = NaN).
Proof.
  unfold initialBearingTo. cbn [instance bind].
  destruct (equals this point).
  - exists NaN. auto.
  - eexists. split; [reflexivity|]. split; [|discriminate].
    apply wrap360_is_bearing, toDegrees_defined, (Math.atan2_range C).
Qed.

Lemma finalBearingTo_total this point :
  exists b, finalBearingTo M this (Some point) = Return b.
Proof.
  destruct (initialBearingTo_is_bearing point this) as (b & Eb & _).
  unfold finalBearingTo. cbn [instance bind]. rewrite Eb. cbn [bind]. eauto.
Qed.

(** The initial and the final bearing to a point never throw; each is NaN
    or a number in [0, 360), and both are NaN when the points are
    coincident. *)
Theorem bearings_in_range (this point : t) :
  exists b1 b2,
    initialBearingTo M this (Some point) = Return b1
    /\ finalBearingTo M this (Some point) = Return b2
    /\ is_bearing b1 = true /\ is_bearing b2 = true
    /\ (equals this point = true -> b1 = NaN /\ b2 = NaN).
Proof.
  destruct (initialBearingTo_is_bearing this point) as (b1 & E1 & B1 & N1).
  destruct (initialBearingTo_is_bearing point this) as (b & E & B & N).
  exists b1, (Dms.wrap360 (b + 180)).
  unfold finalBearingTo. cbn [instance bind]. rewrite E. cbn [bind].
  split; [exact E1|]. split; [reflexivity|]. split; [exact B1|]. split.
  - apply wrap360_is_bearing.
    unfold is_bearing in B. destruct b; try discriminate;
      [left; reflexivity | right; reflexivity].
  - intros H. split; [exact (N1 H)|].
    rewrite (equals_sym point this) in N.
    rewrite (N H). reflexivity.
Qed.

Lemma destinationPoint_valid this distance bearing radius :
  JS.defined (_lon this) ->
  valid_or_TypeError (destinationPoint M this distance bearing radius).
Proof.
  intros D. unfold destinationPoint. cbv zeta. apply new_valid.
  - apply toDegrees_defined, (Math.asin_range C).
  - apply toDegrees_defined, add_defined2;
      [apply toRadians_defined, D | apply (Math.atan2_range C)].
Qed.

Lemma midpointTo_valid this point :
  JS.defined (_lon this) -> valid_or_TypeError (midpointTo M this point).
Proof.
  intros D. unfold midpointTo.
  apply valid_or_TypeError_bind; [apply only_TypeError_to_instance|].
  intros q. cbv zeta. apply new_valid.
  - apply toDegrees_defined, (Math.atan2_range C).
  - apply toDegrees_defined, add_defined2;
      [apply toRadians_defined, D | apply (Math.atan2_range C)].
Qed.

Lemma intermediatePointTo_valid this point fraction :
  valid this = true ->
  valid_or_TypeError (intermediatePointTo M this point fraction).
Proof.
  intros V. unfold intermediatePointTo.
  apply valid_or_TypeError_bind; [apply only_TypeError_to_instance|].
  intros q. destruct (equals this q).
  - rewrite (@new_copy this V). split.
    + intros p [= <-]. exact V.
    + apply only_TypeError_Return.
  - cbv zeta. apply new_valid;
      apply toDegrees_defined, (Math.atan2_range C).
Qed.

(** From a valid point, [destinationPoint], [midpointTo] and
    [intermediatePointTo] return a point that satisfies the invariant, for
    every distance, bearing, radius, fraction and second point, whatever
    the host computes: a coordinate that comes out as NaN makes the
    constructor throw, and a TypeError is the only exception. *)
Theorem geodesy_points_valid (this : t) (point : pointlike)
  (fraction distance bearing radius : value) :
  valid this = true ->
  valid_or_TypeError (destinationPoint M this distance bearing radius)
  /\ valid_or_TypeError (midpointTo M this point)
  /\ valid_or_TypeError (intermediatePointTo M this point fraction).
Proof.
  intros V. destruct (valid_defined _ V) as [_ D]. split; [|split].
  - now apply destinationPoint_valid.
  - now apply midpointTo_valid.
  - now apply intermediatePointTo_valid.
Qed.

(** [getDestination] returns a valid point or throws a TypeError, and it
    throws one when the reference latitude or longitude does not parse. *)
Theorem getDestination_valid_or_TypeError
  (latStr lonStr disance trueBearing : value) :
  valid_or_TypeError (getDestination M latStr lonStr disance trueBearing)
  /\ (Dms.parse latStr = Return NaN \/ Dms.parse lonStr = Return NaN ->
      getDestination M latStr lonStr disance trueBearing = Throw TypeError).
Proof.
  unfold getDestination. split.
  - apply valid_or_TypeError_bind; [apply only_TypeError_Dms_parse|intros lat1].
    apply valid_or_TypeError_bind; [apply only_TypeError_Dms_parse|intros lon1].
    apply valid_or_TypeError_bind; [apply only_TypeError_Dms_parse|intros brng].
    destruct (new (VNum lat1) (VNum lon1)) as [p1|e] eqn:N.
    2:{ split; [discriminate|]. intros e' [= <-].
        exact (@only_TypeError_new _ _ e N). }
    cbn [bind].
    destruct (@destinationPoint_valid p1 disance (VNum brng) VUndefined
                (@new_lon_defined _ _ _ N)) as [V T].
    destruct (destinationPoint M p1 disance (VNum brng) VUndefined) as [p2|e].
    + cbn [bind]. destruct (finalBearingTo_total p1 p2) as (b & ->). cbn [bind].
      split; [|apply only_TypeError_Return].
      intros p [= <-]. apply V. reflexivity.
    + split; [discriminate|]. intros e' [= <-]. apply T. reflexivity.
  - pose proof Dms_parse_total as Tot.
    intros [-> | H].
    + destruct (Tot lonStr) as (lon1 & ->). destruct (Tot trueBearing) as (b & ->).
      reflexivity.
    + rewrite H. destruct (Tot latStr) as (lat1 & ->).
      destruct (Tot trueBearing) as (b & ->). cbn [bind]. rewrite new_VNum.
      destruct (JS.is_nan lat1); reflexivity.
Qed.

End GeodesyProperties.

(** Cambridge to Paris, the example of the source. *)
Lemma bearings_in_range_witness :
  exists b1 b2,
    initialBearingTo RefMath.lib (mk (dec 52.205) (dec 0.119))
      (Some (mk (dec 48.857) (dec 2.351))) = Return b1
    /\ finalBearingTo RefMath.lib (mk (dec 52.205) (dec 0.119))
         (Some (mk (dec 48.857) (dec 2.351))) = Return b2
    /\ is_bearing b1 = true /\ is_bearing b2 = true
    /\ (equals (mk (dec 52.205) (dec 0.119)) (mk (dec 48.857) (dec 2.351)) = true
        -> b1 = NaN /\ b2 = NaN).
Proof. apply (bearings_in_range RefMath_conforms). Defined.

(** The examples of the source: from (51.47788, -0.00147), 7794 metres on
    the bearing 300.7; and Cambridge to Paris. *)
Lemma geodesy_points_valid_witness :
  valid_or_TypeError
    (destinationPoint RefMath.lib (mk (dec 51.47788) (dec (-0.00147)))
       (VNum 7794) (VNum (dec 300.7)) VUndefined)
  /\ valid_or_TypeError
       (midpointTo RefMath.lib (mk (dec 51.47788) (dec (-0.00147)))
          (IsInstance (mk (dec 48.857) (dec 2.351))))
  /\ valid_or_TypeError
       (intermediatePointTo RefMath.lib (mk (dec 51.47788) (dec (-0.00147)))
          (IsInstance (mk (dec 48.857) (dec 2.351))) (VNum (dec 0.25))).
Proof.
  apply (@geodesy_points_valid RefMath.lib RefMath_conforms). reflexivity.
Defined.

(** The reference position of the application, 1000 metres due east. *)
Lemma getDestination_valid_or_TypeError_witness :
  valid_or_TypeError
    (getDestination RefMath.lib (VStr "34 42 09S") (VStr "138 37 15E")
       (VNum 1000) (VNum 90))
  /\ (Dms.parse (VStr "34 42 09S") = Return NaN
      \/ Dms.parse (VStr "138 37 15E") = Return NaN ->
      getDestination RefMath.lib (VStr "34 42 09S") (VStr "138 37 15E")
        (VNum 1000) (VNum 90) = Throw TypeError).
Proof. apply (getDestination_valid_or_TypeError RefMath_conforms). Defined.

Section RhumbProperties.

Variable M : Math.Lib.

(** The rhumb midpoint of two valid points: whatever the host's tangent
    and logarithm give, [rhumbMidpointTo] returns, without throwing, a valid
    point whose latitude is, in exact arithmetic, the mean of the two
    latitudes. *)
Theorem rhumbMidpointTo_mean_latitude (log : number -> number) (this point : t) :
  valid this = true -> valid point = true ->
  exists p, rhumbMidpointTo M log this (IsInstance point) = Return p
            /\ valid p = true
            /\ (_lat p * 2 == _lat this + _lat point) = true.
Proof.
  intros V1 V2.
  destruct (@valid_inv _ V1) as (a1 & b1 & -> & L1 & U1 & L1' & U1').
  destruct (@valid_inv _ V2) as (a2 & b2 & -> & L2 & U2 & L2' & U2').
  unfold rhumbMidpointTo. cbn [to_instance bind _lat _lon]. cbv zeta.
  set (λ1 := if _ : bool then _ else toRadians (Fin b1)).
  assert (F1 : JS.is_finite λ1 = true) by (subst λ1; destruct (_ > _); reflexivity).
  set (λ3 := JS.div _ (log _)).
  set (λ3' := if negb (JS.is_finite λ3) then _ else _).
  assert (F3 : JS.is_finite λ3' = true).
  { subst λ3'. destruct (JS.is_finite λ3) eqn:E; cbn [negb]; [exact E|].
    destruct λ1; try discriminate. reflexivity. }
  assert (Hlat : Is (toDegrees ((toRadians (Fin a1) + toRadians (Fin a2)) / 2))
                    ((a1 + a2) * (1#2))).
  { destruct (Is_toDegrees (a := (a1 * pi / 180 + a2 * pi / 180) / 2)
                (x := (toRadians (Fin a1) + toRadians (Fin a2)) / 2))
      as (q & Eq & Hq).
    - eapply Is_div; [eapply Is_add; apply Is_toRadians, Is_Fin | apply (Is_Fin 2) |].
      intros E; discriminate E.
    - exists q. split; [exact Eq|]. rewrite Hq. unfold pi. field. }
  rewrite new_VNum.
  destruct Hlat as (q & Eq & Hq). rewrite Eq. cbn [JS.is_nan].
  destruct (finite_Is (toDegrees λ3')) as (o & Ho).
  { destruct λ3'; try discriminate. reflexivity. }
  destruct Ho as (o' & Eo & Ho). rewrite Eo. cbn [JS.is_nan].
  eexists. split; [reflexivity|]. split.
  - rewrite valid_mk, (wrap90_in_range (Fin q) eq_refl),
      (wrap180_in_range (Fin o') eq_refl). reflexivity.
  - cbn [_lat].
    assert (Hq' : Is (Fin q) ((a1 + a2) * (1#2))) by (exists q; auto).
    rewrite (wrap90_id Hq') by lra.
    eapply Is_eqb; [eapply Is_mul; [exact Hq' | apply (Is_Fin 2)]
                   | eapply Is_add; apply Is_Fin |].
    ring.
Qed.

(** [crossingParallels] gives [null] for coincident points, and each
    longitude it returns is NaN or lies in [-180, 180]. *)
Theorem crossingParallels_longitudes (point1 point2 : t) (latitude : value) :
  (equals point1 point2 = true ->
   crossingParallels M point1 point2 latitude = None)
  /\ (forall lon1 lon2,
        crossingParallels M point1 point2 latitude = Some (lon1, lon2) ->
        is_longitude lon1 = true /\ is_longitude lon2 = true).
Proof.
  unfold crossingParallels. split.
  - intros ->. reflexivity.
  - intros lon1 lon2. destruct (equals point1 point2); [discriminate|].
    cbv zeta. destruct (_ > _); [discriminate|].
    intros [= <- <-]. split; apply wrap180_is_longitude.
Qed.

End RhumbProperties.

(** The example of the source: (51.127, 1.338) and (50.964, 1.853). *)
Lemma rhumbMidpointTo_mean_latitude_witness :
  exists p,
    rhumbMidpointTo RefMath.lib (fun x => x) (mk (dec 51.127) (dec 1.338))
      (IsInstance (mk (dec 50.964) (dec 1.853))) = Return p
    /\ valid p = true
    /\ (_lat p * 2 == _lat (mk (dec 51.127) (dec 1.338))
                      + _lat (mk (dec 50.964) (dec 1.853))) = true.
Proof.
  apply (@rhumbMidpointTo_mean_latitude RefMath.lib (fun x => x)); reflexivity.
Defined.

(** ** [LatLonSpherical.parse] *)

(** What [parse] does with the pair once it is wrapped. *)
Lemma parse_pair_new a b :
  bind (check_pair (VNum (Dms.wrap90 a), VNum (Dms.wrap180 b)))
       (fun ll => bind (check_pair ll) (fun '(lat, lon) => new lat lon))
  = new (VNum (Dms.wrap90 a)) (VNum (Dms.wrap180 b)).
Proof.
  rewrite new_VNum.
  assert (E : forall x y, check_pair (VNum x, VNum y)
                = if JS.is_nan x || JS.is_nan y then Throw TypeError
                  else Return (VNum x, VNum y)) by reflexivity.
  rewrite E.
  destruct (JS.is_nan (Dms.wrap90 a)) eqn:Na; [reflexivity|].
  destruct (JS.is_nan (Dms.wrap180 b)) eqn:Nb; [reflexivity|].
  cbn [orb bind]. rewrite E, Na, Nb.
  cbn [orb bind]. rewrite new_VNum, Na, Nb. reflexivity.
Qed.

Lemma parse_pair_valid lat lon :
  valid_or_TypeError
    (bind (bind (parse_pair lat lon) check_pair)
       (fun ll => bind (check_pair ll) (fun '(lat, lon) => new lat lon))).
Proof.
  unfold parse_pair.
  destruct (Dms_parse_total lat) as (a & ->).
  destruct (Dms_parse_total lon) as (b & ->).
  cbn [bind].
  change (valid_or_TypeError
    (bind (check_pair (VNum (Dms.wrap90 a), VNum (Dms.wrap180 b)))
       (fun ll => bind (check_pair ll) (fun '(lat, lon) => new lat lon)))).
  rewrite parse_pair_new. apply new_valid;
    [apply wrap90_out_defined | apply wrap180_out_defined].
Qed.

(** [LatLonSpherical.parse] throws nothing but a TypeError.  Called with
    primitive values, or with an object that is not a GeoJSON point, it
    returns a point that satisfies the invariant.  The coordinates of a
    GeoJSON point skip [Dms.parse] and are only tested with [isNaN]: an
    infinite one is accepted, and the point returned holds NaN. *)
Theorem parse_valid_or_TypeError :
  (forall args, valid_or_TypeError (parse (Args args)))
  /\ (forall ll, is_GeoJSON ll = false -> valid_or_TypeError (parse (Literal ll)))
  /\ (forall ll, only_TypeError (parse (Literal ll)))
  /\ parse (Literal infinite_GeoJSON) = Return (mk NaN 0).
Proof.
  split; [|split; [|split]].
  - intros [|a0 rest]; unfold parse.
    + split; [discriminate | apply only_TypeError_Throw].
    + destruct (_ || _);
        [split; [discriminate | apply only_TypeError_Throw]|].
      assert (U : valid_or_TypeError
                    (bind (Return (VUndefined, VUndefined))
                       (fun ll => bind (check_pair ll)
                                    (fun '(lat, lon) => new lat lon)))).
      { split; [discriminate | apply only_TypeError_Throw]. }
      destruct rest as [|a1 [|a2 rest]].
      * destruct a0; try exact U. apply parse_pair_valid.
      * apply parse_pair_valid.
      * exact U.
  - intros ll G. unfold parse. rewrite G. apply parse_pair_valid.
  - intros ll. apply only_TypeError_parse.
  - vm_compute. reflexivity.
Qed.

Lemma parse_numbers (lat lon : number) :
  parse (Args [VNum lat; VNum lon])
  = if JS.is_finite lat && JS.is_finite lon
    then new (VNum lat) (VNum lon)
    else Throw TypeError.
Proof.
  unfold parse, parse_pair.
  assert (P : forall x, Dms.parse (VNum x)
                        = Return (if JS.is_finite x then x else NaN)).
  { intros [| | |q]; [| | |reflexivity]; vm_compute; reflexivity. }
  rewrite !P. cbn [orb bind].
  change (bind (check_pair (VNum (Dms.wrap90 (if JS.is_finite lat then lat else NaN)),
                            VNum (Dms.wrap180 (if JS.is_finite lon then lon else NaN))))
            (fun ll => bind (check_pair ll) (fun '(lat, lon) => new lat lon))
          = if JS.is_finite lat && JS.is_finite lon then new (VNum lat) (VNum lon)
            else Throw TypeError).
  rewrite parse_pair_new, !new_VNum.
  destruct lat as [| | |a]; try reflexivity;
    destruct lon as [| | |b]; cbn [JS.is_finite andb];
    try (destruct (JS.is_nan (Dms.wrap90 (Fin a))); reflexivity).
  destruct (@wrap90_range (Fin a) eq_refl) as (r & (a' & Ea & _) & _).
  destruct (@wrap180_range (Fin b) eq_refl) as (r' & (b' & Eb & _) & _).
  rewrite wrap90_wrap90, wrap180_wrap180, Ea, Eb. reflexivity.
Qed.

(** On two numbers [parse] is the constructor when the latitude is finite
    and the longitude of magnitude at most [Number.MAX_VALUE / 360], the
    wrapping done twice being the wrapping done once; on a NaN or an
    infinite one it throws a TypeError, where the constructor stores NaN
    for an infinity. *)
Theorem parse_numbers_is_constructor (lat lon : number) :
  (JS.is_finite lat = true -> Dms.no_overflow lon = true ->
   parse (Args [VNum lat; VNum lon]) = new (VNum lat) (VNum lon)
   /\ new (VNum lat) (VNum lon)
      = Return (mk (Dms.wrap90 lat) (Dms.wrap180 lon)))
  /\ (JS.is_finite lat && JS.is_finite lon = false ->
      parse (Args [VNum lat; VNum lon]) = Throw TypeError)
  /\ new (VNum PInf) (VNum 0) = Return (mk NaN 0).
Proof.
  split; [|split].
  - intros Flat Flon. apply no_overflow_finite in Flon.
    rewrite parse_numbers, Flat, Flon. split; [reflexivity|].
    rewrite new_VNum. destruct lat; try discriminate.
    destruct lon; try discriminate. reflexivity.
  - intros F. now rewrite parse_numbers, F.
  - reflexivity.
Qed.

End PointProperties.

(** ** The formatters and their decimals *)

Section FormatterProperties.

Local Open Scope string_scope.

Lemma toFixed_ok x dp : dp_ok dp = true -> exists s, toFixed x dp = Return s.
Proof.
  unfold dp_ok, toFixed. destruct (ToNumber dp) as [| | |q]; try discriminate.
  - intros _. cbn [Z.ltb Z.compare orb].
    destruct x as [| | |a]; try (eexists; reflexivity).
    destruct (Qle_bool _ _); eexists; reflexivity.
  - intros H. apply andb_true_iff in H as [L U].
    apply Z.leb_le in L, U.
    destruct (Z.ltb_spec (JS.Qtrunc q) 0); [lia|].
    destruct (Z.ltb_spec 100 (JS.Qtrunc q)); [lia|]. cbn [orb].
    destruct x as [| | |a]; try (eexists; reflexivity).
    destruct (Qle_bool _ _); eexists; reflexivity.
Qed.

Lemma toFixed_bad x dp : dp_ok dp = false -> toFixed x dp = Throw RangeError.
Proof.
  unfold dp_ok, toFixed. destruct (ToNumber dp) as [| | |q]; try discriminate;
    try reflexivity.
  intros H. apply andb_false_iff in H as [H|H]; apply Z.leb_gt in H.
  - destruct (Z.ltb_spec (JS.Qtrunc q) 0); [reflexivity|lia].
  - destruct (Z.ltb_spec 100 (JS.Qtrunc q)); [|lia]. now rewrite orb_true_r.
Qed.

Lemma only_RangeError_Return (A : Type) (a : A) : only_RangeError (Return a).
Proof. intros e H. discriminate. Qed.

Lemma only_RangeError_bind (A B : Type) (r : result A) (k : A -> result B) :
  only_RangeError r -> (forall a, only_RangeError (k a)) -> only_RangeError (bind r k).
Proof.
  intros Hr Hk e. destruct r as [a|e']; cbn.
  - apply Hk.
  - intros [= <-]. apply Hr. reflexivity.
Qed.

Lemma only_RangeError_toFixed x dp : only_RangeError (toFixed x dp).
Proof.
  intros e H. destruct (dp_ok dp) eqn:E.
  - destruct (toFixed_ok x dp E) as (s & Hs). congruence.
  - rewrite (@toFixed_bad x dp E) in H. congruence.
Qed.

Variable sep : string.

Lemma filled_ok format dp :
  dp_ok dp = true -> dp_ok (snd (Dms.filled format dp)) = true.
Proof.
  intros H. destruct dp; try exact H. unfold Dms.filled, Dms.defaults.
  repeat (destruct (_ || _); [reflexivity|]). reflexivity.
Qed.

Lemma filled_bad format dp :
  dp_ok dp = false -> Dms.filled format dp = (format, dp).
Proof. destruct dp; try reflexivity. discriminate. Qed.

Lemma toDms_cases deg format dp :
  Dms.toDms sep deg format dp = Return None
  \/ Dms.toDms sep deg format dp
     = Dms.format_number sep (ToNumber deg)
         (Dms.filled (match format with Some f => f | None => "d" end) dp).
Proof.
  unfold Dms.toDms.
  repeat match goal with
         | |- (if ?c then _ else _) = _ \/ _ => destruct c; [left; reflexivity|]
         end.
  right. reflexivity.
Qed.

Lemma toDms_Fin q format dp :
  Dms.toDms sep (VNum (Fin q)) format dp
  = Dms.format_number sep (Fin q)
      (Dms.filled (match format with Some f => f | None => "d" end) dp).
Proof. reflexivity. Qed.

Lemma format_number_ok x fd : dp_ok (snd fd) = true ->
  exists s, Dms.format_number sep x fd = Return (Some s).
Proof.
  destruct fd as [f dp]. cbn [snd]. intros H. unfold Dms.format_number.
  destruct (Dms.style_of f).
  - destruct (toFixed_ok (Math.abs x) dp H) as (s & ->). cbn [bind]. eauto.
  - match goal with |- context [toFixed ?y dp] =>
      destruct (toFixed_ok y dp H) as (m & ->) end. cbn [bind].
    destruct (_ == _)%js.
    + destruct (toFixed_ok 0%js dp H) as (z & ->). cbn [bind]. eauto.
    + cbn [bind]. eauto.
  - match goal with |- context [toFixed ?y dp] =>
      destruct (toFixed_ok y dp H) as (m & ->) end. cbn [bind].
    destruct (StringToNumber m == 60)%js.
    + destruct (toFixed_ok 0%js dp H) as (z & ->). cbn [bind].
      destruct (_ == _)%js; eauto.
    + cbn [bind]. destruct (_ == _)%js; eauto.
Qed.

Lemma format_number_bad x f dp : dp_ok dp = false ->
  Dms.format_number sep x (f, dp) = Throw RangeError.
Proof.
  intros H. unfold Dms.format_number.
  destruct (Dms.style_of f); rewrite toFixed_bad by exact H; reflexivity.
Qed.

Lemma only_RangeError_format_number x fd :
  only_RangeError (Dms.format_number sep x fd).
Proof.
  intros e H. destruct fd as [f dp]. destruct (dp_ok dp) eqn:E.
  - destruct (@format_number_ok x (f, dp) E) as (s & Hs). congruence.
  - rewrite (@format_number_bad x f dp E) in H. congruence.
Qed.

Lemma toDms_ok deg format dp : dp_ok dp = true ->
  exists r, Dms.toDms sep deg format dp = Return r.
Proof.
  intros H. destruct (toDms_cases deg format dp) as [-> | ->]; [eauto|].
  destruct (@format_number_ok (ToNumber deg)
              (Dms.filled (match format with Some f => f | None => "d" end) dp))
    as (s & ->); [now apply filled_ok | eauto].
Qed.

Lemma only_RangeError_toDms deg format dp :
  only_RangeError (Dms.toDms sep deg format dp).
Proof.
  destruct (toDms_cases deg format dp) as [-> | ->]; [discriminate|].
  apply only_RangeError_format_number.
Qed.

Lemma toDms_Fin_ok q format dp : dp_ok dp = true ->
  exists s, Dms.toDms sep (VNum (Fin q)) format dp = Return (Some s).
Proof.
  intros H. rewrite toDms_Fin. apply format_number_ok. now apply filled_ok.
Qed.

Lemma toDms_Fin_bad q format dp : dp_ok dp = false ->
  Dms.toDms sep (VNum (Fin q)) format dp = Throw RangeError.
Proof.
  intros H. rewrite toDms_Fin, (filled_bad _ _ H). now apply format_number_bad.
Qed.

Lemma wrap_Fin q :
  (exists r, Dms.wrap90 (Fin q) = Fin r)
  /\ (exists r, Dms.wrap180 (Fin q) = Fin r)
  /\ (exists r, Dms.wrap360 (Fin q) = Fin r).
Proof.
  destruct (@wrap90_range (Fin q) eq_refl) as (? & (a & Ea & _) & _).
  destruct (@wrap180_range (Fin q) eq_refl) as (? & (b & Eb & _) & _).
  destruct (@wrap360_range (Fin q) eq_refl) as (? & (c & Ec & _) & _).
  split; [|split]; eexists; eassumption.
Qed.

(** On a finite number [toDms] returns a text, and [toLat] the text of
    the wrapped value less its first character, with the separator and the
    letter; on a number of magnitude at most [Number.MAX_VALUE / 360]
    [toLon] returns the text of the wrapped value with the separator and
    the letter, and [toBrng] that text with the first 360 replaced by 0:
    none returns the placeholder of an absent value.  This is so when the
    decimal places are omitted or truncate to an integer from 0 to 100; for
    any other decimal places the four throw the RangeError of [toFixed], in
    every style. *)
Theorem formatters_throw_on_bad_decimals (q : Q) (format : option string)
  (dp : value) :
  (dp_ok dp = true ->
   (exists s, Dms.toDms sep (VNum (Fin q)) format dp = Return (Some s))
   /\ (exists s,
         Dms.toDms sep (VNum (Dms.wrap90 (Fin q))) format dp = Return (Some s)
         /\ Dms.toLat sep (Fin q) format dp
            = Return (Str.slice 1 s ++ sep ++ (if (Fin q < 0)%js then "S" else "N")))
   /\ (Dms.no_overflow (Fin q) = true ->
       (exists s,
          Dms.toDms sep (VNum (Dms.wrap180 (Fin q))) format dp = Return (Some s)
          /\ Dms.toLon sep (Fin q) format dp
             = Return (s ++ sep ++ (if (Fin q < 0)%js then "W" else "E")))
       /\ (exists s,
             Dms.toDms sep (VNum (Dms.wrap360 (Fin q))) format dp = Return (Some s)
             /\ Dms.toBrng sep (Fin q) format dp
                = Return (Str.replace "360" "0" s))))
  /\ (dp_ok dp = false ->
      Dms.toDms sep (VNum (Fin q)) format dp = Throw RangeError
      /\ Dms.toLat sep (Fin q) format dp = Throw RangeError
      /\ (Dms.no_overflow (Fin q) = true ->
          Dms.toLon sep (Fin q) format dp = Throw RangeError
          /\ Dms.toBrng sep (Fin q) format dp = Throw RangeError)).
Proof.
  destruct (wrap_Fin q) as ((a & Ea) & (b & Eb) & (c & Ec)).
  unfold Dms.toLat, Dms.toLon, Dms.toBrng. rewrite Ea, Eb, Ec.
  split; intros H.
  - destruct (toDms_Fin_ok q format dp H) as (s & Hs).
    destruct (toDms_Fin_ok a format dp H) as (sa & Ha).
    destruct (toDms_Fin_ok b format dp H) as (sb & Hb).
    destruct (toDms_Fin_ok c format dp H) as (sc & Hc).
    rewrite Ha, Hb, Hc. cbn [bind].
    split; [eauto|]. split; [eauto|]. intros _. split; eauto.
  - rewrite !toDms_Fin_bad by exact H. auto.
Qed.

Lemma toLat_ok x format dp : dp_ok dp = true ->
  exists s, Dms.toLat sep x format dp = Return s.
Proof.
  intros H. unfold Dms.toLat.
  destruct (@toDms_ok (VNum (Dms.wrap90 x)) format dp H) as (r & ->).
  cbn [bind]. eauto.
Qed.

Lemma toLon_ok x format dp : dp_ok dp = true ->
  exists s, Dms.toLon sep x format dp = Return s.
Proof.
  intros H. unfold Dms.toLon.
  destruct (@toDms_ok (VNum (Dms.wrap180 x)) format dp H) as (r & ->).
  cbn [bind]. eauto.
Qed.

(** [toString] of a point throws a RangeError for a style that is none of
    d, dm, dms and n; for one of these it returns a text whenever the
    decimal places are acceptable to [toFixed]; and a RangeError is the
    only exception it throws. *)
Theorem toString_outcomes (this : t) (format : option string) (dp : value) :
  (toString_style format = false ->
   LatLonSpherical.toString sep this format dp = Throw RangeError)
  /\ (toString_style format = true -> dp_ok dp = true ->
      exists s, LatLonSpherical.toString sep this format dp = Return s)
  /\ only_RangeError (LatLonSpherical.toString sep this format dp).
Proof.
  unfold toString_style, LatLonSpherical.toString.
  set (f := match format with Some f => f | None => "d" end).
  destruct (existsb (String.eqb f) ["d"; "dm"; "dms"; "n"]) eqn:E; cbn [negb].
  - split; [discriminate|]. split.
    + intros _ H. destruct (String.eqb f "n").
      * assert (H' : dp_ok (if is_given dp then dp else VNum 4) = true).
        { destruct dp; try exact H; reflexivity. }
        destruct (toFixed_ok (_lat this) _ H') as (a & ->).
        destruct (toFixed_ok (_lon this) _ H') as (b & ->). cbn [bind]. eauto.
      * destruct (@toLat_ok (_lat this) (Some f) dp H) as (a & ->).
        destruct (@toLon_ok (_lon this) (Some f) dp H) as (b & ->).
        cbn [bind]. eauto.
    + destruct (String.eqb f "n").
      * apply only_RangeError_bind; [apply only_RangeError_toFixed|intros a].
        apply only_RangeError_bind; [apply only_RangeError_toFixed|intros b].
        apply only_RangeError_Return.
      * apply only_RangeError_bind.
        { unfold Dms.toLat. apply only_RangeError_bind;
            [apply only_RangeError_toDms | intros; apply only_RangeError_Return]. }
        intros a. apply only_RangeError_bind.
        { unfold Dms.toLon. apply only_RangeError_bind;
            [apply only_RangeError_toDms | intros; apply only_RangeError_Return]. }
        intros b. apply only_RangeError_Return.
  - split; [reflexivity|]. split; [discriminate|].
    intros e [= <-]. reflexivity.
Qed.

End FormatterProperties.

(** ** The wrap functions keep the direction *)

(** The true modulo differs from its argument by a multiple of the period. *)
Lemma modulo_congruent x p a b : Is x a -> Is p b -> 0 < b ->
  exists r k, Is (((x %% p) + p) %% p)%js r
              /\ 0 <= r /\ r < b /\ r == a - b * inject_Z k.
Proof.
  intros (a' & -> & Ha) (p' & -> & Hp) Hb.
  assert (Hp' : 0 < p') by (rewrite Hp; exact Hb).
  assert (Hn : ~ p' == 0) by lra.
  rewrite (rem_Fin a' Hn). simpl JS.add. rewrite rem_Fin by exact Hn.
  destruct (Qrem_bound a' Hp') as [L U].
  set (y := Qred (Qred (Qrem a' p') + p')).
  assert (Ey : y == Qrem a' p' + p') by (unfold y; now rewrite !Qred_correct).
  assert (H0 : 0 <= y) by lra.
  destruct (Qrem_nonneg Hp' H0) as [L2 U2].
  exists (Qrem y p'), (JS.Qtrunc (a' / p') - 1 + JS.Qtrunc (y / p'))%Z.
  split; [eexists; split; [reflexivity | apply Qred_correct]|].
  split; [exact L2|]. split; [lra|].
  clear L U L2 U2 H0. unfold Qrem in Ey |- *.
  generalize dependent (JS.Qtrunc (y / p')).
  generalize dependent (JS.Qtrunc (a' / p')).
  intros k1 Ey k2.
  unfold Zminus. rewrite !inject_Z_plus, inject_Z_opp, Ey, <- Ha, <- Hp.
  change (inject_Z 1) with 1. ring.
Qed.

(** In exact arithmetic a wrapped angle is the same direction as the
    angle. *)
Lemma wrap_congruent (q : Q) :
  (exists r k, Dms.wrap360 (Fin q) = Fin r /\ r == q - 360 * inject_Z k)
  /\ (exists r k, Dms.wrap180 (Fin q) = Fin r /\ r == q - 360 * inject_Z k)
  /\ (exists r k, Dms.wrap90 (Fin q) = Fin r
                  /\ (r == q - 360 * inject_Z k
                      \/ r == 180 - (q - 360 * inject_Z k))).
Proof.
  split; [|split].
  - unfold Dms.wrap360. destruct (_ && _).
    + exists q, 0%Z. split; [reflexivity|]. change (inject_Z 0) with 0. ring.
    + cbv zeta.
      destruct (@modulo_congruent (2 * 180 * Fin q / 360)%js 360%js q 360)
        as (r & k & (r' & E & Hr) & _ & _ & Hk).
      * destruct (@Is_div (2 * 180 * Fin q)%js 360%js (2 * 180 * q) 360)
          as (z & Ez & Hz); [is_arith | apply Is_Fin | discriminate |].
        exists z. split; [exact Ez|]. rewrite Hz. field.
      * apply Is_Fin.
      * reflexivity.
      * exists r', k. split; [exact E|]. now rewrite Hr.
  - unfold Dms.wrap180. destruct (_ && _).
    + exists q, 0%Z. split; [reflexivity|]. change (inject_Z 0) with 0. ring.
    + cbv zeta.
      destruct (@modulo_congruent (2 * 180 * Fin q / 360 - 360 / 2)%js 360%js
                  (q - 180) 360)
        as (r & k & Hr & _ & _ & Hk).
      * destruct (@Is_sub (2 * 180 * Fin q / 360)%js (360 / 2)%js
                    (2 * 180 * q / 360) 180) as (z & Ez & Hz).
        { is_arith. discriminate. }
        { apply Is_Fin. }
        exists z. split; [exact Ez|]. rewrite Hz. field.
      * apply Is_Fin.
      * reflexivity.
      * destruct (@Is_sub _ 180%js _ 180 Hr (Is_Fin 180)) as (z & Ez & Hz).
        exists z, (k + 1)%Z. split; [exact Ez|].
        rewrite Hz, Hk, inject_Z_plus. change (inject_Z 1) with 1. ring.
  - unfold Dms.wrap90. destruct (_ && _).
    + exists q, 0%Z. split; [reflexivity|]. left. change (inject_Z 0) with 0. ring.
    + cbv zeta.
      destruct (@modulo_congruent (Fin q - 360 / 4)%js 360%js (q - 90) 360)
        as (r & k & Hr & L & U & Hk).
      * destruct (@Is_sub (Fin q) (360 / 4)%js q 90) as (z & Ez & Hz);
          [apply Is_Fin | apply Is_Fin |].
        exists z. split; [exact Ez | exact Hz].
      * apply Is_Fin.
      * reflexivity.
      * assert (H : Is (4 * 90 / 360
                        * Math.abs (((Fin q - 360 / 4) %% 360 + 360) %% 360 - 360 / 2)
                        - 90)%js
                       (1 * Qabs (r - 180) - 90)).
        { eapply Is_sub; [eapply Is_mul; [apply (Is_Fin 1) | apply Is_abs;
            eapply Is_sub; [exact Hr | apply (Is_Fin 180)]] | apply (Is_Fin 90)]. }
        destruct H as (z & Ez & Hz).
        destruct (Qlt_le_dec r 180) as [Lt | Ge].
        -- exists z, k. split; [exact Ez|]. right. rewrite Hz.
           rewrite Qabs_neg by lra. rewrite Hk. ring.
        -- exists z, (k + 1)%Z. split; [exact Ez|]. left. rewrite Hz.
           rewrite Qabs_pos by lra. rewrite Hk, inject_Z_plus.
           change (inject_Z 1) with 1. ring.
Qed.

(** A wrapped angle is the same direction as the angle.  On a whole number
    of degrees of magnitude at most 10^13, on which every operation of the
    three functions is exact in binary64, [wrap360] and [wrap180] change
    the value by a whole number of turns, and [wrap90] gives, up to whole
    turns, the value or its reflection [180 - value], the latitude of the
    same point. *)
Theorem wrap_same_direction (z : Z) :
  (Z.abs z <= 10 ^ 13)%Z ->
  let q := inject_Z z in
  (exists r k, Dms.wrap360 (JS.int z) = Fin r /\ r == q - 360 * inject_Z k)
  /\ (exists r k, Dms.wrap180 (JS.int z) = Fin r /\ r == q - 360 * inject_Z k)
  /\ (exists r k, Dms.wrap90 (JS.int z) = Fin r
                  /\ (r == q - 360 * inject_Z k
                      \/ r == 180 - (q - 360 * inject_Z k))).
Proof. intros _. exact (wrap_congruent (inject_Z z)). Qed.

(** 361 degrees: the bearing 1, the longitude 1 and the latitude 1. *)
Lemma wrap_same_direction_witness :
  (exists r k, Dms.wrap360 (JS.int 361) = Fin r /\ r == 361 - 360 * inject_Z k)
  /\ (exists r k, Dms.wrap180 (JS.int 361) = Fin r /\ r == 361 - 360 * inject_Z k)
  /\ (exists r k, Dms.wrap90 (JS.int 361) = Fin r
                  /\ (r == 361 - 360 * inject_Z k
                      \/ r == 180 - (361 - 360 * inject_Z k))).
Proof. apply (@wrap_same_direction 361). vm_compute. discriminate. Defined.

(** ** The nearest compass point *)

(** [Math.round] gives the integer within a half of its argument. *)
Lemma round_near x a : Is x a ->
  exists z, Math.round x = JS.int z
            /\ inject_Z z <= a + (1#2) /\ a + (1#2) < inject_Z z + 1.
Proof.
  intros (q & -> & Hq). exists (Qfloor (q + (1#2))). split; [reflexivity|].
  pose proof (Qfloor_le (q + (1#2))) as F1.
  pose proof (Qlt_floor (q + (1#2))) as F2.
  rewrite inject_Z_plus in F2. change (inject_Z 1) with 1 in F2.
  rewrite <- Hq. split; assumption.
Qed.

(** In exact arithmetic [compassPoint] names the compass point nearest to
    the bearing. *)
Lemma compassPoint_near (b : Q) (precision : number) :
  In precision [1; 2; 3]%js ->
  exists (n i : Z) (r : Q) (name : string),
    (4 * 2 ** (precision - 1))%js = JS.int n
    /\ Is (Dms.wrap360 (Fin b)) r
    /\ Dms.compassIndex (Dms.wrap360 (Fin b)) (JS.int n) = JS.int i
    /\ nth_error Dms.cardinals (Z.to_nat i) = Some name
    /\ Dms.compassPoint (Fin b) (VNum precision) = Return (Some name)
    /\ (Qabs (r - inject_Z i * (45#2)) * inject_Z n <= 180
        \/ (i = 0%Z /\ (360 - r) * inject_Z n <= 180)).
Proof.
  intros Hp.
  assert (C : exists n : Z, (n = 4 \/ n = 8 \/ n = 16)%Z
              /\ (4 * 2 ** (precision - 1))%js = JS.int n
              /\ existsb (JS.eqb (Number (VNum precision))) [1; 2; 3]%js = true).
  { destruct Hp as [ <- | [ <- | [ <- | [] ] ] ];
      [exists 4%Z | exists 8%Z | exists 16%Z]; repeat split; auto. }
  destruct C as (n & Hn & En & G).
  destruct (wrap360_range (Fin b) eq_refl) as (r & Hr & L & U).
  exists n.
  unfold Dms.compassPoint. rewrite G. cbn [negb ToNumber]. rewrite En.
  unfold Dms.compassIndex.
  assert (N : 0 < inject_Z n).
  { unfold Qlt, inject_Z; simpl. lia. }
  assert (Ha : Is (Dms.wrap360 (Fin b) * JS.int n / 360)%js (r * inject_Z n / 360)).
  { is_arith. discriminate. }
  destruct (round_near Ha) as (z & -> & H1 & H2).
  assert (E : r * inject_Z n / 360 * 360 == r * inject_Z n) by field.
  set (c := r * inject_Z n / 360) in *. clearbody c.
  assert (Hz : (0 <= z <= n)%Z).
  { assert (B1 : inject_Z z < inject_Z n + 1) by nra.
    assert (B2 : -1 < inject_Z z) by nra.
    unfold Qlt, Qplus, Qopp, inject_Z in B1, B2. simpl in B1, B2. lia. }
  assert (Z16 : In z [0; 1; 2; 3; 4; 5; 6; 7; 8; 9; 10; 11; 12; 13; 14; 15; 16]%Z).
  { simpl. lia. }
  clear G En Ha N.
  destruct Hn as [ -> | [ -> | -> ] ];
    repeat (destruct Z16 as [ <- | Z16 ];
            [first
               [ lia
               | eexists; exists r; eexists;
                 split; [reflexivity|]; split; [exact Hr|];
                 split; [vm_compute; reflexivity|];
                 split; [vm_compute; reflexivity|];
                 split; [vm_compute; reflexivity|];
                 unfold inject_Z in *;
                 first [ left; apply Qabs_case; intros; lra
                       | right; split; [reflexivity | lra] ] ] |]);
    destruct Z16.
Qed.

(** [compassPoint] names the compass point nearest to the bearing, for a
    bearing that is a whole number of degrees of magnitude at most 10^13,
    on which the wrapping and the index are computed exactly in binary64.
    With [n] points at the precision asked for (4, 8 or 16), the point
    returned is entry [i] of the 16 cardinals, and its direction, [i]
    times 22.5 degrees, is within half a sector, 180/n degrees, of the
    bearing wrapped into [0, 360); north is also returned for the half
    sector below 360. *)
Theorem compassPoint_nearest (b : Z) (precision : number) :
  (Z.abs b <= 10 ^ 13)%Z ->
  In precision [1; 2; 3]%js ->
  exists (n i : Z) (r : Q) (name : string),
    (4 * 2 ** (precision - 1))%js = JS.int n
    /\ Is (Dms.wrap360 (JS.int b)) r
    /\ Dms.compassIndex (Dms.wrap360 (JS.int b)) (JS.int n) = JS.int i
    /\ nth_error Dms.cardinals (Z.to_nat i) = Some name
    /\ Dms.compassPoint (JS.int b) (VNum precision) = Return (Some name)
    /\ (Qabs (r - inject_Z i * (45#2)) * inject_Z n <= 180
        \/ (i = 0%Z /\ (360 - r) * inject_Z n <= 180)).
Proof. intros _. exact (@compassPoint_near (inject_Z b) precision). Qed.

(** The bearing 24 at precision 3, the example of the source. *)
Lemma compassPoint_nearest_witness :
  exists (n i : Z) (r : Q) (name : string),
    (4 * 2 ** (3 - 1))%js = JS.int n
    /\ Is (Dms.wrap360 (JS.int 24)) r
    /\ Dms.compassIndex (Dms.wrap360 (JS.int 24)) (JS.int n) = JS.int i
    /\ nth_error Dms.cardinals (Z.to_nat i) = Some name
    /\ Dms.compassPoint (JS.int 24) (VNum 3) = Return (Some name)
    /\ (Qabs (r - inject_Z i * (45#2)) * inject_Z n <= 180
        \/ (i = 0%Z /\ (360 - r) * inject_Z n <= 180)).
Proof.
  apply (@compassPoint_nearest 24 3%js); [vm_compute; discriminate | simpl; auto].
Defined.

(** ** Printing a number and reading it back *)

(** The cases of a character, bit by bit. *)
Ltac bits c := destruct c as [[|] [|] [|] [|] [|] [|] [|] [|]].

Section Digits.

Local Open Scope string_scope.

Lemma append_nil_r s : s ++ "" = s.
Proof. induction s as [|c s IH]; cbn; [reflexivity | now rewrite IH]. Qed.

Lemma append_assoc (a b c : string) : (a ++ b) ++ c = a ++ (b ++ c).
Proof. induction a as [|x a IH]; cbn; [reflexivity | now rewrite IH]. Qed.

Lemma length_append (a b : string) :
  String.length (a ++ b) = (String.length a + String.length b)%nat.
Proof. induction a as [|x a IH]; cbn; [reflexivity | now rewrite IH]. Qed.

Lemma all_append p a b : Str.all p (a ++ b) = Str.all p a && Str.all p b.
Proof.
  induction a as [|x a IH]; cbn; [reflexivity|]. now rewrite IH, andb_assoc.
Qed.

(** Reading a run of digits. *)
Lemma take_digits_acc a : Str.all Str.is_digit a = true ->
  forall acc n,
    Str.take_digits a acc n
    = ((acc * 10 ^ Z.of_nat (String.length a) + Str.digits_value a)%Z,
       (n + String.length a)%nat, "").
Proof.
  unfold Str.digits_value.
  induction a as [|c a IH]; intros H acc n.
  - cbn. rewrite Z.mul_1_r, Z.add_0_r, Nat.add_0_r. reflexivity.
  - cbn in H. apply andb_true_iff in H as [Hc Ha].
    cbn [Str.take_digits String.length]. rewrite Hc.
    rewrite (IH Ha (10 * 0 + Str.digit_val c)%Z 1%nat). cbn [fst].
    rewrite (IH Ha). f_equal. f_equal; [|lia].
    rewrite Nat2Z.inj_succ, Z.pow_succ_r by lia. ring.
Qed.

Lemma take_digits_run a : Str.all Str.is_digit a = true ->
  forall r acc n,
    Str.take_digits (a ++ r) acc n
    = Str.take_digits r (acc * 10 ^ Z.of_nat (String.length a) + Str.digits_value a)%Z
        (n + String.length a)%nat.
Proof.
  induction a as [|c a IH]; intros H r acc n.
  - cbn. f_equal; [unfold Str.digits_value; cbn; lia | lia].
  - pose proof (take_digits_acc _ H 0%Z 0%nat) as E.
    cbn in H. apply andb_true_iff in H as [Hc Ha].
    cbn [append Str.take_digits String.length] in *. rewrite Hc in *.
    rewrite (IH Ha r).
    rewrite (take_digits_acc _ Ha) in E.
    assert (V : Str.digits_value (String c a)
                = ((10 * 0 + Str.digit_val c) * 10 ^ Z.of_nat (String.length a)
                   + Str.digits_value a)%Z).
    { unfold Str.digits_value at 1. cbn [Str.take_digits]. rewrite Hc.
      rewrite (take_digits_acc _ Ha). reflexivity. }
    rewrite V. f_equal; [|lia].
    rewrite Nat2Z.inj_succ, Z.pow_succ_r by lia. ring.
Qed.

Lemma take_digits_stop r acc n :
  match r with String c _ => Str.is_digit c = false | EmptyString => True end ->
  Str.take_digits r acc n = (acc, n, r).
Proof. destruct r as [|c r]; cbn; [reflexivity|]. now intros ->. Qed.

Lemma digits_value_append a b :
  Str.all Str.is_digit a = true -> Str.all Str.is_digit b = true ->
  Str.digits_value (a ++ b)
  = (Str.digits_value a * 10 ^ Z.of_nat (String.length b) + Str.digits_value b)%Z.
Proof.
  intros Ha Hb. unfold Str.digits_value at 1.
  rewrite (take_digits_run _ Ha b), (take_digits_acc _ Hb). cbn [fst]. ring.
Qed.

Lemma all_zeros k : Str.all Str.is_digit (Str.zeros k) = true.
Proof. induction k as [|k IH]; cbn; [reflexivity | exact IH]. Qed.

Lemma length_zeros k : String.length (Str.zeros k) = k.
Proof. induction k as [|k IH]; cbn; [reflexivity | now rewrite IH]. Qed.

Lemma digits_value_zeros k : Str.digits_value (Str.zeros k) = 0%Z.
Proof.
  induction k as [|k IH]; [reflexivity|].
  change (Str.zeros (S k)) with ("0" ++ Str.zeros k).
  rewrite digits_value_append by (try apply all_zeros; reflexivity).
  rewrite IH. reflexivity.
Qed.

(** The decimal digits of a natural number. *)
Lemma all_uint d : Str.all Str.is_digit (NilEmpty.string_of_uint d) = true.
Proof. induction d; cbn; auto. Qed.

Lemma take_digits_uint d : forall acc n,
  Str.take_digits (NilEmpty.string_of_uint d) (Zpos acc) n
  = (Zpos (Pos.of_uint_acc d acc),
     (n + String.length (NilEmpty.string_of_uint d))%nat, "").
Proof.
  induction d; intros acc n;
    cbn [NilEmpty.string_of_uint Str.take_digits Pos.of_uint_acc String.length];
    [rewrite Nat.add_0_r; reflexivity|..];
    change (Str.is_digit _) with true; cbv iota;
    rewrite <- Nat.add_succ_comm, <- IHd; f_equal;
    match goal with
    | |- context [Str.digit_val ?c] =>
        let v := eval vm_compute in (Str.digit_val c) in
        change (Str.digit_val c) with v
    end; lia.
Qed.

Lemma digits_value_uint d :
  Str.digits_value (NilEmpty.string_of_uint d) = Z.of_N (Pos.of_uint d).
Proof.
  induction d; [reflexivity|..];
    unfold Str.digits_value;
    cbn [NilEmpty.string_of_uint Str.take_digits Pos.of_uint];
    change (Str.is_digit _) with true; cbv iota;
    match goal with
    | |- fst (fst (Str.take_digits _ ?k _)) = _ =>
        let k' := eval vm_compute in k in change k with k'
    end;
    [rewrite (take_digits_acc _ (all_uint d)); cbn [fst]; rewrite <- IHd; reflexivity
    | rewrite take_digits_uint; reflexivity ..].
Qed.

Lemma of_Z_digits z : (0 <= z)%Z ->
  Str.all Str.is_digit (Str.of_Z z) = true
  /\ Str.digits_value (Str.of_Z z) = z
  /\ (1 <= String.length (Str.of_Z z))%nat.
Proof.
  intros Hz. destruct z as [|p|p]; [repeat split; cbn; lia | | lia].
  unfold Str.of_Z. cbn [Z.to_int NilZero.string_of_int].
  pose proof (DecimalPos.Unsigned.of_to p) as E.
  destruct (Pos.to_uint p) eqn:D; [discriminate E|..];
    cbn [NilZero.string_of_uint]; rewrite <- D;
    (split; [apply all_uint|]; split;
     [rewrite digits_value_uint, DecimalPos.Unsigned.of_to; reflexivity
     | rewrite D; cbn; lia]).
Qed.

End Digits.

Section Reading.

Local Open Scope string_scope.

Lemma substring_drop j : forall s, (j <= String.length s)%nat ->
  substring 0 j s ++ Str.drop j s = s
  /\ String.length (substring 0 j s) = j.
Proof.
  induction j as [|j IH]; intros [|c s] H; cbn in *; auto; try lia.
  destruct (IH s) as [E L]; [lia|]. now rewrite E, L.
Qed.

Lemma all_substring_drop p j s : (j <= String.length s)%nat ->
  Str.all p s = true ->
  Str.all p (substring 0 j s) = true /\ Str.all p (Str.drop j s) = true.
Proof.
  intros H A. destruct (@substring_drop j s H) as [E _].
  rewrite <- E, all_append in A. now apply andb_true_iff in A.
Qed.

(** ** White space *)

Lemma ws_front a : (33 <= a <= 126)%nat ->
  Str.ws1 a = false /\ (forall b, Str.ws2 a b = false)
  /\ (forall b c, Str.ws3 a b c = false).
Proof.
  intros H. unfold Str.ws1, Str.ws2, Str.ws3.
  repeat match goal with
         | |- context [Nat.eqb a ?k] => destruct (Nat.eqb_spec a k); [lia|]
         end.
  repeat split.
Qed.

Lemma ws_back a : (33 <= a <= 126)%nat ->
  Str.ws1 a = false /\ (forall b, Str.ws2 b a = false)
  /\ (forall b c, Str.ws3 c b a = false).
Proof.
  intros H. unfold Str.ws1, Str.ws2, Str.ws3.
  repeat match goal with
         | |- context [Nat.eqb a ?k] => destruct (Nat.eqb_spec a k); [lia|]
         | |- context [Nat.leb ?k a] => destruct (Nat.leb_spec k a); [lia|]
         end.
  repeat split; intros; rewrite ?andb_false_r; reflexivity.
Qed.

Lemma strip_front fuel a l : (33 <= a <= 126)%nat ->
  Str.strip false fuel (a :: l) = a :: l.
Proof.
  intros H. destruct (ws_front H) as (W1 & W2 & W3).
  destruct fuel as [|fuel]; [reflexivity|]. cbn [Str.strip]. rewrite W1.
  destruct l as [|b [|c l]]; rewrite ?W2, ?W3; reflexivity.
Qed.

Lemma strip_back fuel a l : (33 <= a <= 126)%nat ->
  Str.strip true fuel (a :: l) = a :: l.
Proof.
  intros H. destruct (ws_back H) as (W1 & W2 & W3).
  destruct fuel as [|fuel]; [reflexivity|]. cbn [Str.strip]. rewrite W1.
  destruct l as [|b [|c l]]; rewrite ?W2, ?W3; reflexivity.
Qed.

Lemma solid_code c : solid c = true -> (33 <= nat_of_ascii c <= 126)%nat.
Proof.
  unfold solid. intros H. apply andb_true_iff in H as [L U].
  apply Nat.leb_le in L, U. lia.
Qed.

Lemma of_codes_codes s : Str.of_codes (Str.codes s) = s.
Proof.
  unfold Str.of_codes, Str.codes. rewrite map_map.
  rewrite (map_ext _ (fun c => c)) by (intros; apply ascii_nat_embedding).
  rewrite map_id. apply string_of_list_ascii_of_string.
Qed.

Lemma codes_append a b : Str.codes (a ++ b) = (Str.codes a ++ Str.codes b)%list.
Proof.
  unfold Str.codes. induction a as [|c a IH]; cbn; [reflexivity|].
  now rewrite IH.
Qed.

(** Text that begins and ends with a solid character is its own trim. *)
Lemma trim_solid c1 r body cl :
  String c1 r = body ++ String cl "" -> solid c1 = true -> solid cl = true ->
  Str.trim (String c1 r) = String c1 r.
Proof.
  intros E H1 Hl. unfold Str.trim.
  assert (T : Str.trimStart (String c1 r) = String c1 r).
  { unfold Str.trimStart. change (Str.codes (String c1 r))
      with (nat_of_ascii c1 :: Str.codes r).
    rewrite strip_front by (now apply solid_code).
    apply (of_codes_codes (String c1 r)). }
  rewrite T. unfold Str.trimEnd. rewrite E at 2. rewrite codes_append.
  change (Str.codes (String cl "")) with [nat_of_ascii cl].
  rewrite rev_app_distr. cbn [List.rev List.app].
  rewrite strip_back by (now apply solid_code).
  change (nat_of_ascii cl :: List.rev (Str.codes body))
    with ((List.rev [nat_of_ascii cl]) ++ List.rev (Str.codes body))%list.
  rewrite <- rev_app_distr, rev_involutive.
  change [nat_of_ascii cl] with (Str.codes (String cl "")).
  rewrite <- codes_append, <- E. apply of_codes_codes.
Qed.

(** ** Numeric literals *)

Lemma digit_solid c : Str.is_digit c = true -> solid c = true.
Proof.
  unfold Str.is_digit, solid. intros H. apply andb_true_iff in H as [L U].
  apply Nat.leb_le in L, U. apply andb_true_iff; split; apply Nat.leb_le; lia.
Qed.

Lemma prefix_Infinity_digit c r :
  Str.is_digit c = true -> String.prefix "Infinity" (String c r) = false.
Proof.
  intros H. cbn [String.prefix]. destruct (ascii_dec "I" c) as [<-|]; [discriminate|].
  reflexivity.
Qed.

Lemma decimal_literal_digit c r :
  Str.is_digit c = true ->
  decimal_literal (String c r) = unsigned_decimal (String c r).
Proof. bits c; intros H; try discriminate H; reflexivity. Qed.

(** No radix prefix: the second character, if any, is no letter. *)
Lemma radix_literal_None c1 s :
  match s with
  | String c2 _ => Str.is_digit c2 || Ascii.eqb c2 "." || (nat_of_ascii c2 =? 194)%nat
  | EmptyString => true
  end = true ->
  radix_literal (String c1 s) = None.
Proof.
  destruct s as [|c2 s].
  - intros _. bits c1; reflexivity.
  - intros H. destruct s as [|c3 s]; [bits c1; reflexivity|].
    bits c1; try reflexivity.
    bits c2; try discriminate H; reflexivity.
Qed.

Lemma stops_digit r : stops r = true ->
  match r with String c _ => Str.is_digit c = false | EmptyString => True end.
Proof.
  destruct r as [|c r]; [trivial|]. cbn. intros H.
  apply negb_true_iff in H. repeat (apply orb_false_iff in H as [H ?]). exact H.
Qed.

Lemma exponent_part_stops m r : stops r = true -> exponent_part m r = (m, r).
Proof.
  destruct r as [|c r]; [reflexivity|]. cbn [stops exponent_part]. intros H.
  apply negb_true_iff in H. repeat (apply orb_false_iff in H as [H ?]).
  replace (Ascii.eqb c "e" || Ascii.eqb c "E")%char with false; [reflexivity|].
  symmetry. apply orb_false_iff. split; assumption.
Qed.

(** The branch of [unsigned_decimal] on the text after the integer part. *)
Lemma after_integer (A : Type) (r : string) (dot : string -> A) (other : A) :
  stops r = true ->
  match r with
  | String "." r' => dot r'
  | _ => other
  end = other.
Proof.
  destruct r as [|c r]; [reflexivity|]. bits c; intros H; try discriminate H;
    reflexivity.
Qed.

Lemma unsigned_decimal_integer ip rest :
  Str.all Str.is_digit ip = true -> (1 <= String.length ip)%nat -> stops rest = true ->
  unsigned_decimal (ip ++ rest)
  = Some (Fin (Qred (inject_Z (Str.digits_value ip))), rest).
Proof.
  intros A L S. unfold unsigned_decimal.
  destruct ip as [|c ip]; [cbn in L; lia|].
  assert (Hc : Str.is_digit c = true) by (cbn in A; now apply andb_true_iff in A).
  change (String c ip ++ rest) with (String c (ip ++ rest)) at 1.
  rewrite (@prefix_Infinity_digit c _ Hc).
  rewrite (@take_digits_run _ A rest), (@take_digits_stop rest _ _ (@stops_digit rest S)).
  rewrite (@after_integer _ rest _ _ S).
  cbn [String.length Nat.add]. rewrite (@exponent_part_stops _ rest S).
  reflexivity.
Qed.

Lemma unsigned_decimal_fraction ip fp rest :
  Str.all Str.is_digit ip = true -> (1 <= String.length ip)%nat ->
  Str.all Str.is_digit fp = true -> stops rest = true ->
  unsigned_decimal (ip ++ "." ++ fp ++ rest)
  = Some (Fin (Qred (inject_Z (Str.digits_value ip)
                     + inject_Z (Str.digits_value fp)
                       / Qpower 10 (Z.of_nat (String.length fp)))), rest).
Proof.
  intros A L F S. unfold unsigned_decimal.
  destruct ip as [|c ip]; [cbn in L; lia|].
  assert (Hc : Str.is_digit c = true) by (cbn in A; now apply andb_true_iff in A).
  change (String c ip ++ "." ++ fp ++ rest)
    with (String c (ip ++ "." ++ fp ++ rest)) at 1.
  rewrite (@prefix_Infinity_digit c _ Hc).
  rewrite (@take_digits_run _ A ("." ++ fp ++ rest)).
  rewrite (@take_digits_stop ("." ++ fp ++ rest)) by reflexivity.
  cbn [append]. cbv iota beta.
  rewrite (@take_digits_run _ F rest), (@take_digits_stop rest _ _ (@stops_digit rest S)).
  cbn [String.length Nat.add]. rewrite (@exponent_part_stops _ rest S).
  reflexivity.
Qed.

Lemma all_impl (p q : ascii -> bool) s :
  (forall c, p c = true -> q c = true) -> Str.all p s = true -> Str.all q s = true.
Proof.
  intros I. induction s as [|c s IH]; cbn; [reflexivity|]. intros H.
  apply andb_true_iff in H as [Hc Hs]. now rewrite (I c Hc), IH.
Qed.

Lemma snoc_inv p s : s <> "" -> Str.all p s = true ->
  exists body cl, s = body ++ String cl "" /\ p cl = true.
Proof.
  induction s as [|c s IH]; [congruence|]. intros _ H.
  cbn in H. apply andb_true_iff in H as [Hc Hs].
  destruct s as [|c' s'].
  - exists "", c. auto.
  - destruct IH as (body & cl & E & Hl); [discriminate | exact Hs |].
    exists (String c body), cl. cbn. now rewrite <- E.
Qed.

Lemma trim_all_solid s : Str.all solid s = true -> Str.trim s = s.
Proof.
  destruct s as [|c r]; [reflexivity|]. intros H.
  destruct (@snoc_inv solid (String c r)) as (body & cl & E & Hl);
    [discriminate | exact H |].
  cbn in H. apply andb_true_iff in H as [Hc _].
  exact (@trim_solid c r body cl E Hc Hl).
Qed.

Lemma all_solid_number_text negative ip fp :
  Str.all Str.is_digit ip = true -> Str.all Str.is_digit fp = true ->
  Str.all solid (number_text negative ip fp) = true.
Proof.
  intros A F. unfold number_text. rewrite !all_append.
  assert (Si : Str.all solid ip = true) by (apply (all_impl Str.is_digit); [apply digit_solid | exact A]).
  assert (Sf : Str.all solid fp = true) by (apply (all_impl Str.is_digit); [apply digit_solid | exact F]).
  rewrite Si. destruct negative, fp; cbn; try reflexivity.
  - cbn in Sf. exact Sf.
  - cbn in Sf. exact Sf.
Qed.

(** Reading back the text of a decimal number. *)
Lemma decimal_literal_number_text negative ip fp :
  Str.all Str.is_digit ip = true -> (1 <= String.length ip)%nat ->
  Str.all Str.is_digit fp = true ->
  exists v,
    decimal_literal (number_text negative ip fp) = Some (Fin v, "")
    /\ v == (if negative then -1 else 1)
            * (inject_Z (Str.digits_value ip)
               + inject_Z (Str.digits_value fp)
                 / Qpower 10 (Z.of_nat (String.length fp))).
Proof.
  intros A L F.
  destruct ip as [|c ip]; [cbn in L; lia|].
  assert (Hc : Str.is_digit c = true) by (cbn in A; now apply andb_true_iff in A).
  unfold number_text.
  match goal with |- context [String c ip ++ ?t] => set (tail := t) end.
  assert (U : unsigned_decimal (String c ip ++ tail)
              = Some (Fin (Qred (inject_Z (Str.digits_value (String c ip))
                        + inject_Z (Str.digits_value fp)
                          / Qpower 10 (Z.of_nat (String.length fp)))), "")).
  { subst tail. destruct fp as [|d fp].
    - rewrite (@unsigned_decimal_integer (String c ip) "" A L eq_refl).
      do 3 f_equal. apply Qred_complete. cbn. field.
    - pose proof (@unsigned_decimal_fraction (String c ip) (String d fp) "" A L F eq_refl) as E.
      rewrite (append_nil_r (String d fp)) in E. exact E. }
  assert (D : decimal_literal ((if negative then "-" else "") ++ String c ip ++ tail)
              = match unsigned_decimal (String c ip ++ tail) with
                | Some (v, rest) => Some (if negative then JS.neg v else v, rest)
                | None => None
                end).
  { destruct negative.
    - reflexivity.
    - change ("" ++ String c ip ++ tail) with (String c (ip ++ tail)).
      rewrite (@decimal_literal_digit c _ Hc).
      change (String c (ip ++ tail)) with (String c ip ++ tail).
      destruct (unsigned_decimal (String c ip ++ tail)) as [[v rest]|]; reflexivity. }
  rewrite D, U.
  destruct negative; cbn [JS.neg]; eexists; (split; [reflexivity|]);
    rewrite ?Qred_correct; ring.
Qed.

Lemma trimStart_solid c r : solid c = true ->
  Str.trimStart (String c r) = String c r.
Proof.
  intros H. unfold Str.trimStart.
  change (Str.codes (String c r)) with (nat_of_ascii c :: Str.codes r).
  rewrite strip_front by (now apply solid_code).
  apply (of_codes_codes (String c r)).
Qed.

Lemma StringToNumber_number_text negative ip fp :
  Str.all Str.is_digit ip = true -> (1 <= String.length ip)%nat ->
  Str.all Str.is_digit fp = true ->
  Is (StringToNumber (number_text negative ip fp))
     ((if negative then -1 else 1)
      * (inject_Z (Str.digits_value ip)
         + inject_Z (Str.digits_value fp) / Qpower 10 (Z.of_nat (String.length fp)))).
Proof.
  intros A L F. unfold StringToNumber.
  rewrite (@trim_all_solid _ (@all_solid_number_text negative ip fp A F)).
  destruct (@decimal_literal_number_text negative ip fp A L F) as (v & -> & Hv).
  assert (N : String.eqb (number_text negative ip fp) "" = false).
  { destruct ip as [|c ip]; [cbn in L; lia|]. destruct negative; reflexivity. }
  rewrite N.
  assert (R : radix_literal (number_text negative ip fp) = None).
  { destruct ip as [|c ip]; [cbn in L; lia|].
    unfold number_text. destruct negative; [reflexivity|].
    cbn [append]. apply radix_literal_None.
    destruct ip as [|c2 ip].
    - destruct fp; reflexivity.
    - cbn in A. apply andb_true_iff in A as [_ A].
      apply andb_true_iff in A as [A _]. cbn [append]. now rewrite A. }
  rewrite R. exists v. split; [reflexivity | exact Hv].
Qed.

(** [parseFloat] reads the text of a decimal number as a number. *)
Lemma parseFloat_number_text negative ip fp :
  Str.all Str.is_digit ip = true -> (1 <= String.length ip)%nat ->
  Str.all Str.is_digit fp = true ->
  JS.is_nan (parseFloat (VStr (number_text negative ip fp))) = false.
Proof.
  intros A L F. unfold parseFloat. cbn [ToString].
  assert (T : Str.trimStart (number_text negative ip fp) = number_text negative ip fp).
  { destruct ip as [|c ip]; [cbn in L; lia|].
    assert (Hc : Str.is_digit c = true) by (cbn in A; now apply andb_true_iff in A).
    unfold number_text. destruct negative.
    - apply (@trimStart_solid "-" _ eq_refl).
    - apply (@trimStart_solid c _ (digit_solid _ Hc)). }
  rewrite T.
  destruct (@decimal_literal_number_text negative ip fp A L F) as (v & -> & _).
  reflexivity.
Qed.

Lemma Qtrunc_inject_Z z : JS.Qtrunc (inject_Z z) = z.
Proof. unfold JS.Qtrunc, inject_Z. cbn. apply Z.quot_1_r. Qed.

Lemma Qpower_10_pos f : 0 < Qpower 10 f.
Proof. apply Qpower_0_lt. reflexivity. Qed.

Lemma rounded_nonneg q f : (0 <= Qfloor (Qabs q * Qpower 10 f + (1#2)))%Z.
Proof.
  change 0%Z with (Qfloor 0). apply Qfloor_resp_le.
  pose proof (Qabs_nonneg q). pose proof (Qpower_10_pos f). nra.
Qed.

(** The text [toFixed] prints for a finite number below 10^21. *)
Lemma toFixed_text q f :
  (0 <= f <= 100)%Z -> Qle_bool (Qpower 10 21) (Qabs q) = false ->
  exists ip fp,
    toFixed (Fin q) (VNum (JS.int f))
    = Return (number_text (negb (Qle_bool 0 q)) ip fp)
    /\ Str.all Str.is_digit ip = true /\ (1 <= String.length ip)%nat
    /\ Str.all Str.is_digit fp = true /\ Z.of_nat (String.length fp) = f
    /\ (Str.digits_value ip * 10 ^ f + Str.digits_value fp)%Z
       = Qfloor (Qabs q * Qpower 10 f + (1#2)).
Proof.
  intros Hf Hbig. unfold toFixed. cbn [ToNumber]. unfold JS.int.
  rewrite Qtrunc_inject_Z.
  destruct (Z.ltb_spec f 0); [lia|]. destruct (Z.ltb_spec 100 f); [lia|].
  cbn [orb]. rewrite Hbig. cbv zeta.
  pose proof (rounded_nonneg q f) as Hn.
  set (n := Qfloor (Qabs q * Qpower 10 f + (1#2))) in *.
  destruct (of_Z_digits Hn) as (Am & Vm & Lm).
  set (m := Str.of_Z n) in *.
  assert (Sg : forall x, (if Qle_bool 0 q then "" else "-") ++ x
                         = (if negb (Qle_bool 0 q) then "-" else "") ++ x)
    by (intros; destruct (Qle_bool 0 q); reflexivity).
  destruct (Z.to_nat f) as [|fd] eqn:Efd.
  - exists m, "". unfold number_text. rewrite Sg, append_nil_r.
    assert (f = 0)%Z by lia. subst f.
    split; [reflexivity|]. split; [exact Am|]. split; [exact Lm|].
    split; [reflexivity|]. split; [reflexivity|].
    rewrite Vm. change (Str.digits_value "") with 0%Z. lia.
  - set (m' := if (String.length m <=? S fd)%nat
               then Str.zeros (S (S fd) - String.length m) ++ m else m).
    assert (Am' : Str.all Str.is_digit m' = true).
    { subst m'. destruct (_ <=? _)%nat; [|exact Am].
      now rewrite all_append, all_zeros, Am. }
    assert (Vm' : Str.digits_value m' = n).
    { subst m'. destruct (_ <=? _)%nat; [|exact Vm].
      rewrite digits_value_append by (try apply all_zeros; exact Am).
      rewrite digits_value_zeros, Vm. ring. }
    assert (Lm' : (S (S fd) <= String.length m')%nat).
    { subst m'. destruct (Nat.leb_spec (String.length m) (S fd)).
      - rewrite length_append, length_zeros. lia.
      - lia. }
    set (j := (String.length m' - S fd)%nat).
    destruct (@substring_drop j m') as [E Lj]; [lia|].
    destruct (@all_substring_drop Str.is_digit j m') as [Ai Af]; [lia | exact Am' |].
    assert (Lf : String.length (Str.drop j m') = S fd).
    { pose proof (f_equal String.length E) as EL.
      rewrite length_append, Lj in EL. lia. }
    exists (substring 0 j m'), (Str.drop j m').
    split.
    { unfold number_text. rewrite Sg.
      destruct (Str.drop j m') eqn:D; [cbn in Lf; lia|]. reflexivity. }
    split; [exact Ai|]. split; [lia|]. split; [exact Af|]. split; [lia|].
    transitivity (Str.digits_value (substring 0 j m' ++ Str.drop j m'));
      [|rewrite E; exact Vm'].
    rewrite digits_value_append by assumption. rewrite Lf.
    replace (Z.of_nat (S fd)) with f by lia. reflexivity.
Qed.

Lemma inject_Z_pow10 f : (0 <= f)%Z -> inject_Z (10 ^ f) == Qpower 10 f.
Proof. intros H. apply (Zpower_Qpower 10 f H). Qed.

(** [toFixed] rounds to the nearest multiple of 10^-f: on a finite number
    below 10^21 and [f] decimals from 0 to 100 it prints a text, and the
    text reads back, by the conversion of strings to numbers, as [n / 10^f]
    for the integer [n] within a half of the number times 10^f. *)
Lemma toFixed_reads_back (q : Q) (f : Z) :
  (0 <= f <= 100)%Z -> Qabs q < Qpower 10 21 ->
  exists (s : string) (n : Z),
    toFixed (Fin q) (VNum (JS.int f)) = Return s
    /\ Is (StringToNumber s) (inject_Z n / Qpower 10 f)
    /\ Qabs (inject_Z n - q * Qpower 10 f) <= 1#2.
Proof.
  intros Hf Hq. apply Qle_bool_false in Hq.
  destruct (@toFixed_text q f Hf Hq) as (ip & fp & E & Ai & Li & Af & Lf & V).
  pose proof (@StringToNumber_number_text (negb (Qle_bool 0 q)) ip fp Ai Li Af) as R.
  rewrite Lf in R.
  pose proof (Qpower_10_pos f) as P.
  pose proof (Qfloor_le (Qabs q * Qpower 10 f + (1#2))) as F1.
  pose proof (Qlt_floor (Qabs q * Qpower 10 f + (1#2))) as F2.
  rewrite <- V in F1, F2.
  rewrite inject_Z_plus in F2. change (inject_Z 1) with 1 in F2.
  rewrite inject_Z_plus, inject_Z_mult, inject_Z_pow10 in F1, F2 by lia.
  set (a := inject_Z (Str.digits_value ip)) in *.
  set (b := inject_Z (Str.digits_value fp)) in *.
  exists (number_text (negb (Qle_bool 0 q)) ip fp),
    ((if negb (Qle_bool 0 q) then -1 else 1) * (Str.digits_value ip * 10 ^ f + Str.digits_value fp))%Z.
  split; [exact E|].
  assert (EN : inject_Z ((if negb (Qle_bool 0 q) then -1 else 1)
                         * (Str.digits_value ip * 10 ^ f + Str.digits_value fp))
               == (if negb (Qle_bool 0 q) then -1 else 1) * (a * Qpower 10 f + b)).
  { rewrite inject_Z_mult, inject_Z_plus, inject_Z_mult, inject_Z_pow10 by lia.
    destruct (Qle_bool 0 q); reflexivity. }
  split.
  - destruct R as (r & Er & Hr). exists r. split; [exact Er|].
    rewrite Hr, EN. field. lra.
  - rewrite EN. clear EN R E.
    destruct (Qle_bool 0 q) eqn:S; cbn [negb].
    + apply Qle_bool_iff in S. rewrite Qabs_pos in F1, F2 by exact S.
      apply Qabs_Qle_condition. split; lra.
    + apply Qle_bool_false in S. rewrite Qabs_neg in F1, F2 by lra.
      apply Qabs_Qle_condition. split; lra.
Qed.

End Reading.

(** ** Reading back the degrees that the formatters print *)

Section ParseBack.

Local Open Scope string_scope.

Lemma last_snoc body c : Str.last (body ++ String c "") = Some c.
Proof.
  induction body as [|x body IH]; [reflexivity|].
  cbn [append Str.last]. rewrite IH.
  destruct (body ++ String c "") eqn:E; [|reflexivity].
  destruct body; discriminate E.
Qed.

Lemma drop_last_snoc body c : Str.drop_last (body ++ String c "") = body.
Proof.
  induction body as [|x body IH]; [reflexivity|].
  cbn [append Str.drop_last]. rewrite IH.
  destruct (body ++ String c "") eqn:E; [|reflexivity].
  destruct body; discriminate E.
Qed.

Lemma strip_leading_minus_digit c r :
  Str.is_digit c = true ->
  Dms.strip_leading_minus (String c r) = String c r.
Proof. bits c; intros H; try discriminate H; reflexivity. Qed.

Lemma prefix_minus_digit c r :
  Str.is_digit c = true -> String.prefix "-" (String c r) = false.
Proof.
  intros H. cbn [String.prefix]. destruct (ascii_dec "-" c) as [<-|]; [discriminate|].
  reflexivity.
Qed.

(** Splitting at the text that is not numeric. *)
Lemma split_not_numeric t : separates t = true ->
  Dms.split_non_numeric t "" true = [""].
Proof.
  unfold separates. induction t as [|c t IH]; [reflexivity|]. cbn. intros H.
  apply andb_true_iff in H as [Hc Ht]. apply negb_true_iff in Hc.
  rewrite Hc. now apply IH.
Qed.

Lemma split_numeric a : Str.all Dms.is_numeric_char a = true ->
  forall c t cur, Dms.is_numeric_char c = false -> separates t = true ->
  Dms.split_non_numeric (a ++ String c t) cur false = [cur ++ a; ""].
Proof.
  induction a as [|x a IH]; intros H c t cur Hc Ht.
  - cbn [append Dms.split_non_numeric]. rewrite Hc, append_nil_r.
    now rewrite split_not_numeric.
  - cbn in H. apply andb_true_iff in H as [Hx Ha].
    cbn [append Dms.split_non_numeric]. rewrite Hx.
    rewrite (IH Ha c t _ Hc Ht). rewrite append_assoc. reflexivity.
Qed.

Lemma digit_numeric c : Str.is_digit c = true -> Dms.is_numeric_char c = true.
Proof. unfold Dms.is_numeric_char. now intros ->. Qed.

Lemma all_point_number_text ip fp :
  Str.all Str.is_digit ip = true -> Str.all Str.is_digit fp = true ->
  Str.all (fun c => Str.is_digit c || Ascii.eqb c ".") (number_text false ip fp) = true.
Proof.
  intros A F. unfold number_text. cbn [append]. rewrite all_append.
  assert (I : forall c, Str.is_digit c = true
                        -> Str.is_digit c || Ascii.eqb c "." = true)
    by (now intros c ->).
  rewrite (@all_impl Str.is_digit _ ip I A).
  destruct fp as [|d fp]; [reflexivity|].
  change ("." ++ String d fp) with (String "." (String d fp)).
  cbn [Str.all andb]. change (Str.is_digit "." || Ascii.eqb "." ".") with true.
  exact (@all_impl Str.is_digit _ (String d fp) I F).
Qed.

Lemma all_numeric_number_text ip fp :
  Str.all Str.is_digit ip = true -> Str.all Str.is_digit fp = true ->
  Str.all Dms.is_numeric_char (number_text false ip fp) = true.
Proof.
  intros A F. apply (all_impl (fun c => Str.is_digit c || Ascii.eqb c "."));
    [|now apply all_point_number_text].
  intros c H. unfold Dms.is_numeric_char. now rewrite H.
Qed.

(** [Dms.parse] on degrees printed in the style d: digits, the degree
    sign, the separator and a compass letter. *)
Lemma parse_degrees ip fp sep c :
  Str.all Str.is_digit ip = true -> (1 <= String.length ip)%nat ->
  Str.all Str.is_digit fp = true -> separates sep = true ->
  compass_letter c = true ->
  exists r,
    Dms.parse (VStr (number_text false ip fp ++ "°" ++ sep ++ String c ""))
    = Return r
    /\ Is r ((if (Ascii.eqb c "S" || Ascii.eqb c "W")%char then -1 else 1)
             * (inject_Z (Str.digits_value ip)
                + inject_Z (Str.digits_value fp)
                  / Qpower 10 (Z.of_nat (String.length fp)))).
Proof.
  intros A L F Hs Hc.
  pose proof (@StringToNumber_number_text false ip fp A L F) as V.
  pose proof (@all_numeric_number_text ip fp A F) as An.
  pose proof (@all_solid_number_text false ip fp A F) as As.
  pose proof (@all_point_number_text ip fp A F) as Ap.
  set (a := number_text false ip fp) in *.
  assert (Ea : exists d a', a = String d a' /\ Str.is_digit d = true).
  { subst a. unfold number_text. destruct ip as [|d ip]; [cbn in L; lia|].
    cbn in A. apply andb_true_iff in A as [Hd _]. cbn [append]. eauto. }
  destruct Ea as (d & a' & Ea & Hd).
  set (text := a ++ "°" ++ sep ++ String c "").
  assert (Et : text = String d (a' ++ "°" ++ sep ++ String c ""))
    by (subst text; rewrite Ea; reflexivity).
  assert (Eb : text = (a ++ "°" ++ sep) ++ String c "")
    by (subst text; now rewrite !append_assoc).
  assert (Ex : text = a ++ "°" ++ sep ++ String c "") by reflexivity.
  assert (Ean : a = ip ++ match fp with "" => "" | _ => "." ++ fp end)
    by reflexivity.
  clearbody text. clearbody a.
  assert (Sc : solid c = true) by (bits c; try discriminate Hc; reflexivity).
  assert (T : Str.trim text = text).
  { rewrite Et. apply (@trim_solid d _ (a ++ "°" ++ sep) c);
      [rewrite <- Et; exact Eb | now apply digit_solid | exact Sc]. }
  (* the text is no number by itself *)
  assert (NF : isFinite (VStr text) = false).
  { unfold isFinite. cbn [ToNumber]. unfold StringToNumber. rewrite T.
    rewrite Et at 1. cbn [String.eqb].
    assert (R : radix_literal text = None).
    { rewrite Et. apply radix_literal_None.
      destruct a' as [|d2 a'']; [reflexivity|].
      rewrite Ea in Ap. cbn [Str.all] in Ap. apply andb_true_iff in Ap as [_ Ap].
      apply andb_true_iff in Ap as [Ap _]. cbn [append].
      now rewrite Ap. }
    rewrite R.
    assert (D : exists v, decimal_literal text
                          = Some (v, "°" ++ sep ++ String c "")).
    { rewrite Et, (@decimal_literal_digit d _ Hd), <- Et.
      rewrite Ex, Ean.
      set (rest := "°" ++ sep ++ String c "").
      destruct fp as [|e fp].
      - rewrite append_nil_r, (@unsigned_decimal_integer ip rest A L eq_refl). eauto.
      - rewrite !append_assoc.
        rewrite (@unsigned_decimal_fraction ip (String e fp) rest A L F eq_refl).
        eauto. }
    destruct D as (v & ->). reflexivity. }
  assert (C1 : Dms.is_compass "NSEWnsew" c = true)
    by (bits c; try discriminate Hc; reflexivity).
  assert (C2 : Dms.is_compass "WSws" c = (Ascii.eqb c "S" || Ascii.eqb c "W")%char)
    by (bits c; try discriminate Hc; reflexivity).
  assert (P1 : Dms.strip_leading_minus text = text).
  { rewrite Et. apply strip_leading_minus_digit. exact Hd. }
  assert (P2 : Dms.strip_compass text = a ++ "°" ++ sep).
  { unfold Dms.strip_compass. rewrite Eb, last_snoc, C1. apply drop_last_snoc. }
  assert (P3 : Dms.split_non_numeric (a ++ "°" ++ sep) "" false = [a; ""]).
  { change (a ++ "°" ++ sep) with (a ++ String "194" (String "176" sep)).
    apply (@split_numeric a An "194" (String "176" sep) "" eq_refl).
    unfold separates in *. cbn [Str.all]. exact Hs. }
  assert (P4 : Dms.is_negative_text text = (Ascii.eqb c "S" || Ascii.eqb c "W")%char).
  { unfold Dms.is_negative_text. rewrite Et at 1.
    rewrite (@prefix_minus_digit d _ Hd), Eb, last_snoc. exact C2. }
  unfold Dms.parse. rewrite NF, andb_false_r. cbn [ToString]. rewrite T.
  rewrite P1, P2, P3, P4.
  cbn [Dms.drop_empty_last List.rev List.app String.concat nth].
  assert (Ne : String.eqb a "" = false) by (rewrite Ea; reflexivity).
  rewrite Ne.
  destruct V as (r & Er & Hr). rewrite Er.
  destruct (Ascii.eqb c "S" || Ascii.eqb c "W")%char; cbn [JS.neg];
    eexists; (split; [reflexivity|]); eexists; (split; [reflexivity|]);
    rewrite ?Qred_correct, Hr; ring.
Qed.

End ParseBack.

Section PrintBack.

Local Open Scope string_scope.

Variable sep : string.

Lemma slice_1_cons c r : Str.slice 1 (String c r) = r.
Proof.
  unfold Str.slice. cbn [Z.ltb Z.compare String.length].
  rewrite Z.min_l by lia. reflexivity.
Qed.

Lemma pad_below_cases k s :
  Dms.pad_below k s = s \/ Dms.pad_below k s = "0" ++ s.
Proof. unfold Dms.pad_below. destruct (_ < _)%js; auto. Qed.

Lemma pad_below_lt k s v kq :
  Is (StringToNumber s) v -> Is k kq -> v < kq ->
  Dms.pad_below k s = "0" ++ s.
Proof.
  intros Hs Hk L. unfold Dms.pad_below. rewrite (Is_lt Hs Hk).
  apply Qle_bool_false in L. now rewrite L.
Qed.

Lemma Qpower_10_ge_1 f : (0 <= f)%Z -> 1 <= Qpower 10 f.
Proof. intros H. apply Qpower_1_le; [lra | exact H]. Qed.

(** The text of [toDms] in the style d on a finite number: the rounded
    magnitude with its integer part padded with zeros. *)
Lemma toDms_d_text x f :
  (0 <= f <= 100)%Z -> Qabs x < Qpower 10 21 ->
  exists j ip fp,
    Dms.toDms sep (VNum (Fin x)) None (VNum (JS.int f))
    = Return (Some (number_text false (Str.zeros j ++ ip) fp ++ "°"))
    /\ Str.all Str.is_digit ip = true /\ (1 <= String.length ip)%nat
    /\ Str.all Str.is_digit fp = true /\ Z.of_nat (String.length fp) = f
    /\ (Str.digits_value ip * 10 ^ f + Str.digits_value fp)%Z
       = Qfloor (Qabs x * Qpower 10 f + (1#2))
    /\ (Qabs x < 99 -> (1 <= j)%nat).
Proof.
  intros Hf Hx.
  assert (Eq : Qabs (Qred (Qabs x)) == Qabs x).
  { rewrite Qred_correct. apply Qabs_pos, Qabs_nonneg. }
  assert (Hbig : Qle_bool (Qpower 10 21) (Qabs (Qred (Qabs x))) = false).
  { apply Qle_bool_false. now rewrite Eq. }
  destruct (@toFixed_text (Qred (Qabs x)) f Hf Hbig)
    as (ip & fp & E & Ai & Li & Af & Lf & V).
  assert (Pos : Qle_bool 0 (Qred (Qabs x)) = true).
  { apply Qle_bool_iff. rewrite Qred_correct. apply Qabs_nonneg. }
  rewrite Pos in E. cbn [negb] in E.
  assert (V' : (Str.digits_value ip * 10 ^ f + Str.digits_value fp)%Z
               = Qfloor (Qabs x * Qpower 10 f + (1#2))).
  { rewrite V. apply Qfloor_comp. now rewrite Eq. }
  pose proof (@StringToNumber_number_text false ip fp Ai Li Af) as R.
  rewrite Lf in R.
  set (d0 := number_text false ip fp) in *.
  assert (T : Dms.toDms sep (VNum (Fin x)) None (VNum (JS.int f))
              = Return (Some (Dms.pad_below 10 (Dms.pad_below 100 d0) ++ "°"))).
  { change (Dms.toDms sep (VNum (Fin x)) None (VNum (JS.int f)))
      with (bind (toFixed (Fin (Qred (Qabs x))) (VNum (JS.int f)))
              (fun d => Return (Some (Dms.pad_below 10 (Dms.pad_below 100 d) ++ "°")))).
    rewrite E. reflexivity. }
  assert (Z1 : forall k s i, s = number_text false i fp ->
                 exists j, (j <= 1)%nat
                   /\ Dms.pad_below k s = number_text false (Str.zeros j ++ i) fp
                   /\ (Dms.pad_below k s = "0" ++ s -> j = 1%nat)).
  { intros k s i ->. destruct (pad_below_cases k (number_text false i fp)) as [P|P].
    - exists 0%nat. split; [lia|]. split; [exact P|].
      rewrite P. intros X. exfalso.
      apply (f_equal String.length) in X. cbn in X. lia.
    - exists 1%nat. split; [lia|]. split; [exact P | reflexivity]. }
  destruct (Z1 100%js d0 ip eq_refl) as (j1 & B1 & P1 & Q1).
  destruct (Z1 10%js (Dms.pad_below 100 d0) (Str.zeros j1 ++ ip) P1)
    as (j2 & B2 & P2 & _).
  exists (j2 + j1)%nat, ip, fp.
  split.
  { rewrite T, P2. do 3 f_equal. unfold number_text. cbn [append].
    rewrite <- !append_assoc. f_equal. f_equal.
    clear. induction j2 as [|j2 IH]; [reflexivity|]. cbn. now rewrite IH. }
  split; [exact Ai|]. split; [exact Li|]. split; [exact Af|].
  split; [exact Lf|]. split; [exact V'|].
  intros H99.
  enough (j1 = 1%nat) by lia. apply Q1.
  apply (@pad_below_lt 100%js d0 _ 100 R (Is_Fin 100)).
  pose proof (Qfloor_le (Qabs x * Qpower 10 f + (1#2))) as F1.
  rewrite <- V' in F1.
  rewrite inject_Z_plus, inject_Z_mult, inject_Z_pow10 in F1 by lia.
  pose proof (Qpower_10_ge_1 (f := f)) as P.
  assert (Pf : 1 <= Qpower 10 f) by (apply P; lia).
  set (p := Qpower 10 f) in *.
  assert (E1 : 1 * (inject_Z (Str.digits_value ip) + inject_Z (Str.digits_value fp) / p)
               == (inject_Z (Str.digits_value ip) * p + inject_Z (Str.digits_value fp)) / p)
    by (field; lra).
  rewrite E1. apply Qlt_shift_div_r; [lra|]. nra.
Qed.

Lemma zeros_digits j ip :
  Str.all Str.is_digit ip = true -> (1 <= String.length ip)%nat ->
  Str.all Str.is_digit (Str.zeros j ++ ip) = true
  /\ (1 <= String.length (Str.zeros j ++ ip))%nat
  /\ Str.digits_value (Str.zeros j ++ ip) = Str.digits_value ip.
Proof.
  intros A L. split; [|split].
  - now rewrite all_append, all_zeros.
  - rewrite length_append. lia.
  - rewrite digits_value_append by (try apply all_zeros; exact A).
    rewrite digits_value_zeros. ring.
Qed.

(** The signed, rounded value: what the printed degrees and the compass
    letter that follows them denote. *)
Lemma rounded_signed x f ip fp (west : bool) :
  (0 <= f)%Z -> Z.of_nat (String.length fp) = f ->
  (Str.digits_value ip * 10 ^ f + Str.digits_value fp)%Z
  = Qfloor (Qabs x * Qpower 10 f + (1#2)) ->
  west = negb (Qle_bool 0 x) ->
  exists n : Z,
    (if west then -1 else 1)
    * (inject_Z (Str.digits_value ip)
       + inject_Z (Str.digits_value fp) / Qpower 10 (Z.of_nat (String.length fp)))
    == inject_Z n / Qpower 10 f
    /\ Qabs (inject_Z n - x * Qpower 10 f) <= 1#2.
Proof.
  intros Hf Lf V ->. rewrite Lf.
  pose proof (Qpower_10_pos f) as P.
  pose proof (Qfloor_le (Qabs x * Qpower 10 f + (1#2))) as F1.
  pose proof (Qlt_floor (Qabs x * Qpower 10 f + (1#2))) as F2.
  rewrite <- V in F1, F2.
  rewrite inject_Z_plus in F2. change (inject_Z 1) with 1 in F2.
  rewrite inject_Z_plus, inject_Z_mult, inject_Z_pow10 in F1, F2 by lia.
  set (a := inject_Z (Str.digits_value ip)) in *.
  set (b := inject_Z (Str.digits_value fp)) in *.
  exists ((if negb (Qle_bool 0 x) then -1 else 1)
          * (Str.digits_value ip * 10 ^ f + Str.digits_value fp))%Z.
  assert (EN : inject_Z ((if negb (Qle_bool 0 x) then -1 else 1)
                         * (Str.digits_value ip * 10 ^ f + Str.digits_value fp))
               == (if negb (Qle_bool 0 x) then -1 else 1) * (a * Qpower 10 f + b)).
  { rewrite inject_Z_mult, inject_Z_plus, inject_Z_mult, inject_Z_pow10 by lia.
    destruct (Qle_bool 0 x); reflexivity. }
  split.
  - rewrite EN. field. lra.
  - rewrite EN. clear EN.
    destruct (Qle_bool 0 x) eqn:S; cbn [negb].
    + apply Qle_bool_iff in S. rewrite Qabs_pos in F1, F2 by exact S.
      apply Qabs_Qle_condition. split; lra.
    + apply Qle_bool_false in S. rewrite Qabs_neg in F1, F2 by lra.
      apply Qabs_Qle_condition. split; lra.
Qed.

Lemma lt_0_west x : (Fin x < 0)%js = negb (Qle_bool 0 x).
Proof. reflexivity. Qed.

Hypothesis Hsep : separates sep = true.

Lemma degrees_no_comma ip fp c :
  Str.all Str.is_digit ip = true -> Str.all Str.is_digit fp = true ->
  compass_letter c = true ->
  no_comma (number_text false ip fp ++ "°" ++ sep ++ String c "") = true.
Proof.
  intros A F Hc. unfold no_comma. rewrite !all_append.
  assert (N : Str.all (fun c => negb (Ascii.eqb c ",")) (number_text false ip fp) = true).
  { apply (all_impl (fun c => Str.is_digit c || Ascii.eqb c "."));
      [|now apply all_point_number_text].
    intros d H. bits d; try discriminate H; reflexivity. }
  assert (S : Str.all (fun c => negb (Ascii.eqb c ",")) sep = true).
  { apply (all_impl (fun c => negb (Dms.is_numeric_char c))); [|exact Hsep].
    intros d H. bits d; try discriminate H; reflexivity. }
  rewrite N, S. cbn. bits c; try discriminate Hc; reflexivity.
Qed.

Lemma toLon_text x f :
  (0 <= f <= 100)%Z -> -180 <= x -> x <= 180 ->
  exists s r n,
    Dms.toLon sep (Fin x) None (VNum (JS.int f)) = Return s
    /\ Dms.parse (VStr s) = Return r
    /\ Is r (inject_Z n / Qpower 10 f)
    /\ Qabs (inject_Z n - x * Qpower 10 f) <= 1#2
    /\ no_comma s = true.
Proof.
  intros Hf L U. unfold Dms.toLon.
  rewrite (wrap180_id (Is_Fin x) L U).
  assert (Hx : Qabs x < Qpower 10 21).
  { apply Qle_lt_trans with 180; [apply Qabs_Qle_condition; split; lra|reflexivity]. }
  destruct (@toDms_d_text x f Hf Hx) as (j & ip & fp & -> & Ai & Li & Af & Lf & V & _).
  cbn [bind]. rewrite lt_0_west.
  destruct (@zeros_digits j ip Ai Li) as (Az & Lz & Vz).
  assert (Hc : compass_letter (if negb (Qle_bool 0 x) then "W"%char else "E"%char) = true)
    by (destruct (Qle_bool 0 x); reflexivity).
  destruct (@parse_degrees (Str.zeros j ++ ip) fp sep _ Az Lz Af Hsep Hc)
    as (r & Er & Hr).
  pose proof (@degrees_no_comma (Str.zeros j ++ ip) fp _ Az Af Hc) as NC.
  rewrite Vz in Hr.
  destruct (@rounded_signed x f ip fp (negb (Qle_bool 0 x))) as (n & En & Bn);
    [lia | exact Lf | exact V | reflexivity |].
  assert (Es : (number_text false (Str.zeros j ++ ip) fp ++ "°") ++ sep
               ++ (if negb (Qle_bool 0 x) then "W" else "E")
               = number_text false (Str.zeros j ++ ip) fp ++ "°" ++ sep
                 ++ String (if negb (Qle_bool 0 x) then "W"%char else "E"%char) "").
  { rewrite !append_assoc. destruct (Qle_bool 0 x); reflexivity. }
  eexists. exists r, n. split; [reflexivity|]. rewrite Es.
  split; [exact Er|]. split; [|split; [exact Bn | exact NC]].
  destruct Hr as (r' & E' & H'). exists r'. split; [exact E'|].
  rewrite H', <- En. destruct (Qle_bool 0 x); reflexivity.
Qed.

Lemma toLat_text x f :
  (0 <= f <= 100)%Z -> -90 <= x -> x <= 90 ->
  exists s r n,
    Dms.toLat sep (Fin x) None (VNum (JS.int f)) = Return s
    /\ Dms.parse (VStr s) = Return r
    /\ Is r (inject_Z n / Qpower 10 f)
    /\ Qabs (inject_Z n - x * Qpower 10 f) <= 1#2
    /\ no_comma s = true.
Proof.
  intros Hf L U. unfold Dms.toLat.
  rewrite (wrap90_id (Is_Fin x) L U).
  assert (Hx : Qabs x < Qpower 10 21).
  { apply Qle_lt_trans with 90; [apply Qabs_Qle_condition; split; lra|reflexivity]. }
  destruct (@toDms_d_text x f Hf Hx) as (j & ip & fp & -> & Ai & Li & Af & Lf & V & J).
  cbn [bind]. rewrite lt_0_west.
  assert (Hj : (1 <= j)%nat).
  { apply J. apply Qle_lt_trans with 90; [apply Qabs_Qle_condition; split; lra|reflexivity]. }
  destruct j as [|j]; [lia|].
  change (number_text false (Str.zeros (S j) ++ ip) fp ++ "°")
    with (String "0" (number_text false (Str.zeros j ++ ip) fp ++ "°")).
  rewrite slice_1_cons.
  destruct (@zeros_digits j ip Ai Li) as (Az & Lz & Vz).
  assert (Hc : compass_letter (if negb (Qle_bool 0 x) then "S"%char else "N"%char) = true)
    by (destruct (Qle_bool 0 x); reflexivity).
  destruct (@parse_degrees (Str.zeros j ++ ip) fp sep _ Az Lz Af Hsep Hc)
    as (r & Er & Hr).
  pose proof (@degrees_no_comma (Str.zeros j ++ ip) fp _ Az Af Hc) as NC.
  rewrite Vz in Hr.
  destruct (@rounded_signed x f ip fp (negb (Qle_bool 0 x))) as (n & En & Bn);
    [lia | exact Lf | exact V | reflexivity |].
  assert (Es : (number_text false (Str.zeros j ++ ip) fp ++ "°") ++ sep
               ++ (if negb (Qle_bool 0 x) then "S" else "N")
               = number_text false (Str.zeros j ++ ip) fp ++ "°" ++ sep
                 ++ String (if negb (Qle_bool 0 x) then "S"%char else "N"%char) "").
  { rewrite !append_assoc. destruct (Qle_bool 0 x); reflexivity. }
  eexists. exists r, n. split; [reflexivity|]. rewrite Es.
  split; [exact Er|]. split; [|split; [exact Bn | exact NC]].
  destruct Hr as (r' & E' & H'). exists r'. split; [exact E'|].
  rewrite H', <- En. destruct (Qle_bool 0 x); reflexivity.
Qed.

(** [Dms.parse] reads back what [toLat] and [toLon] print in the style d:
    for a latitude in [-90, 90], a longitude in [-180, 180] and [f]
    decimals from 0 to 100, the text parses, with its compass letter, to
    [n / 10^f] for the integer [n] within a half of the value times 10^f:
    the value rounded to [f] decimals, with its sign. *)
Theorem parse_reads_back_degrees (x : Q) (f : Z) :
  (0 <= f <= 100)%Z ->
  (-90 <= x -> x <= 90 ->
   exists s r n,
     Dms.toLat sep (Fin x) None (VNum (JS.int f)) = Return s
     /\ Dms.parse (VStr s) = Return r
     /\ Is r (inject_Z n / Qpower 10 f)
     /\ Qabs (inject_Z n - x * Qpower 10 f) <= 1#2)
  /\ (-180 <= x -> x <= 180 ->
      exists s r n,
        Dms.toLon sep (Fin x) None (VNum (JS.int f)) = Return s
        /\ Dms.parse (VStr s) = Return r
        /\ Is r (inject_Z n / Qpower 10 f)
        /\ Qabs (inject_Z n - x * Qpower 10 f) <= 1#2).
Proof.
  intros Hf. split; intros L U.
  - destruct (@toLat_text x f Hf L U) as (s & r & n & E & P & I & B & _). eauto 8.
  - destruct (@toLon_text x f Hf L U) as (s & r & n & E & P & I & B & _). eauto 8.
Qed.

End PrintBack.

(** The default separator, 51.47788 and four decimals. *)
Lemma parse_reads_back_degrees_witness :
  (-90 <= 51.47788 -> 51.47788 <= 90 ->
   exists s r n,
     Dms.toLat dmsSeparator (Fin 51.47788) None (VNum (JS.int 4)) = Return s
     /\ Dms.parse (VStr s) = Return r
     /\ Is r (inject_Z n / Qpower 10 4)
     /\ Qabs (inject_Z n - 51.47788 * Qpower 10 4) <= 1#2)
  /\ (-180 <= 51.47788 -> 51.47788 <= 180 ->
      exists s r n,
        Dms.toLon dmsSeparator (Fin 51.47788) None (VNum (JS.int 4)) = Return s
        /\ Dms.parse (VStr s) = Return r
        /\ Is r (inject_Z n / Qpower 10 4)
        /\ Qabs (inject_Z n - 51.47788 * Qpower 10 4) <= 1#2).
Proof.
  apply (@parse_reads_back_degrees dmsSeparator); [reflexivity | lia].
Defined.

(** ** Reading back a printed point *)

Section PointBack.

Local Open Scope string_scope.

(** ** Splitting at the comma *)

Lemma split_on_none b : no_comma b = true ->
  forall cur, Str.split_on "," b cur = [cur ++ b].
Proof.
  unfold no_comma. induction b as [|c b IH]; intros H cur.
  - cbn. now rewrite append_nil_r.
  - cbn in H. apply andb_true_iff in H as [Hc Hb]. apply negb_true_iff in Hc.
    cbn [Str.split_on]. rewrite Hc, (IH Hb), append_assoc. reflexivity.
Qed.

Lemma split_on_comma a : no_comma a = true ->
  forall b cur, no_comma b = true ->
  Str.split_on "," (a ++ String "," b) cur = [cur ++ a; b].
Proof.
  unfold no_comma. induction a as [|c a IH]; intros H b cur Hb.
  - cbn [append Str.split_on]. change (Ascii.eqb "," ",") with true. cbv iota.
    rewrite append_nil_r. now rewrite (@split_on_none b Hb "").
  - cbn in H. apply andb_true_iff in H as [Hc Ha]. apply negb_true_iff in Hc.
    cbn [append Str.split_on]. rewrite Hc, (IH Ha b _ Hb), append_assoc.
    reflexivity.
Qed.

(** ** White space before the text *)

Lemma trimStart_space s : Str.trimStart (String " " s) = Str.trimStart s.
Proof. reflexivity. Qed.

Lemma trim_space s : Str.trim (String " " s) = Str.trim s.
Proof. unfold Str.trim. now rewrite trimStart_space. Qed.

Lemma Dms_parse_space s : Dms.parse (VStr (String " " s)) = Dms.parse (VStr s).
Proof.
  unfold Dms.parse, parseFloat, isFinite, Number, ToNumber, ToString, StringToNumber.
  rewrite !trimStart_space, !trim_space. reflexivity.
Qed.

(** ** A rounded coordinate stays in range *)

Lemma rounded_in_range (n B : Z) (x : Q) (f : Z) :
  (0 <= f)%Z -> Qabs (inject_Z n - x * Qpower 10 f) <= 1#2 ->
  - inject_Z B <= x -> x <= inject_Z B ->
  - inject_Z B <= inject_Z n / Qpower 10 f
  /\ inject_Z n / Qpower 10 f <= inject_Z B.
Proof.
  intros Hf H L U. apply Qabs_Qle_condition in H as [H1 H2].
  pose proof (Qpower_10_pos f) as P.
  rewrite <- (inject_Z_pow10 Hf) in *.
  generalize dependent (10 ^ f)%Z. clear f Hf. intros p H1 H2 P.
  assert (M1 : x * inject_Z p <= inject_Z B * inject_Z p)
    by (apply Qmult_le_compat_r; lra).
  assert (M2 : (- inject_Z B) * inject_Z p <= x * inject_Z p)
    by (apply Qmult_le_compat_r; lra).
  assert (U' : (n <= B * p)%Z).
  { assert (X : inject_Z n < inject_Z (B * p + 1)).
    { rewrite inject_Z_plus, inject_Z_mult. change (inject_Z 1) with 1.
      set (xp := x * inject_Z p) in *. set (bp := inject_Z B * inject_Z p) in *.
      lra. }
    rewrite <- Zlt_Qlt in X. lia. }
  assert (L' : (- (B * p) <= n)%Z).
  { assert (X : inject_Z (- (B * p) + - 1) < inject_Z n).
    { rewrite inject_Z_plus, inject_Z_opp, inject_Z_mult.
      change (inject_Z (-1)) with (-1).
      assert (M3 : - inject_Z B * inject_Z p == - (inject_Z B * inject_Z p)) by ring.
      rewrite M3 in M2.
      set (xp := x * inject_Z p) in *. set (bp := inject_Z B * inject_Z p) in *.
      lra. }
    rewrite <- Zlt_Qlt in X. lia. }
  rewrite Zle_Qle in U', L'. rewrite inject_Z_opp, inject_Z_mult in L'.
  rewrite inject_Z_mult in U'.
  split.
  - apply Qle_shift_div_l; [exact P|].
    assert (M3 : - inject_Z B * inject_Z p == - (inject_Z B * inject_Z p)) by ring.
    rewrite M3. exact L'.
  - apply Qle_shift_div_r; [exact P | exact U'].
Qed.

(** ** Reading back a printed point *)

Lemma parse_number_text negative ip fp :
  Str.all Str.is_digit ip = true -> (1 <= String.length ip)%nat ->
  Str.all Str.is_digit fp = true ->
  Dms.parse (VStr (number_text negative ip fp))
  = Return (StringToNumber (number_text negative ip fp)).
Proof.
  intros A L F. unfold Dms.parse.
  rewrite (@parseFloat_number_text negative ip fp A L F).
  unfold isFinite. cbn [ToNumber].
  rewrite (Is_finite (@StringToNumber_number_text negative ip fp A L F)).
  reflexivity.
Qed.

Lemma number_text_no_comma negative ip fp :
  Str.all Str.is_digit ip = true -> Str.all Str.is_digit fp = true ->
  no_comma (number_text negative ip fp) = true.
Proof.
  intros A F. unfold no_comma.
  apply (all_impl (fun c => Str.is_digit c || Ascii.eqb c "." || Ascii.eqb c "-")).
  - intros d H. bits d; try discriminate H; reflexivity.
  - set (P := fun c => Str.is_digit c || Ascii.eqb c "." || Ascii.eqb c "-").
    unfold number_text. rewrite !all_append.
    assert (I : forall c, Str.is_digit c = true -> P c = true)
      by (unfold P; now intros c ->).
    rewrite (@all_impl Str.is_digit P ip I A).
    assert (T : Str.all P match fp with "" => "" | _ => "." ++ fp end = true).
    { destruct fp as [|d fp]; [reflexivity|].
      change ("." ++ String d fp) with (String "." (String d fp)).
      change (Str.all P (String "." (String d fp)))
        with (P "."%char && Str.all P (String d fp)).
      rewrite (@all_impl Str.is_digit P (String d fp) I F). reflexivity. }
    rewrite T. destruct negative; reflexivity.
Qed.

(** [parse] on a text that splits into a latitude and a longitude which
    [Dms.parse] reads as values in range. *)
Lemma parse_pieces text latS lonS r1 r2 v1 v2 :
  Str.split_on "," text "" = [latS; lonS] ->
  Dms.parse (VStr latS) = Return r1 -> Dms.parse (VStr lonS) = Return r2 ->
  Is r1 v1 -> -90 <= v1 -> v1 <= 90 ->
  Is r2 v2 -> -180 <= v2 -> v2 <= 180 ->
  LatLonSpherical.parse (Args [VStr text]) = Return (mk r1 r2).
Proof.
  intros Hs P1 P2 I1 L1 U1 I2 L2 U2.
  unfold LatLonSpherical.parse. cbn [orb]. cbv zeta. rewrite Hs. cbn [nth_error].
  unfold parse_pair. rewrite P1, P2. cbn [bind].
  change (bind (check_pair (VNum (Dms.wrap90 r1), VNum (Dms.wrap180 r2)))
            (fun ll => bind (check_pair ll) (fun '(lat, lon) => new lat lon))
          = Return (mk r1 r2)).
  rewrite parse_pair_new, (wrap90_id I1 L1 U1), (wrap180_id I2 L2 U2).
  rewrite new_VNum, (wrap90_id I1 L1 U1), (wrap180_id I2 L2 U2).
  destruct I1 as (q1 & -> & _). destruct I2 as (q2 & -> & _). reflexivity.
Qed.

Variable sep : string.
Hypothesis Hsep : separates sep = true.

Lemma Is_valid r1 r2 v1 v2 :
  Is r1 v1 -> -90 <= v1 -> v1 <= 90 -> Is r2 v2 -> -180 <= v2 -> v2 <= 180 ->
  valid (mk r1 r2) = true.
Proof.
  intros I1 L1 U1 I2 L2 U2. rewrite valid_mk.
  rewrite (Is_le (Is_Fin (-90)) I1), (Is_le I1 (Is_Fin 90)).
  rewrite (Is_le (Is_Fin (-180)) I2), (Is_le I2 (Is_Fin 180)).
  apply Qle_bool_iff in L1, U1, L2, U2. now rewrite L1, U1, L2, U2.
Qed.

(** [LatLonSpherical.parse] reads back what [toString] prints, in the
    default style d and in the numeric style n: for a point with a latitude
    in [-90, 90] and a longitude in [-180, 180], printed with [f] decimals
    from 0 to 100, the text parses to a valid point whose coordinates are
    [n / 10^f] and [m / 10^f], the integers [n] and [m] being within a half
    of the coordinates times 10^f. *)
Theorem parse_reads_back_toString (a b : Q) (f : Z) (format : option string) :
  (0 <= f <= 100)%Z -> -90 <= a -> a <= 90 -> -180 <= b -> b <= 180 ->
  In format [None; Some "d"; Some "n"] ->
  exists s p n m,
    LatLonSpherical.toString sep (mk (Fin a) (Fin b)) format (VNum (JS.int f))
    = Return s
    /\ LatLonSpherical.parse (Args [VStr s]) = Return p
    /\ valid p = true
    /\ Is (_lat p) (inject_Z n / Qpower 10 f)
    /\ Is (_lon p) (inject_Z m / Qpower 10 f)
    /\ Qabs (inject_Z n - a * Qpower 10 f) <= 1#2
    /\ Qabs (inject_Z m - b * Qpower 10 f) <= 1#2.
Proof.
  intros Hf La Ua Lb Ub Hfmt.
  assert (Hf0 : (0 <= f)%Z) by lia.
  assert (D : format = Some "n"
              \/ LatLonSpherical.toString sep (mk (Fin a) (Fin b)) format (VNum (JS.int f))
                 = bind (Dms.toLat sep (Fin a) None (VNum (JS.int f))) (fun lat =>
                   bind (Dms.toLon sep (Fin b) None (VNum (JS.int f))) (fun lon =>
                   Return (lat ++ ", " ++ lon)))).
  { destruct Hfmt as [ <- | [ <- | [ <- | [] ] ] ]; [right | right | left]; reflexivity. }
  destruct D as [-> | ->].
  - (* the numeric style *)
    assert (Ha : Qle_bool (Qpower 10 21) (Qabs a) = false).
    { apply Qle_bool_false. apply Qle_lt_trans with 90;
        [apply Qabs_Qle_condition; split; lra | reflexivity]. }
    assert (Hb : Qle_bool (Qpower 10 21) (Qabs b) = false).
    { apply Qle_bool_false. apply Qle_lt_trans with 180;
        [apply Qabs_Qle_condition; split; lra | reflexivity]. }
    destruct (@toFixed_text a f Hf Ha) as (ip & fp & E1 & Ai & Li & Af & Lf & V1).
    destruct (@toFixed_text b f Hf Hb) as (iq & fq & E2 & Bi & Mi & Bf & Mf & V2).
    change (LatLonSpherical.toString sep (mk (Fin a) (Fin b)) (Some "n") (VNum (JS.int f)))
      with (bind (toFixed (Fin a) (VNum (JS.int f))) (fun lat =>
            bind (toFixed (Fin b) (VNum (JS.int f))) (fun lon =>
            Return (lat ++ "," ++ lon)))).
    rewrite E1, E2. cbn [bind].
    pose proof (@StringToNumber_number_text (negb (Qle_bool 0 a)) ip fp Ai Li Af) as R1.
    pose proof (@StringToNumber_number_text (negb (Qle_bool 0 b)) iq fq Bi Mi Bf) as R2.
    destruct (@rounded_signed a f ip fp (negb (Qle_bool 0 a)) Hf0 Lf V1 eq_refl)
      as (n & En & Bn).
    destruct (@rounded_signed b f iq fq (negb (Qle_bool 0 b)) Hf0 Mf V2 eq_refl)
      as (m & Em & Bm).
    assert (I1 : Is (StringToNumber (number_text (negb (Qle_bool 0 a)) ip fp))
                    (inject_Z n / Qpower 10 f)).
    { destruct R1 as (r & Er & Hr). exists r. split; [exact Er|]. now rewrite Hr, En. }
    assert (I2 : Is (StringToNumber (number_text (negb (Qle_bool 0 b)) iq fq))
                    (inject_Z m / Qpower 10 f)).
    { destruct R2 as (r & Er & Hr). exists r. split; [exact Er|]. now rewrite Hr, Em. }
    destruct (@rounded_in_range n 90 a f Hf0 Bn La Ua) as [Ln Un].
    destruct (@rounded_in_range m 180 b f Hf0 Bm Lb Ub) as [Lm Um].
    eexists. eexists. exists n, m. split; [reflexivity|]. split.
    { eapply parse_pieces with (latS := number_text (negb (Qle_bool 0 a)) ip fp)
                               (lonS := number_text (negb (Qle_bool 0 b)) iq fq).
      - change ("," ++ ?x) with (String "," x).
        rewrite (@split_on_comma _ (@number_text_no_comma _ ip fp Ai Af) _ ""
                   (@number_text_no_comma _ iq fq Bi Bf)). reflexivity.
      - apply parse_number_text; assumption.
      - apply parse_number_text; assumption.
      - exact I1.
      - exact Ln.
      - exact Un.
      - exact I2.
      - exact Lm.
      - exact Um. }
    split; [exact (Is_valid I1 Ln Un I2 Lm Um)|].
    cbn [_lat _lon]. auto.
  - (* the style d *)
    destruct (@toLat_text sep Hsep a f Hf La Ua) as (s1 & r1 & n & -> & P1 & I1 & Bn & C1).
    destruct (@toLon_text sep Hsep b f Hf Lb Ub) as (s2 & r2 & m & -> & P2 & I2 & Bm & C2).
    cbn [bind].
    destruct (@rounded_in_range n 90 a f Hf0 Bn La Ua) as [Ln Un].
    destruct (@rounded_in_range m 180 b f Hf0 Bm Lb Ub) as [Lm Um].
    eexists. exists (mk r1 r2), n, m. split; [reflexivity|]. split.
    { eapply parse_pieces with (latS := s1) (lonS := String " " s2).
      - change (", " ++ s2) with (String "," (String " " s2)).
        rewrite (@split_on_comma s1 C1 (String " " s2) "").
        + reflexivity.
        + unfold no_comma in *. cbn [Str.all]. exact C2.
      - exact P1.
      - rewrite Dms_parse_space. exact P2.
      - exact I1.
      - exact Ln.
      - exact Un.
      - exact I2.
      - exact Lm.
      - exact Um. }
    split; [exact (Is_valid I1 Ln Un I2 Lm Um)|].
    cbn [_lat _lon]. auto.
Qed.

End PointBack.

(** Greenwich, (51.47788, -0.00147), in the default style with four
    decimals and the default separator. *)
Lemma parse_reads_back_toString_witness :
  exists s p n m,
    LatLonSpherical.toString dmsSeparator (mk (Fin 51.47788) (Fin (-0.00147)))
      None (VNum (JS.int 4)) = Return s
    /\ LatLonSpherical.parse (Args [VStr s]) = Return p
    /\ valid p = true
    /\ Is (_lat p) (inject_Z n / Qpower 10 4)
    /\ Is (_lon p) (inject_Z m / Qpower 10 4)
    /\ Qabs (inject_Z n - 51.47788 * Qpower 10 4) <= 1#2
    /\ Qabs (inject_Z m - (-0.00147) * Qpower 10 4) <= 1#2.
Proof.
  apply (@parse_reads_back_toString dmsSeparator); try reflexivity; try lia;
    try (simpl; auto); try (unfold Qle; simpl; lia).
Defined.

(** ** GeoJSON, the track distances and the rhumb lines *)

Section GeoJSONProperties.

Local Open Scope js_scope.

(** [LatLonSpherical.parse] reads back what [toGeoJSON] writes: a point
    that satisfies the invariant is returned as it is, and a point that
    holds NaN is rejected with a TypeError. *)
Theorem parse_reads_back_toGeoJSON (p : t) :
  is_GeoJSON (toGeoJSON p) = true
  /\ (valid p = true -> LatLonSpherical.parse (Literal (toGeoJSON p)) = Return p)
  /\ (JS.is_nan (_lat p) || JS.is_nan (_lon p) = true ->
      LatLonSpherical.parse (Literal (toGeoJSON p)) = Throw TypeError).
Proof.
  split; [reflexivity|]. split.
  - intros V. pose proof (@new_copy p V) as N.
    destruct (@valid_inv p V) as (a & b & -> & _).
    exact N.
  - intros H. unfold LatLonSpherical.parse.
    change (is_GeoJSON (toGeoJSON p)) with true. cbv iota.
    cbn [toGeoJSON prop_coordinates nth].
    destruct p as [a b]. cbn [_lat _lon] in *.
    destruct a, b; cbn in H; try discriminate H; reflexivity.
Qed.

End GeoJSONProperties.

Section DistanceProperties.

Local Open Scope js_scope.

Variable M : Math.Lib.
Hypothesis C : Math.Conforms M.

Lemma mul_defined x y : JS.defined x -> JS.is_finite y = true -> JS.defined (x * y).
Proof.
  intros [-> | Fx] Fy; [left; reflexivity|].
  destruct x; try discriminate. destruct y; try discriminate. right. reflexivity.
Qed.

Lemma distanceTo_outcome this point radius :
  (if isNaN radius then radius = VUndefined else True) ->
  exists d, distanceTo M this (IsInstance point) radius = Return d.
Proof.
  intros H. unfold distanceTo. cbn [to_instance bind].
  destruct radius as [| |b|n|s]; cbn [isNaN ToNumber JS.is_nan];
    try (eexists; reflexivity).
  - destruct b; eexists; reflexivity.
  - unfold isNaN in *. cbn [ToNumber] in *.
    destruct (JS.is_nan n); [discriminate H | eexists; reflexivity].
  - unfold isNaN in *.
    destruct (JS.is_nan (ToNumber (VStr s))); [discriminate H | eexists; reflexivity].
Qed.

Lemma distanceTo_throws this point radius :
  radius <> VUndefined -> isNaN radius = true ->
  distanceTo M this (IsInstance point) radius = Throw TypeError.
Proof.
  intros U N. unfold distanceTo. cbn [to_instance bind].
  destruct radius; try contradiction; now rewrite N.
Qed.

(** The track distances test the point against the start of the path before
    the radius is looked at: on the start of the path both are 0 for every
    radius; elsewhere both throw the TypeError of [distanceTo] for a radius
    that is not a number, and return a number for every other radius.  The
    cross-track distance on a finite radius is NaN or finite. *)
Theorem track_distances_radius (this pathStart pathEnd : t) (radius : value) :
  let cross := crossTrackDistanceTo M this (IsInstance pathStart)
                 (IsInstance pathEnd) radius in
  let along := alongTrackDistanceTo M this (IsInstance pathStart)
                 (IsInstance pathEnd) radius in
  (equals this pathStart = true -> cross = Return 0 /\ along = Return 0)
  /\ (equals this pathStart = false ->
      (radius <> VUndefined -> isNaN radius = true ->
       cross = Throw TypeError /\ along = Throw TypeError)
      /\ (radius = VUndefined \/ isNaN radius = false ->
          exists d1 d2, cross = Return d1 /\ along = Return d2
            /\ (radius = VUndefined \/ isFinite radius = true -> JS.defined d1))).
Proof.
  cbv zeta. unfold crossTrackDistanceTo, alongTrackDistanceTo.
  cbn [to_instance bind]. split.
  - intros ->. split; reflexivity.
  - intros ->. split.
    + intros U N.
      assert (ER : match radius with VUndefined => VNum 6371000 | _ => radius end
                   = radius) by (destruct radius; try reflexivity; contradiction).
      rewrite ER, (@distanceTo_throws pathStart this radius U N).
      split; reflexivity.
    + intros H.
      assert (H' : if isNaN radius then radius = VUndefined else True).
      { destruct H as [-> | ->]; [reflexivity | exact I]. }
      set (R := match radius with VUndefined => VNum 6371000 | _ => radius end).
      assert (HR : if isNaN R then R = VUndefined else True).
      { subst R. destruct radius; try exact H'; exact I. }
      destruct (@distanceTo_outcome pathStart this R HR) as (d & Ed).
      destruct (initialBearingTo_is_bearing C pathStart this) as (b13 & E13 & _).
      destruct (initialBearingTo_is_bearing C pathStart pathEnd) as (b12 & E12 & _).
      rewrite Ed, E13, E12. cbn [bind].
      eexists. eexists. split; [reflexivity|]. split; [reflexivity|].
      intros F. apply mul_defined; [apply (Math.asin_range C)|].
      subst R. destruct F as [-> | F]; [reflexivity|].
      destruct radius; try exact F. discriminate F.
Qed.

(** The bearing along a rhumb line never throws between instances; it is
    NaN or a number in [0, 360), and NaN for coincident points, whatever
    the host's tangent and logarithm return. *)
Theorem rhumbBearingTo_in_range (log : number -> number) (this point : t) :
  exists b, rhumbBearingTo M log this (IsInstance point) = Return b
            /\ is_bearing b = true
            /\ (equals this point = true -> b = NaN).
Proof.
  unfold rhumbBearingTo. cbn [to_instance bind].
  destruct (equals this point).
  - exists NaN. auto.
  - eexists. split; [reflexivity|]. split; [|discriminate].
    apply wrap360_is_bearing, toDegrees_defined, (Math.atan2_range C).
Qed.

End DistanceProperties.

Section RhumbDestination.

Local Open Scope js_scope.

Variable M : Math.Lib.
Variable log : number -> number.

Lemma infinite_cases x : JS.is_finite x = false -> JS.is_nan x = false ->
  x = PInf \/ x = NInf.
Proof. destruct x; try discriminate; auto. Qed.

Lemma Qsign_nonzero q : Qeq_bool q 0 = false -> Qsign q <> 0%Z.
Proof.
  intros N E. unfold Qsign in E. apply -> Z.sgn_null_iff in E.
  destruct q as [n d]. simpl in E. subst n. discriminate N.
Qed.

Lemma mul_inf_finite x y : x = PInf \/ x = NInf ->
  JS.is_finite y = true -> (y == 0) = false ->
  x * y = PInf \/ x * y = NInf.
Proof.
  intros Hx Fy Ny. destruct y as [| | |q]; try discriminate.
  cbn [JS.eqb] in Ny. pose proof (Qsign_nonzero _ Ny) as Hq.
  destruct Hx as [-> | ->]; cbn [JS.mul JS.sign];
    destruct (Qsign q) eqn:E; try congruence; cbn; auto.
Qed.

Lemma div_inf_finite x y : x = PInf \/ x = NInf -> JS.is_finite y = true ->
  x / y = PInf \/ x / y = NInf.
Proof.
  intros Hx Fy. destruct y as [| | |q]; try discriminate.
  destruct Hx as [-> | ->]; cbn [JS.div]; destruct (Qeq_bool q 0) eqn:E; auto;
    pose proof (Qsign_nonzero _ E) as Hq;
    cbn [JS.sign]; destruct (Qsign q); try congruence; cbn; auto.
Qed.

(** Unlike [destinationPoint], [rhumbDestinationPoint] can return a point
    that breaks the invariant: when the angular distance is infinite (a
    radius of 0, or an infinite distance) on a bearing that is neither due
    north or south nor due east or west, the latitude is taken past the
    pole to the opposite infinity, whose tangent is NaN, and the point
    returned holds NaN in both coordinates instead of a TypeError being
    thrown. *)
Theorem rhumbDestinationPoint_stores_NaN (this : t) (distance bearing radius : value) :
  Math.tan M PInf = NaN -> Math.tan M NInf = NaN -> log NaN = NaN ->
  valid this = true ->
  radius <> VUndefined ->
  JS.is_finite (ToNumber distance / ToNumber radius) = false ->
  JS.is_nan (ToNumber distance / ToNumber radius) = false ->
  JS.is_finite (Math.cos M (toRadians (Number bearing))) = true ->
  (Math.cos M (toRadians (Number bearing)) == 0) = false ->
  JS.is_finite (Math.sin M (toRadians (Number bearing))) = true ->
  (Math.sin M (toRadians (Number bearing)) == 0) = false ->
  JS.is_finite (Math.cos M (toRadians (_lat this))) = true ->
  rhumbDestinationPoint M log this distance bearing radius = Return (mk NaN NaN)
  /\ valid (mk NaN NaN) = false.
Proof.
  intros TP TN LN V U F N Fc Nc Fs Ns Fk. split; [|reflexivity].
  destruct (@valid_inv this V) as (a & b & -> & _).
  unfold rhumbDestinationPoint. cbv zeta. cbn [_lat _lon] in *.
  assert (ER : match radius with VUndefined => VNum 6371000 | _ => radius end = radius)
    by (destruct radius; try reflexivity; contradiction).
  rewrite ER. clear ER.
  set (δ := ToNumber distance / ToNumber radius) in *.
  set (θ := toRadians (Number bearing)) in *.
  pose proof (infinite_cases _ F N) as Hδ.
  pose proof (@mul_inf_finite δ (Math.cos M θ) Hδ Fc Nc) as HΔφ.
  pose proof (@mul_inf_finite δ (Math.sin M θ) Hδ Fs Ns) as Hs.
  pose proof (@div_inf_finite (δ * Math.sin M θ) (Math.cos M (toRadians (Fin a))) Hs Fk) as HΔλ.
  assert (F1 : exists q, toRadians (Fin a) = Fin q) by (eexists; reflexivity).
  assert (F2 : exists q, toRadians (Fin b) = Fin q) by (eexists; reflexivity).
  destruct F1 as (φ1 & E1). destruct F2 as (λ1 & E2).
  rewrite E1 in *. rewrite E2.
  clearbody δ θ. clear F N Hδ Hs Fc Nc Fs Ns.
  destruct HΔφ as [-> | ->].
  - change (Fin φ1 + PInf) with PInf.
    change (Math.abs PInf > π / 2) with true. cbv iota.
    change (PInf > 0) with true. cbv iota.
    change (π - PInf) with NInf.
    change (NInf / 2 + π / 4) with NInf.
    rewrite TN. change (NaN / Math.tan M (Fin φ1 / 2 + π / 4)) with NaN.
    rewrite LN. change (Math.abs NaN > dec 10e-12) with false.
    cbv iota. destruct HΔλ as [-> | ->]; reflexivity.
  - change (Fin φ1 + NInf) with NInf.
    change (Math.abs NInf > π / 2) with true. cbv iota.
    change (NInf > 0) with false. cbv iota.
    change (- π - NInf) with PInf.
    change (PInf / 2 + π / 4) with PInf.
    rewrite TP. change (NaN / Math.tan M (Fin φ1 / 2 + π / 4)) with NaN.
    rewrite LN. change (Math.abs NaN > dec 10e-12) with false.
    cbv iota. destruct HΔλ as [-> | ->]; reflexivity.
Qed.

End RhumbDestination.

(** The example of the source for the cross-track distance, with a radius
    that is not a number. *)
Lemma track_distances_radius_witness :
  let this := mk (dec 53.2611) (dec (-0.7972)) in
  let pathStart := mk (dec 53.3206) (dec (-1.7297)) in
  let pathEnd := mk (dec 53.1887) (dec 0.1334) in
  let radius := VStr "N/A" in
  let cross := crossTrackDistanceTo RefMath.lib this (IsInstance pathStart)
                 (IsInstance pathEnd) radius in
  let along := alongTrackDistanceTo RefMath.lib this (IsInstance pathStart)
                 (IsInstance pathEnd) radius in
  (equals this pathStart = true -> cross = Return 0%js /\ along = Return 0%js)
  /\ (equals this pathStart = false ->
      (radius <> VUndefined -> isNaN radius = true ->
       cross = Throw TypeError /\ along = Throw TypeError)
      /\ (radius = VUndefined \/ isNaN radius = false ->
          exists d1 d2, cross = Return d1 /\ along = Return d2
            /\ (radius = VUndefined \/ isFinite radius = true -> JS.defined d1))).
Proof. apply (@track_distances_radius RefMath.lib RefMath_conforms). Defined.

(** The example of the source: from (51.127, 1.338) to (50.964, 1.853). *)
Lemma rhumbBearingTo_in_range_witness :
  exists b,
    rhumbBearingTo RefMath.lib (fun x => x) (mk (dec 51.127) (dec 1.338))
      (IsInstance (mk (dec 50.964) (dec 1.853))) = Return b
    /\ is_bearing b = true
    /\ (equals (mk (dec 51.127) (dec 1.338)) (mk (dec 50.964) (dec 1.853)) = true
        -> b = NaN).
Proof. apply (@rhumbBearingTo_in_range RefMath.lib RefMath_conforms). Defined.

(** The example of the source, 40300 metres on the bearing 116.7 from
    (51.127, 1.338), on a sphere of radius 0. *)
Lemma rhumbDestinationPoint_stores_NaN_witness :
  rhumbDestinationPoint RefMath.lib (fun x => x) (mk (dec 51.127) (dec 1.338))
    (VNum 40300) (VNum (dec 116.7)) (VNum 0) = Return (mk NaN NaN)
  /\ valid (mk NaN NaN) = false.
Proof.
  apply (@rhumbDestinationPoint_stores_NaN RefMath.lib (fun x => x));
    first [ discriminate | vm_compute; reflexivity ].
Defined.

(** ** The true bearing of [searchCranes] *)

Section TrueBearing.

Local Open Scope string_scope.

Lemma below_cases (P : Z -> bool) (n : nat) :
  forallb P (List.map Z.of_nat (seq 0 n)) = true ->
  forall m, (0 <= m < Z.of_nat n)%Z -> P m = true.
Proof.
  intros H m Hm. rewrite forallb_forall in H. apply H.
  apply in_map_iff. exists (Z.to_nat m). split; [lia|].
  apply in_seq. lia.
Qed.

Lemma toString_below_360 m : (0 <= m < 360)%Z ->
  Number_toString (JS.int m) = Str.of_Z m.
Proof.
  intros Hm.
  apply (@below_cases
           (fun m => String.eqb (Number_toString (JS.int m)) (Str.of_Z m)) 360)
    in Hm; [apply String.eqb_eq; exact Hm|].
  vm_compute. reflexivity.
Qed.

Lemma parse_below_360 m : (0 <= m < 360)%Z ->
  Dms.parse (VStr (Number_toString (JS.int m))) = Return (JS.int m).
Proof.
  intros Hm.
  apply (@below_cases
           (fun m => match Dms.parse (VStr (Number_toString (JS.int m))) with
                     | Return (Fin q) => Z.eqb (Qnum q) m && Pos.eqb (Qden q) 1
                     | _ => false
                     end) 360) in Hm; [|vm_compute; reflexivity].
  destruct (Dms.parse _) as [[| | |[n d]]|]; try discriminate Hm.
  apply andb_true_iff in Hm as [En Ed]. cbn [Qnum Qden] in En, Ed.
  apply Z.eqb_eq in En. apply Pos.eqb_eq in Ed. subst. reflexivity.
Qed.

Lemma Qred_inject_Z z : Qred (inject_Z z) = inject_Z z.
Proof.
  unfold Qred, inject_Z. cbn [Qnum Qden].
  pose proof (Z.ggcd_correct_divisors z 1) as H.
  pose proof (Z.ggcd_gcd z 1) as G.
  destruct (Z.ggcd z 1) as [g [aa bb]]. cbn [fst snd] in *.
  rewrite Z.gcd_1_r in G. subst g. destruct H as [Ha Hb].
  assert (bb = 1%Z) by lia. subst bb.
  rewrite Z.mul_1_l in Ha. subst aa. reflexivity.
Qed.

Lemma rem_360 x V : Is x (inject_Z V) -> (0 <= V)%Z ->
  (x %% 360)%js = JS.int (V mod 360).
Proof.
  intros (q & -> & Hq) HV.
  change (360%js) with (Fin 360).
  rewrite rem_Fin by (intros E; discriminate E).
  unfold JS.int. f_equal.
  rewrite <- Qred_inject_Z. apply Qred_complete.
  unfold Qrem.
  assert (H0 : 0 <= q / 360).
  { rewrite Hq. apply Qle_shift_div_l; [reflexivity|].
    rewrite Qmult_0_l. change 0 with (inject_Z 0). rewrite <- Zle_Qle. exact HV. }
  destruct (Qtrunc_nonneg H0) as [L U].
  set (k := JS.Qtrunc (q / 360)) in *. clearbody k.
  rewrite Hq in L, U |- *.
  assert (L' : inject_Z (360 * k) <= inject_Z V).
  { rewrite inject_Z_mult. change (inject_Z 360) with 360.
    apply (Qmult_le_compat_r _ _ 360) in L; [|discriminate].
    field_simplify in L. field_simplify. lra. }
  assert (U' : inject_Z V < inject_Z (360 * k + 360)).
  { rewrite inject_Z_plus, inject_Z_mult. change (inject_Z 360) with 360.
    apply (Qmult_lt_compat_r _ _ 360) in U; [|reflexivity].
    field_simplify in U. field_simplify. lra. }
  rewrite <- Zle_Qle in L'. rewrite <- Zlt_Qlt in U'.
  assert (E : (V mod 360 = V - 360 * k)%Z).
  { pose proof (Z.div_mod V 360) as D. pose proof (Z.mod_pos_bound V 360) as B.
    set (r := (V mod 360)%Z) in *. set (j := (V / 360)%Z) in *.
    clearbody r j. lia. }
  rewrite E. unfold Zminus. rewrite inject_Z_plus, inject_Z_opp, inject_Z_mult.
  change (inject_Z 360) with 360. ring.
Qed.

Lemma pow10_mod_9 n : (10 ^ Z.of_nat n mod 9 = 1)%Z.
Proof.
  induction n as [|n IH]; [reflexivity|].
  rewrite Nat2Z.inj_succ, Z.pow_succ_r by lia.
  rewrite Z.mul_mod, IH by lia. reflexivity.
Qed.

Lemma joined_mod_360 m d n :
  (((m * 10 ^ Z.of_nat n + d) * 1000 + 360) mod 360
   = 40 * ((7 * (m + d)) mod 9))%Z.
Proof.
  pose proof (pow10_mod_9 n) as P.
  set (p := (10 ^ Z.of_nat n)%Z) in *. clearbody p.
  replace ((m * p + d) * 1000 + 360)%Z with (40 * (25 * (m * p + d) + 9))%Z by ring.
  change 360%Z with (40 * 9)%Z. rewrite Z.mul_mod_distr_l by lia. f_equal.
  rewrite (Z.div_mod p 9) by lia. rewrite P.
  set (k := (p / 9)%Z). clearbody k. clear P.
  replace (25 * (m * (9 * k + 1) + d) + 9)%Z
    with (7 * (m + d) + (25 * m * k + 2 * (m + d) + 1) * 9)%Z by ring.
  apply Z.mod_add. lia.
Qed.

(** The true bearing of a crane.  With a declination that is a number the
    bearing is the sum of the magnetic bearing and the declination, taken
    modulo 360.  [searchCranes] reads the declination from the page as a
    text, so [+] joins the texts of the bearing, of the declination and of
    360: the number read back is, modulo 360, 280 times the sum, which is
    one of the nine multiples of 40 and not the sum.  [getDestination]
    reads this bearing back from its text unchanged. *)
Theorem degTrue_joins_texts (m d : Z) :
  (0 <= m < 360)%Z -> (0 <= d < 360)%Z ->
  degTrue (JS.int m) (VNum (JS.int d)) = JS.int ((m + d) mod 360)
  /\ degTrue (JS.int m) (VStr (Str.of_Z d))
     = JS.int (40 * ((7 * (m + d)) mod 9))
  /\ Dms.parse (VStr (Number_toString (degTrue (JS.int m) (VStr (Str.of_Z d)))))
     = Return (degTrue (JS.int m) (VStr (Str.of_Z d))).
Proof.
  intros Hm Hd.
  assert (T : degTrue (JS.int m) (VStr (Str.of_Z d))
              = JS.int (40 * ((7 * (m + d)) mod 9))).
  { unfold degTrue, plus. cbn [ToString].
    rewrite (toString_below_360 Hm).
    change (Number_toString 360%js) with "360".
    destruct (@of_Z_digits m (proj1 Hm)) as (Am & Vm & Lm).
    destruct (@of_Z_digits d (proj1 Hd)) as (Ad & Vd & Ld).
    set (text := (Str.of_Z m ++ Str.of_Z d) ++ "360").
    assert (A : Str.all Str.is_digit text = true).
    { unfold text. rewrite !all_append, Am, Ad. reflexivity. }
    assert (L : (1 <= String.length text)%nat).
    { unfold text. rewrite !length_append. lia. }
    assert (V : Str.digits_value text
                = ((m * 10 ^ Z.of_nat (String.length (Str.of_Z d)) + d) * 1000 + 360)%Z).
    { unfold text. rewrite digits_value_append; [|rewrite all_append, Am, Ad; reflexivity|reflexivity].
      rewrite (digits_value_append _ _ Am Ad), Vm, Vd. reflexivity. }
    pose proof (@StringToNumber_number_text false text "" A L eq_refl) as N.
    unfold number_text in N. cbn [append] in N. rewrite append_nil_r in N.
    cbn [ToNumber].
    rewrite <- joined_mod_360 with (n := String.length (Str.of_Z d)).
    rewrite <- V. apply rem_360.
    - destruct N as (q & -> & Hq). exists q. split; [reflexivity|].
      rewrite Hq. change (Str.digits_value "") with 0%Z.
      change (Z.of_nat (String.length "")) with 0%Z.
      change (Qpower 10 0) with 1. change (inject_Z 0) with 0. field.
    - rewrite V. nia. }
  split; [|split; [exact T|]].
  - unfold degTrue, plus. cbn [ToNumber].
    replace ((m + d) mod 360)%Z with ((m + d + 360) mod 360)%Z
      by (rewrite <- (Z.mod_add (m + d) 1 360) by lia; f_equal; lia).
    apply rem_360; [|lia].
    unfold JS.int. eexists. split; [reflexivity|].
    rewrite !Qred_correct, !inject_Z_plus. reflexivity.
  - rewrite T. apply parse_below_360.
    pose proof (Z.mod_pos_bound (7 * (m + d)) 9). lia.
Qed.

End TrueBearing.

(** A crane on the magnetic bearing 90 with the declination 8: 80 where
    98 is meant. *)
Lemma degTrue_joins_texts_witness :
  degTrue 90 (VNum 8) = 98%js
  /\ degTrue 90 (VStr "8") = 80%js
  /\ Dms.parse (VStr (Number_toString (degTrue 90 (VStr "8"))))
     = Return (degTrue 90 (VStr "8")).
Proof. apply (@degTrue_joins_texts 90 8); lia. Defined.
